(** * Dense matrix multiplication kernels (naive and tiled) and their host driver

    A shallow embedding of
      - MatrixMultiplication/SimpleMatrixMultiplication.cpp
      - MatrixMultiplication/TiledMatrixMultiplication.cpp

    Scalars.  The kernels compute in [float]; the statements below are about
    exact arithmetic, so the scalar type is an interface [Scalar] with a zero,
    a one, an addition and a multiplication, and every theorem names the
    algebraic laws it uses.

    Integers.  [int] and [unsigned] are 32 bits wide.  They are modelled in
    [Z] with the wrap-around written out: [to_unsigned] is the conversion to
    [unsigned], [to_int] the conversion to [int].

    Threads.  A kernel launch runs one logical thread per (blockIdx,
    threadIdx) pair.  Threads of the naive kernel are independent.  Threads
    of one block of the tiled kernel meet at [__syncthreads()]; between two
    barriers every thread of the block writes only its own scratch cell or
    only its own accumulator, so the block is executed phase by phase, each
    phase running the threads of the block one after the other.

    Memory.  [A] and [B] are read-only buffers, [C] is the output buffer.  An
    access outside a buffer is undefined behaviour and is modelled as
    [Fault].  Every access is recorded, with the thread that performs it, in
    a trace. *)

From Stdlib Require Import ZArith Lia List Bool.
From Stdlib Require String.
From stdpp Require Import base tactics list list_numbers gmap.

Local Open Scope Z_scope.

(** ** Machine integers *)

Definition int_max : Z := 2147483647.

(** Conversion to [unsigned] (32 bits): reduction modulo 2^32. *)
Definition to_unsigned (z : Z) : Z := z mod 4294967296.

(** Conversion to [int] (32 bits, two's complement). *)
Definition to_int (z : Z) : Z := (z + 2147483648) mod 4294967296 - 2147483648.

(** [int] addition and multiplication, as the device computes them. *)
Definition int_add (a b : Z) : Z := to_int (a + b).
Definition int_mul (a b : Z) : Z := to_int (a * b).

(** [unsigned] addition, multiplication and division. *)
Definition uint_add (a b : Z) : Z := to_unsigned (to_unsigned a + to_unsigned b).
Definition uint_mul (a b : Z) : Z := to_unsigned (to_unsigned a * to_unsigned b).
Definition uint_div (a b : Z) : Z := to_unsigned a / to_unsigned b.

(** [const unsigned TILE_WIDTH = 16;] *)
Definition TILE_WIDTH : Z := 16.

(** ** Scalars *)

Class Scalar (R : Type) := {
  rzero : R;
  rone : R;
  radd : R -> R -> R;
  rmul : R -> R -> R
}.

#[export] Instance Z_scalar : Scalar Z :=
  {| rzero := 0; rone := 1; radd := Z.add; rmul := Z.mul |}.

(** ** Threads, accesses and traces *)

(** [dim3] with its [z] component left out: it is 1 throughout. *)
Record dim3 := Dim3 { dim_x : Z; dim_y : Z }.

Record thread := Thread { blockIdx : dim3; threadIdx : dim3 }.

#[export] Instance dim3_eq_dec : EqDecision dim3.
Proof. solve_decision. Defined.

#[export] Instance thread_eq_dec : EqDecision thread.
Proof. solve_decision. Defined.

Inductive space := GlobalA | GlobalB | GlobalC | SharedA | SharedB.

#[export] Instance space_eq_dec : EqDecision space.
Proof. solve_decision. Defined.

(** A shared tile [float ds[TILE_WIDTH][TILE_WIDTH]] is addressed by its
    flattened offset [y * TILE_WIDTH + x]. *)
Inductive access :=
| Load (s : space) (i : Z)
| Store (s : space) (i : Z)
| Barrier.

#[export] Instance access_eq_dec : EqDecision access.
Proof. solve_decision. Defined.

Definition event : Type := thread * access.

(** ** Device state and the kernel monad *)

Inductive result (X : Type) :=
| Ok (x : X)
| Fault.
Arguments Ok {X} x.
Arguments Fault {X}.

Section Device.
Context {R : Type} `{Scalar R}.

(** [memC]: the output buffer; [ds_A], [ds_B]: the scratch tiles of the
    running block; [Cvalue y x]: the accumulator of thread [(x, y)] of the
    running block; [trace]: the accesses made so far. *)
Record state := State {
  memC : list R;
  ds_A : Z -> Z -> R;
  ds_B : Z -> Z -> R;
  Cvalue : Z -> Z -> R;
  trace : list event
}.

Definition M (X : Type) : Type := state -> result X * state.

Definition ret {X} (x : X) : M X := fun st => (Ok x, st).

Definition bind {X Y} (m : M X) (k : X -> M Y) : M Y :=
  fun st =>
    match m st with
    | (Ok x, st') => k x st'
    | (Fault, st') => (Fault, st')
    end.

Definition emit (who : thread) (a : access) : M unit :=
  fun st =>
    (Ok tt, State (memC st) (ds_A st) (ds_B st) (Cvalue st)
                  (trace st ++ [(who, a)])).

(** Element [i] of a buffer, [None] outside of it. *)
Definition elem (buf : list R) (i : Z) : option R :=
  if i <? 0 then None else buf !! Z.to_nat i.

(** Read of a read-only global buffer. *)
Definition gload (who : thread) (s : space) (buf : list R) (i : Z) : M R :=
  fun st =>
    let (_, st') := emit who (Load s i) st in
    match elem buf i with
    | Some v => (Ok v, st')
    | None => (Fault, st')
    end.

(** Write of [C]. *)
Definition gstore (who : thread) (i : Z) (v : R) : M unit :=
  fun st =>
    let (_, st') := emit who (Store GlobalC i) st in
    match elem (memC st) i with
    | Some _ =>
        (Ok tt, State (<[Z.to_nat i := v]> (memC st')) (ds_A st') (ds_B st')
                      (Cvalue st') (trace st'))
    | None => (Fault, st')
    end.

Definition in_tile (y x : Z) : bool :=
  (0 <=? y) && (y <? TILE_WIDTH) && (0 <=? x) && (x <? TILE_WIDTH).

Definition upd2 (f : Z -> Z -> R) (y x : Z) (v : R) : Z -> Z -> R :=
  fun y' x' => if (y' =? y) && (x' =? x) then v else f y' x'.

(** [ds_A[y][x] = v] and [ds_B[y][x] = v]. *)
Definition sstoreA (who : thread) (y x : Z) (v : R) : M unit :=
  fun st =>
    let (_, st') := emit who (Store SharedA (y * TILE_WIDTH + x)) st in
    if in_tile y x
    then (Ok tt, State (memC st') (upd2 (ds_A st') y x v) (ds_B st')
                       (Cvalue st') (trace st'))
    else (Fault, st').

Definition sstoreB (who : thread) (y x : Z) (v : R) : M unit :=
  fun st =>
    let (_, st') := emit who (Store SharedB (y * TILE_WIDTH + x)) st in
    if in_tile y x
    then (Ok tt, State (memC st') (ds_A st') (upd2 (ds_B st') y x v)
                       (Cvalue st') (trace st'))
    else (Fault, st').

(** [ds_A[y][x]] and [ds_B[y][x]]. *)
Definition sloadA (who : thread) (y x : Z) : M R :=
  fun st =>
    let (_, st') := emit who (Load SharedA (y * TILE_WIDTH + x)) st in
    if in_tile y x then (Ok (ds_A st y x), st') else (Fault, st').

Definition sloadB (who : thread) (y x : Z) : M R :=
  fun st =>
    let (_, st') := emit who (Load SharedB (y * TILE_WIDTH + x)) st in
    if in_tile y x then (Ok (ds_B st y x), st') else (Fault, st').

(** The accumulator [float Cvalue] of thread [(x, y)] of the block. *)
Definition get_Cvalue (y x : Z) : M R :=
  fun st => (Ok (Cvalue st y x), st).

Definition set_Cvalue (y x : Z) (v : R) : M unit :=
  fun st =>
    (Ok tt, State (memC st) (ds_A st) (ds_B st) (upd2 (Cvalue st) y x v)
                  (trace st)).

(** [__syncthreads()], as seen by one thread. *)
Definition syncthreads (who : thread) : M unit := emit who Barrier.

(** A loop over the values of [l], in order, threading an accumulator. *)
Fixpoint foldM {T X} (l : list T) (acc : X) (body : T -> X -> M X) : M X :=
  match l with
  | [] => ret acc
  | i :: l' => bind (body i acc) (fun acc' => foldM l' acc' body)
  end.

Definition for_each {T} (l : list T) (body : T -> M unit) : M unit :=
  foldM l tt (fun i _ => body i).

(** The threads [(x, y)] of a block of extent [blockDim], and the blocks
    of a grid of extent [gridDim]: [y] outer, [x] inner. *)
Definition indices (d : dim3) : list dim3 :=
  y ← seqZ 0 (dim_y d); x ← seqZ 0 (dim_x d); [Dim3 x y].

End Device.

Arguments state R : clear implicits.
Arguments M R X : clear implicits.

Notation "x <- c1 ;; c2" := (bind c1 (fun x => c2))
  (at level 100, c1 at next level, right associativity).
Notation "c1 ;; c2" := (bind c1 (fun _ => c2))
  (at level 100, right associativity).

(** ** The host driver ([main] and the [wbCheck] macro)

    The two files have the same [main], up to the launch geometry and the
    kernel, which are parameters here.  The device runtime is an
    environment: it decides the [cudaError_t] of every call ([outcomes], in
    call order, [cudaSuccess] once exhausted) and the contents of fresh
    allocations.  Reading the matrices, timing and logging are left out;
    host memory ([malloc], [free]) is not modelled. *)

Inductive cudaError_t := cudaSuccess | cudaErrorUnknown.

Inductive cudaMemcpyKind := cudaMemcpyHostToDevice | cudaMemcpyDeviceToHost.

Inductive api_call :=
| Call_cudaMalloc (size : Z)
| Call_cudaMemcpy (kind : cudaMemcpyKind) (ptr : Z) (size : Z)
| Call_launch (gridDim blockDim : dim3)
| Call_cudaDeviceSynchronize
| Call_cudaFree (ptr : Z).

(** What a statement of [main] does next: go on with a value, return from
    [main] with an exit code, or nothing defined (the kernel has faulted). *)
Inductive step (X : Type) :=
| Next (x : X)
| Return (code : Z)
| Undefined.
Arguments Next {X} x.
Arguments Return {X} code.
Arguments Undefined {X}.

Section Host.
Context {R : Type} `{Scalar R}.

(** [heap]: the device buffers currently allocated, by address;
    [solution]: the matrix handed to [wbSolution]. *)
Record world := World {
  outcomes : list cudaError_t;
  heap : gmap Z (list R);
  next_ptr : Z;
  calls : list api_call;
  solution : option (list R)
}.

Definition H_ (X : Type) : Type := world -> step X * world.

Definition hret {X} (x : X) : H_ X := fun w => (Next x, w).

Definition hbind {X Y} (m : H_ X) (k : X -> H_ Y) : H_ Y :=
  fun w =>
    match m w with
    | (Next x, w') => k x w'
    | (Return c, w') => (Return c, w')
    | (Undefined, w') => (Undefined, w')
    end.

(** The device runtime answers call [c]. *)
Definition device_call (c : api_call) (w : world) : cudaError_t * world :=
  match outcomes w with
  | [] => (cudaSuccess, World [] (heap w) (next_ptr w) (calls w ++ [c]) (solution w))
  | e :: es => (e, World es (heap w) (next_ptr w) (calls w ++ [c]) (solution w))
  end.

Definition set_heap (h : gmap Z (list R)) (w : world) : world :=
  World (outcomes w) h (next_ptr w) (calls w) (solution w).

(** [size] bytes hold [size / sizeof(float)] floats. *)
Definition floats (size : Z) : nat := Z.to_nat (size / 4).

Definition copy (size : Z) (src dst : list R) : list R :=
  take (floats size) src ++ drop (floats size) dst.

Variable uninit : Z -> list R.

(** [cudaMalloc(&ptr, size)]: the error code and the new address. *)
Definition cudaMalloc (size : Z) (w : world) : cudaError_t * Z * world :=
  match device_call (Call_cudaMalloc size) w with
  | (cudaSuccess, w') =>
      let p := next_ptr w' in
      (cudaSuccess, p,
       World (outcomes w') (<[p := uninit size]> (heap w')) (p + 1)
             (calls w') (solution w'))
  | (e, w') => (e, 0, w')
  end.

(** [cudaMemcpy(ptr, host, size, cudaMemcpyHostToDevice)]. *)
Definition cudaMemcpy_to_device (ptr : Z) (host : list R) (size : Z)
    (w : world) : cudaError_t * unit * world :=
  match device_call (Call_cudaMemcpy cudaMemcpyHostToDevice ptr size) w with
  | (cudaSuccess, w') =>
      match heap w' !! ptr with
      | Some old => (cudaSuccess, tt, set_heap (<[ptr := copy size host old]> (heap w')) w')
      | None => (cudaErrorUnknown, tt, w')
      end
  | (e, w') => (e, tt, w')
  end.

(** [cudaMemcpy(host, ptr, size, cudaMemcpyDeviceToHost)]: the new
    contents of the host buffer. *)
Definition cudaMemcpy_to_host (host : list R) (ptr : Z) (size : Z)
    (w : world) : cudaError_t * list R * world :=
  match device_call (Call_cudaMemcpy cudaMemcpyDeviceToHost ptr size) w with
  | (cudaSuccess, w') =>
      match heap w' !! ptr with
      | Some dev => (cudaSuccess, copy size dev host, w')
      | None => (cudaErrorUnknown, host, w')
      end
  | (e, w') => (e, host, w')
  end.

(** [cudaFree(ptr)]. *)
Definition cudaFree (ptr : Z) (w : world) : cudaError_t * unit * world :=
  match device_call (Call_cudaFree ptr) w with
  | (cudaSuccess, w') => (cudaSuccess, tt, set_heap (delete ptr (heap w')) w')
  | (e, w') => (e, tt, w')
  end.

(** [cudaDeviceSynchronize();] its error code is dropped by [main]. *)
Definition cudaDeviceSynchronize : H_ unit :=
  fun w => (Next tt, snd (device_call Call_cudaDeviceSynchronize w)).

(** The macro [wbCheck(stmt)]: on an error code other than [cudaSuccess],
    [return -1;] (after two log lines, left out). *)
Definition wbCheck {X} (stmt : world -> cudaError_t * X * world) : H_ X :=
  fun w =>
    match stmt w with
    | (cudaSuccess, x, w') => (Next x, w')
    | (_, _, w') => (Return (-1), w')
    end.

Variable dimGrid : Z -> Z -> dim3.
Variable dimBlock : dim3.
Variable kernel : list R -> list R -> Z -> Z -> Z -> Z -> Z -> Z ->
                  dim3 -> dim3 -> M R unit.
(** The contents of scratch memory and registers when a kernel starts. *)
Variable junk : Z -> Z -> R.

(** [matrixMultiply<<<dimGrid, dimBlock>>>(deviceA, deviceB, deviceC, ...)].
    A launch the runtime rejects runs nothing; [main] does not look at
    the error. *)
Definition launch_kernel (grid block : dim3) (deviceA deviceB deviceC : Z)
    (numARows numAColumns numBRows numBColumns numCRows numCColumns : Z)
    : H_ unit :=
  fun w =>
    match device_call (Call_launch grid block) w with
    | (cudaSuccess, w') =>
        match heap w' !! deviceA, heap w' !! deviceB, heap w' !! deviceC with
        | Some a, Some b, Some c =>
            match kernel a b numARows numAColumns numBRows numBColumns
                         numCRows numCColumns grid block
                         (State c junk junk junk []) with
            | (Ok _, st) => (Next tt, set_heap (<[deviceC := memC st]> (heap w')) w')
            | (Fault, _) => (Undefined, w')
            end
        | _, _, _ => (Undefined, w')
        end
    | (_, w') => (Next tt, w')
    end.

(** [wbSolution(args, hostC, numCRows, numCColumns);] *)
Definition wbSolution (hostC : list R) : H_ unit :=
  fun w => (Next tt, World (outcomes w) (heap w) (next_ptr w) (calls w) (Some hostC)).

Definition main_body (hostA : list R) (numARows numAColumns : Z)
    (hostB : list R) (numBRows numBColumns : Z) : H_ unit :=
  (* Set numCRows and numCColumns *)
  let numCRows := numARows in
  let numCColumns := numBColumns in
  let sizeA := to_int (int_mul numARows numAColumns * 4) in
  let sizeB := to_int (int_mul numBRows numBColumns * 4) in
  let sizeC := to_int (int_mul numCRows numCColumns * 4) in
  (* Allocate the hostC matrix *)
  let hostC := uninit sizeC in
  (* Allocate GPU memory *)
  hbind (wbCheck (cudaMalloc sizeA)) (fun deviceA =>
  hbind (wbCheck (cudaMalloc sizeB)) (fun deviceB =>
  hbind (wbCheck (cudaMalloc sizeC)) (fun deviceC =>
  (* Copy memory to the GPU *)
  hbind (wbCheck (cudaMemcpy_to_device deviceA hostA sizeA)) (fun _ =>
  hbind (wbCheck (cudaMemcpy_to_device deviceB hostB sizeB)) (fun _ =>
  (* Initialize the grid and block dimensions, launch the kernel *)
  hbind (launch_kernel (dimGrid numCRows numCColumns) dimBlock
           deviceA deviceB deviceC
           numARows numAColumns numBRows numBColumns numCRows numCColumns)
        (fun _ =>
  hbind cudaDeviceSynchronize (fun _ =>
  (* Copy the GPU memory back to the CPU *)
  hbind (wbCheck (cudaMemcpy_to_host hostC deviceC sizeC)) (fun hostC =>
  (* Free the GPU memory *)
  hbind (wbCheck (cudaFree deviceA)) (fun _ =>
  hbind (wbCheck (cudaFree deviceB)) (fun _ =>
  hbind (wbCheck (cudaFree deviceC)) (fun _ =>
  hbind (wbSolution hostC) (fun _ =>
  fun w => (Return 0, w))))))))))))).

(** The device runtime as [main] finds it: nothing allocated, no call
    made yet. *)
Definition boot (script : list cudaError_t) : world :=
  World script ∅ 1 [] None.

End Host.

Arguments world R : clear implicits.
Arguments H_ R X : clear implicits.

(** ** The naive kernel (SimpleMatrixMultiplication.cpp) *)

Module Simple.
Section Kernel.
Context {R : Type} `{Scalar R}.
Variables (A B : list R).
Variables (numARows numAColumns numBRows numBColumns numCRows numCColumns : Z).
Variable (blockDim : dim3).

(** [int Row = blockIdx.x * blockDim.x + threadIdx.x;] ([unsigned]
    arithmetic, converted to [int]) and likewise [Col] along [y]. *)
Definition Row (th : thread) : Z :=
  to_int (uint_add (uint_mul (dim_x (blockIdx th)) (dim_x blockDim))
                   (dim_x (threadIdx th))).

Definition Col (th : thread) : Z :=
  to_int (uint_add (uint_mul (dim_y (blockIdx th)) (dim_y blockDim))
                   (dim_y (threadIdx th))).

(** [Cvalue += A[Row * numAColumns + i] * B[Col + i * numBColumns];] *)
Definition dot_step (th : thread) (i : Z) (Cvalue : R) : M R R :=
  a <- gload th GlobalA A (int_add (int_mul (Row th) numAColumns) i) ;;
  b <- gload th GlobalB B (int_add (Col th) (int_mul i numBColumns)) ;;
  ret (radd Cvalue (rmul a b)).

(** The kernel body, run by thread [th]. *)
Definition matrixMultiply (th : thread) : M R unit :=
  if (Row th <? numCRows) && (Col th <? numCColumns) then
    Cvalue <- foldM (seqZ 0 numAColumns) rzero (dot_step th) ;;
    gstore th (int_add (int_mul (Row th) numCColumns) (Col th)) Cvalue
  else ret tt.

(** [matrixMultiply<<<gridDim, blockDim>>>(...)]: every thread of every
    block runs the kernel body. *)
Definition launch (gridDim : dim3) : M R unit :=
  for_each (indices gridDim) (fun b =>
    for_each (indices blockDim) (fun t => matrixMultiply (Thread b t))).

End Kernel.

(** [dim3 dimGrid((numCRows - 1) / TILE_WIDTH + 1,
                  (numCColumns - 1) / TILE_WIDTH + 1, 1);]
    [numCRows - 1] is an [int]; it is converted to [unsigned] by the
    division by [TILE_WIDTH]. *)
Definition dimGrid (numCRows numCColumns : Z) : dim3 :=
  Dim3 (uint_add (uint_div (int_add numCRows (-1)) TILE_WIDTH) 1)
       (uint_add (uint_div (int_add numCColumns (-1)) TILE_WIDTH) 1).

(** [dim3 dimBlock(TILE_WIDTH, TILE_WIDTH, 1);] *)
Definition dimBlock : dim3 := Dim3 TILE_WIDTH TILE_WIDTH.

(** The kernel with the parameter list of the source; it reads neither
    [numARows] nor [numBRows]. *)
Definition kernel {R : Type} `{Scalar R} (A B : list R)
    (numARows numAColumns numBRows numBColumns numCRows numCColumns : Z)
    (gridDim blockDim : dim3) : M R unit :=
  launch A B numAColumns numBColumns numCRows numCColumns blockDim gridDim.

Definition main {R : Type} `{Scalar R} (uninit : Z -> list R) (junk : Z -> Z -> R) :=
  main_body uninit dimGrid dimBlock kernel junk.

End Simple.

(** ** The tiled kernel (TiledMatrixMultiplication.cpp) *)

Module Tiled.
Section Kernel.
Context {R : Type} `{Scalar R}.
Variables (A B : list R).
Variables (numARows numAColumns numBRows numBColumns numCRows numCColumns : Z).
Variable (blockDim : dim3).

Definition bx (th : thread) : Z := dim_x (blockIdx th).
Definition by_ (th : thread) : Z := dim_y (blockIdx th).
Definition tx (th : thread) : Z := dim_x (threadIdx th).
Definition ty (th : thread) : Z := dim_y (threadIdx th).

(** [int Col = bx * blockDim.x + tx;  int Row = by * blockDim.y + ty;] *)
Definition Col (th : thread) : Z :=
  to_int (uint_add (uint_mul (bx th) (dim_x blockDim)) (tx th)).

Definition Row (th : thread) : Z :=
  to_int (uint_add (uint_mul (by_ th) (dim_y blockDim)) (ty th)).

(** [int n = numAColumns;] *)
Definition n : Z := numAColumns.

(** The bound [(n - 1) / TILE_WIDTH + 1] of the loop over [t]: [n - 1] is
    an [int], the division and the addition are [unsigned]. *)
Definition tile_count : Z :=
  uint_add (uint_div (int_add n (-1)) TILE_WIDTH) 1.

(** [float Cvalue = 0.0;] *)
Definition init (th : thread) : M R unit :=
  set_Cvalue (ty th) (tx th) rzero.

(** Lines 51-65: the loads of tile [t] into the scratch tiles, up to and
    including the first barrier. *)
Definition load_tiles (t : Z) (th : thread) : M R unit :=
  let A_y_coord := Row th in
  let A_x_coord := to_int (uint_add (uint_mul t TILE_WIDTH) (tx th)) in
  (if (A_y_coord <? numCRows) && (A_x_coord <? n) then
     v <- gload th GlobalA A (int_add (int_mul A_y_coord n) A_x_coord) ;;
     sstoreA th (ty th) (tx th) v
   else sstoreA th (ty th) (tx th) rzero) ;;
  let B_y_coord := to_int (uint_add (uint_mul t TILE_WIDTH) (ty th)) in
  let B_x_coord := Col th in
  (if (B_x_coord <? numCColumns) && (B_y_coord <? n) then
     v <- gload th GlobalB B (int_add (int_mul B_y_coord numCColumns) B_x_coord) ;;
     sstoreB th (ty th) (tx th) v
   else sstoreB th (ty th) (tx th) rzero) ;;
  syncthreads th.

(** [Cvalue += ds_A[ty][i] * ds_B[i][tx];] *)
Definition accumulate_step (th : thread) (i : Z) : M R unit :=
  c <- get_Cvalue (ty th) (tx th) ;;
  a <- sloadA th (ty th) i ;;
  b <- sloadB th i (tx th) ;;
  set_Cvalue (ty th) (tx th) (radd c (rmul a b)).

(** Lines 67-70: the partial dot product over the scratch tiles, up to
    and including the second barrier. *)
Definition accumulate (th : thread) : M R unit :=
  for_each (seqZ 0 TILE_WIDTH) (accumulate_step th) ;;
  syncthreads th.

(** Lines 73-74: the guarded write of the result. *)
Definition write_back (th : thread) : M R unit :=
  if (Row th <? numCRows) && (Col th <? numCColumns) then
    c <- get_Cvalue (ty th) (tx th) ;;
    gstore th (int_add (int_mul (Row th) numCColumns) (Col th)) c
  else ret tt.

(** The threads of block [b]. *)
Definition threads (b : dim3) : list thread := Thread b <$> indices blockDim.

(** One block of the kernel: the phases between barriers, each run by
    every thread of the block. *)
Definition matrixMultiply (b : dim3) : M R unit :=
  for_each (threads b) init ;;
  for_each (seqZ 0 tile_count) (fun t =>
    for_each (threads b) (load_tiles t) ;;
    for_each (threads b) accumulate) ;;
  for_each (threads b) write_back.

(** [matrixMultiply<<<gridDim, blockDim>>>(...)]. *)
Definition launch (gridDim : dim3) : M R unit :=
  for_each (indices gridDim) matrixMultiply.

End Kernel.

(** [dim3 dimGrid((numCColumns - 1) / TILE_WIDTH + 1,
                  (numCRows - 1) / TILE_WIDTH + 1, 1);] *)
Definition dimGrid (numCRows numCColumns : Z) : dim3 :=
  Dim3 (uint_add (uint_div (int_add numCColumns (-1)) TILE_WIDTH) 1)
       (uint_add (uint_div (int_add numCRows (-1)) TILE_WIDTH) 1).

(** [dim3 dimBlock(TILE_WIDTH, TILE_WIDTH, 1);] *)
Definition dimBlock : dim3 := Dim3 TILE_WIDTH TILE_WIDTH.

(** The kernel with the parameter list of the source; it reads none of
    [numARows], [numBRows] and [numBColumns]. *)
Definition kernel {R : Type} `{Scalar R} (A B : list R)
    (numARows numAColumns numBRows numBColumns numCRows numCColumns : Z)
    (gridDim blockDim : dim3) : M R unit :=
  launch A B numAColumns numCRows numCColumns blockDim gridDim.

Definition main {R : Type} `{Scalar R} (uninit : Z -> list R) (junk : Z -> Z -> R) :=
  main_body uninit dimGrid dimBlock kernel junk.

End Tiled.


(** ** The reference product, from the specification

    The reference triple loop: for every [row] and [col], the sum over [k]
    in [0, sharedDimension) of [A[row, k] * B[k, col]], accumulated from zero
    in increasing [k], with row-major indexing
    [index = row * numColumns + col]. *)

Section Reference.
Context {R : Type} `{Scalar R}.

(** Element [(row, col)] of a row-major matrix with [numColumns] columns. *)
Definition entry (m : list R) (numColumns row col : Z) : R :=
  default rzero (elem m (row * numColumns + col)).

Arguments entry : simpl never.

Definition reference_entry (A B : list R) (sharedDimension numBColumns : Z)
    (row col : Z) : R :=
  fold_left
    (fun sum k =>
       radd sum (rmul (entry A sharedDimension row k) (entry B numBColumns k col)))
    (seqZ 0 sharedDimension) rzero.

(** The row-major matrix whose element [(row, col)] is [f row col]. *)
Definition tabulate (rows columns : Z) (f : Z -> Z -> R) : list R :=
  row ← seqZ 0 rows; col ← seqZ 0 columns; [f row col].

Definition reference (A B : list R) (numARows sharedDimension numBColumns : Z)
    : list R :=
  tabulate numARows numBColumns
    (reference_entry A B sharedDimension numBColumns).

(** The [n x n] identity matrix. *)
Definition identity (n : Z) : list R :=
  tabulate n n (fun row col => if row =? col then rone else rzero).

End Reference.

(** The launch geometry, from the specification: [ceil(extent / tileWidth)]
    blocks along an axis. *)
Definition ceil_div (a b : Z) : Z :=
  if a mod b =? 0 then a / b else a / b + 1.

(** ** Facts on machine integers *)

Lemma to_int_small z : -2147483648 <= z <= int_max -> to_int z = z.
Proof.
  unfold to_int, int_max. intros Hz.
  rewrite Z.mod_small by lia. lia.
Qed.

Lemma to_unsigned_small z : 0 <= z < 4294967296 -> to_unsigned z = z.
Proof. unfold to_unsigned. intros Hz. by rewrite Z.mod_small by lia. Qed.

Lemma int_add_small a b :
  -2147483648 <= a + b <= int_max -> int_add a b = a + b.
Proof. apply to_int_small. Qed.

Lemma int_mul_small a b :
  -2147483648 <= a * b <= int_max -> int_mul a b = a * b.
Proof. apply to_int_small. Qed.

(** [(n - 1) / TILE_WIDTH + 1] for a positive [int]. *)
Lemma extent_small n :
  1 <= n <= int_max ->
  uint_add (uint_div (int_add n (-1)) TILE_WIDTH) 1 = (n - 1) / 16 + 1.
Proof.
  unfold int_max. intros Hn. unfold uint_add, uint_div, TILE_WIDTH.
  rewrite int_add_small by (unfold int_max; lia).
  assert (0 <= (n - 1) / 16 < 134217728)
    by (split; [apply Z.div_pos | apply Z.div_lt_upper_bound]; lia).
  replace (n + -1) with (n - 1) by lia.
  rewrite !(to_unsigned_small (n - 1)), !(to_unsigned_small 16),
    !(to_unsigned_small 1) by lia.
  rewrite (to_unsigned_small ((n - 1) / 16)) by lia.
  apply to_unsigned_small. lia.
Qed.

Lemma extent_bound n :
  1 <= n <= int_max -> 1 <= (n - 1) / 16 + 1 /\ ((n - 1) / 16 + 1) * 16 <= 2147483648.
Proof.
  unfold int_max. intros Hn.
  pose proof (Z.div_mod (n - 1) 16 ltac:(lia)).
  pose proof (Z.mod_pos_bound (n - 1) 16 ltac:(lia)).
  assert (0 <= (n - 1) / 16) by (apply Z.div_pos; lia).
  lia.
Qed.

(** [b * TILE_WIDTH + t], computed in [unsigned] and converted to [int]. *)
Lemma global_coord b t :
  0 <= b -> 0 <= t < 16 -> b * 16 + t <= int_max ->
  to_int (uint_add (uint_mul b TILE_WIDTH) t) = b * 16 + t.
Proof.
  unfold int_max, TILE_WIDTH. intros Hb Ht Hbt. unfold uint_add, uint_mul.
  rewrite (to_unsigned_small b), (to_unsigned_small 16), (to_unsigned_small t) by lia.
  rewrite (to_unsigned_small (b * 16)) by lia.
  rewrite (to_unsigned_small (b * 16)) by lia.
  rewrite to_unsigned_small by lia.
  apply to_int_small. unfold int_max. lia.
Qed.

Lemma ceil_div_16 n : 0 <= n -> ceil_div n 16 = (n + 15) / 16.
Proof.
  intros Hn. unfold ceil_div.
  pose proof (Z.div_mod n 16 ltac:(lia)).
  pose proof (Z.mod_pos_bound n 16 ltac:(lia)).
  destruct (Z.eqb_spec (n mod 16) 0) as [E|E].
  - apply Z.div_unique with 15; lia.
  - apply Z.div_unique with (n mod 16 - 1); lia.
Qed.

Lemma extent_ceil n : 1 <= n -> (n - 1) / 16 + 1 = ceil_div n 16.
Proof.
  intros Hn. rewrite ceil_div_16 by lia.
  replace (n + 15) with (n - 1 + 1 * 16) by lia.
  by rewrite Z.div_add by lia.
Qed.

Lemma bind_snoc {T U} (l : list T) (i : T) (f : T -> list U) :
  (l ++ [i]) ≫= f = (l ≫= f) ++ f i.
Proof. rewrite bind_app. simpl. by rewrite app_nil_r. Qed.

(** ** Loops of the kernel monad *)

Section Loops.
Context {R : Type} `{Scalar R}.

Lemma bind_Ok {X Y} (m : M R X) (k : X -> M R Y) st x st' :
  m st = (Ok x, st') -> bind m k st = k x st'.
Proof. unfold bind. by intros ->. Qed.

Lemma bind_Fault {X Y} (m : M R X) (k : X -> M R Y) st st' :
  m st = (Fault, st') -> bind m k st = (Fault, st').
Proof. unfold bind. by intros ->. Qed.

(** A loop that keeps an invariant [I], stated on the part of the list
    already processed, runs to its end without a fault. *)
Lemma foldM_invariant {T X} (I : list T -> X -> state R -> Prop)
    (l : list T) (body : T -> X -> M R X) :
  forall pre acc st,
    I pre acc st ->
    (forall done i a st1,
        (exists rest, pre ++ l = done ++ i :: rest) ->
        I done a st1 ->
        exists a' st2, body i a st1 = (Ok a', st2) /\ I (done ++ [i]) a' st2) ->
    exists a' st', foldM l acc body st = (Ok a', st') /\ I (pre ++ l) a' st'.
Proof.
  induction l as [|i l IH]; intros pre acc st HI Hstep; simpl.
  - exists acc, st. by rewrite app_nil_r.
  - destruct (Hstep pre i acc st) as (a' & st2 & Hb & HI2); [by exists l | exact HI |].
    rewrite (bind_Ok _ _ _ _ _ Hb).
    destruct (IH (pre ++ [i]) a' st2 HI2) as (a'' & st' & Hf & HI').
    + intros done j a st1 [rest Hrest] Hd. apply Hstep; [|done].
      exists rest. by rewrite <- Hrest, <- app_assoc.
    + exists a'', st'. split; [done|]. by rewrite <- app_assoc in HI'.
Qed.

Lemma for_each_invariant {T} (I : list T -> state R -> Prop)
    (l : list T) (body : T -> M R unit) st :
  I [] st ->
  (forall done i st1,
      (exists rest, l = done ++ i :: rest) ->
      I done st1 ->
      exists st2, body i st1 = (Ok tt, st2) /\ I (done ++ [i]) st2) ->
  exists st', for_each l body st = (Ok tt, st') /\ I l st'.
Proof.
  intros HI Hstep. unfold for_each.
  destruct (foldM_invariant (fun d _ s => I d s) l (fun i _ => body i) [] tt st HI)
    as ([] & st' & Hf & HI').
  - intros done i [] st1 Hrest Hd.
    destruct (Hstep done i st1 Hrest Hd) as (st2 & Hb & HI2).
    by exists tt, st2.
  - by exists st'.
Qed.

Lemma for_each_app {T} (l1 l2 : list T) (body : T -> M R unit) st :
  for_each (l1 ++ l2) body st
  = bind (for_each l1 body) (fun _ => for_each l2 body) st.
Proof.
  unfold for_each. revert st. induction l1 as [|i l1 IH]; intros st; simpl.
  - done.
  - unfold bind in *. destruct (body i st) as [[[]|] st1]; [|done].
    apply IH.
Qed.

(** A loop nest is a loop over the flattened index list. *)
Lemma for_each_nest {T U} (l : list T) (g : T -> list U) (body : U -> M R unit) st :
  for_each l (fun i => for_each (g i) body) st = for_each (l ≫= g) body st.
Proof.
  revert st. induction l as [|i l IH]; intros st; [done|].
  change ((i :: l) ≫= g) with (g i ++ (l ≫= g)).
  rewrite for_each_app. unfold for_each at 1. simpl.
  unfold bind. fold (for_each (g i) body).
  destruct (for_each (g i) body st) as [[[]|] st1]; [|done].
  apply IH.
Qed.

Lemma for_each_fmap {T U} (f : T -> U) (l : list T) (body : U -> M R unit) st :
  for_each (f <$> l) body st = for_each l (fun i => body (f i)) st.
Proof.
  unfold for_each. revert st. induction l as [|i l IH]; intros st; simpl; [done|].
  unfold bind. destruct (body (f i) st) as [[[]|] st1]; [|done]. apply IH.
Qed.

Lemma for_each_ext {T} (l : list T) (f g : T -> M R unit) st :
  (forall i s, i ∈ l -> f i s = g i s) -> for_each l f st = for_each l g st.
Proof.
  unfold for_each. revert st. induction l as [|i l IH]; intros st Hfg; simpl; [done|].
  unfold bind. rewrite <- Hfg by left.
  destruct (f i st) as [[[]|] st1]; [|done].
  apply IH. intros j s Hj. apply Hfg. by right.
Qed.

(** A fault stops the loop. *)
Lemma for_each_fault {T} (l1 l2 : list T) (i : T) (body : T -> M R unit) st st1 st2 :
  for_each l1 body st = (Ok tt, st1) ->
  body i st1 = (Fault, st2) ->
  for_each (l1 ++ i :: l2) body st = (Fault, st2).
Proof.
  intros H1 Hi. rewrite for_each_app, (bind_Ok _ _ _ _ _ H1).
  unfold for_each. simpl. by rewrite (bind_Fault _ _ _ _ Hi).
Qed.

End Loops.

(** ** Primitive accesses *)

Section Primitives.
Context {R : Type} `{Scalar R}.

(** The state [st] with the events [evs] appended to its trace. *)
Definition log (st : state R) (evs : list event) : state R :=
  State (memC st) (ds_A st) (ds_B st) (Cvalue st) (trace st ++ evs).

Definition set_memC (st : state R) (c : list R) : state R :=
  State c (ds_A st) (ds_B st) (Cvalue st) (trace st).

Lemma log_nil st : log st [] = st.
Proof. destruct st. unfold log. simpl. by rewrite app_nil_r. Qed.

Lemma log_log st e1 e2 : log (log st e1) e2 = log st (e1 ++ e2).
Proof. unfold log. simpl. by rewrite <- app_assoc. Qed.

Lemma elem_Some (buf : list R) i :
  0 <= i < Z.of_nat (length buf) -> elem buf i = Some (default rzero (elem buf i)).
Proof.
  intros Hi. unfold elem. destruct (Z.ltb_spec i 0) as [|_]; [lia|].
  destruct (lookup_lt_is_Some_2 buf (Z.to_nat i)) as [v Hv]; [lia|].
  by rewrite Hv.
Qed.

Lemma elem_is_Some (buf : list R) i v :
  elem buf i = Some v -> 0 <= i < Z.of_nat (length buf).
Proof.
  unfold elem. destruct (Z.ltb_spec i 0) as [|Hi]; [done|].
  intros Hv. apply lookup_lt_Some in Hv. lia.
Qed.

Lemma elem_None (buf : list R) i :
  i < 0 \/ Z.of_nat (length buf) <= i -> elem buf i = None.
Proof.
  intros Hi. unfold elem. destruct (Z.ltb_spec i 0) as [|Hi0]; [done|].
  apply lookup_ge_None_2. lia.
Qed.

Lemma gload_Ok who s (buf : list R) i v st :
  elem buf i = Some v -> gload who s buf i st = (Ok v, log st [(who, Load s i)]).
Proof. unfold gload. simpl. by intros ->. Qed.

Lemma gload_Fault who s (buf : list R) i st :
  elem buf i = None -> gload who s buf i st = (Fault, log st [(who, Load s i)]).
Proof. unfold gload. simpl. by intros ->. Qed.

Lemma gstore_Ok who i v st :
  0 <= i < Z.of_nat (length (memC st)) ->
  gstore who i v st
  = (Ok tt, set_memC (log st [(who, Store GlobalC i)]) (<[Z.to_nat i := v]> (memC st))).
Proof. intros Hi. unfold gstore. simpl. by rewrite (elem_Some _ _ Hi). Qed.

End Primitives.

(** ** Well-formed operands *)

(** A buffer holds a [rows x columns] matrix: the extents are positive,
    the element count is an [int], and the buffer is long enough. *)
Definition holds {R : Type} (buf : list R) (rows columns : Z) : bool :=
  (1 <=? rows) && (1 <=? columns) && (rows * columns <=? int_max)
  && (rows * columns <=? Z.of_nat (length buf)).

Lemma holds_spec {R : Type} (buf : list R) rows columns :
  holds buf rows columns = true ->
  1 <= rows /\ 1 <= columns /\ rows * columns <= int_max
  /\ rows * columns <= Z.of_nat (length buf).
Proof. unfold holds. rewrite !andb_true_iff. lia. Qed.

(** Row-major offsets of distinct coordinates are distinct, and every
    offset below [rows * columns] is the offset of a coordinate. *)
Lemma offset_bound rows columns r c :
  0 <= r < rows -> 0 <= c < columns -> 0 <= r * columns + c < rows * columns.
Proof. nia. Qed.

Lemma offset_inj columns r c r' c' :
  0 <= c < columns -> 0 <= c' < columns ->
  r * columns + c = r' * columns + c' -> r = r' /\ c = c'.
Proof.
  intros Hc Hc' E.
  assert (r = r') as ->; [|lia].
  destruct (Z.lt_trichotomy r r') as [Hlt|[->|Hlt]]; [|done|]; exfalso; nia.
Qed.

(** ** The naive kernel, thread by thread *)

Section SimpleThread.
Context {R : Type} `{Scalar R}.
Variables (A B : list R).
Variables (numAColumns numBColumns numCRows numCColumns : Z).
Variable (blockDim : dim3).

Abbreviation Row := (Simple.Row blockDim).
Abbreviation Col := (Simple.Col blockDim).
Abbreviation kernel :=
  (Simple.matrixMultiply A B numAColumns numBColumns numCRows numCColumns blockDim).

(** The accesses of iteration [i] of the dot-product loop of thread [th]. *)
Definition dot_events (th : thread) (i : Z) : list event :=
  [(th, Load GlobalA (Row th * numAColumns + i));
   (th, Load GlobalB (Col th + i * numBColumns))].

(** The accesses of an in-bounds thread, in program order. *)
Definition thread_events (th : thread) : list event :=
  (seqZ 0 numAColumns ≫= dot_events th)
  ++ [(th, Store GlobalC (Row th * numCColumns + Col th))].

(** A thread outside of the output does nothing at all. *)
Lemma naive_out_of_bounds th st :
  (Row th <? numCRows) && (Col th <? numCColumns) = false ->
  kernel th st = (Ok tt, st).
Proof. unfold Simple.matrixMultiply. by intros ->. Qed.

Variable numARows numBRows : Z.
Hypothesis HA : holds A numARows numAColumns = true.
Hypothesis HB : holds B numBRows numBColumns = true.
Hypothesis Hshared : numAColumns = numBRows.
Hypothesis HCrows : numCRows = numARows.
Hypothesis HCcols : numCColumns = numBColumns.

Lemma dot_step_Ok th i acc st :
  0 <= Row th < numCRows -> 0 <= Col th < numCColumns -> 0 <= i < numAColumns ->
  Simple.dot_step A B numAColumns numBColumns blockDim th i acc st
  = (Ok (radd acc (rmul (entry A numAColumns (Row th) i)
                        (entry B numBColumns i (Col th)))),
     log st (dot_events th i)).
Proof.
  intros Hr Hc Hi. unfold Simple.dot_step.
  apply holds_spec in HA as (? & ? & ? & ?).
  apply holds_spec in HB as (? & ? & ? & ?).
  pose proof (offset_bound numARows numAColumns (Row th) i ltac:(lia) ltac:(lia)).
  pose proof (offset_bound numBRows numBColumns i (Col th) ltac:(lia) ltac:(lia)).
  rewrite (int_mul_small (Row th)) by (unfold int_max in *; nia).
  rewrite (int_mul_small i) by (unfold int_max in *; nia).
  rewrite !int_add_small by (unfold int_max in *; lia).
  erewrite bind_Ok; [|apply gload_Ok, elem_Some; lia].
  erewrite bind_Ok; [|apply gload_Ok, elem_Some; lia].
  unfold ret, entry. rewrite log_log. simpl.
  by replace (i * numBColumns + Col th) with (Col th + i * numBColumns) by lia.
Qed.

(** A thread inside the output reads one row of [A] and one column of
    [B], and writes their product to its own cell of [C]. *)
Lemma naive_in_bounds th st :
  0 <= Row th < numCRows -> 0 <= Col th < numCColumns ->
  numCRows * numCColumns <= int_max ->
  numCRows * numCColumns <= Z.of_nat (length (memC st)) ->
  kernel th st
  = (Ok tt,
     set_memC (log st (thread_events th))
       (<[Z.to_nat (Row th * numCColumns + Col th)
          := reference_entry A B numAColumns numBColumns (Row th) (Col th)]>
          (memC st))).
Proof.
  intros Hr Hc HCint HClen. unfold Simple.matrixMultiply.
  replace ((Row th <? numCRows) && (Col th <? numCColumns)) with true
    by (symmetry; apply andb_true_iff; lia).
  destruct (foldM_invariant
    (fun done acc s =>
       acc = fold_left (fun sum k =>
               radd sum (rmul (entry A numAColumns (Row th) k)
                              (entry B numBColumns k (Col th)))) done rzero
       /\ s = log st (done ≫= dot_events th))
    (seqZ 0 numAColumns)
    (Simple.dot_step A B numAColumns numBColumns blockDim th)
    [] rzero st) as (acc & st1 & Hrun & -> & ->).
  - split; [done|]. by rewrite log_nil.
  - intros done i a s1 [rest Hrest] [-> ->].
    assert (i ∈ seqZ 0 numAColumns) as Hi
      by (simpl in Hrest; rewrite Hrest; apply elem_of_app; right; left).
    apply elem_of_seqZ in Hi.
    eexists _, _. split; [apply dot_step_Ok; lia|].
    split.
    + by rewrite fold_left_app.
    + by rewrite log_log, bind_snoc.
  - simpl in Hrun. rewrite (bind_Ok _ _ _ _ _ Hrun).
    pose proof (offset_bound numCRows numCColumns (Row th) (Col th) Hr Hc).
    rewrite int_mul_small by (unfold int_max in *; nia).
    rewrite int_add_small by (unfold int_max in *; lia).
    rewrite gstore_Ok by (simpl; lia).
    unfold thread_events. f_equal. unfold set_memC. simpl.
    by rewrite <- app_assoc.
Qed.

End SimpleThread.

(** ** Grids and blocks *)

Lemma elem_of_indices d i :
  i ∈ indices d <-> (0 <= dim_x i < dim_x d) /\ (0 <= dim_y i < dim_y d).
Proof.
  unfold indices. rewrite list_elem_of_bind. split.
  - intros (y & Hi & Hy). apply list_elem_of_bind in Hi as (x & Hi & Hx).
    apply list_elem_of_singleton in Hi as ->.
    apply elem_of_seqZ in Hx, Hy. simpl. lia.
  - intros [Hx Hy]. exists (dim_y i). split; [|apply elem_of_seqZ; lia].
    apply list_elem_of_bind. exists (dim_x i). split; [|apply elem_of_seqZ; lia].
    destruct i. simpl. apply list_elem_of_singleton. done.
Qed.

Lemma NoDup_indices d : NoDup (indices d).
Proof.
  unfold indices. apply NoDup_bind; [| |apply NoDup_seqZ].
  - intros y1 y2 i _ _ H1 H2.
    apply list_elem_of_bind in H1 as (x1 & H1 & _).
    apply list_elem_of_bind in H2 as (x2 & H2 & _).
    apply list_elem_of_singleton in H1, H2. congruence.
  - intros y _. apply NoDup_bind; [| |apply NoDup_seqZ].
    + intros x1 x2 i _ _ H1 H2. apply list_elem_of_singleton in H1, H2. congruence.
    + intros x _. apply NoDup_singleton.
Qed.

(** The threads of a launch, block after block. *)
Definition launch_threads (gridDim blockDim : dim3) : list thread :=
  b ← indices gridDim; Thread b <$> indices blockDim.

Lemma elem_of_launch_threads gridDim blockDim th :
  th ∈ launch_threads gridDim blockDim
  <-> blockIdx th ∈ indices gridDim /\ threadIdx th ∈ indices blockDim.
Proof.
  unfold launch_threads. rewrite list_elem_of_bind. split.
  - intros (b & Hth & Hb). apply list_elem_of_fmap in Hth as (t & -> & Ht). done.
  - intros [Hb Ht]. exists (blockIdx th). split; [|done].
    apply list_elem_of_fmap. exists (threadIdx th). by destruct th.
Qed.

(** ** Filling the output buffer

    [fills ths C C']: the threads [ths] that are in bounds ([inb]) have each
    written their value [val] at their offset [idx] of [C], giving [C'];
    nothing else has changed. *)

Section Fill.
Context {R : Type} `{Scalar R}.
Variables (inb : thread -> bool) (idx : thread -> Z) (val : thread -> R).

Definition fills (ths : list thread) (C C' : list R) : Prop :=
  length C' = length C
  /\ (forall th, th ∈ ths -> inb th = true -> elem C' (idx th) = Some (val th))
  /\ (forall i, (forall th, th ∈ ths -> inb th = true -> idx th <> i) ->
                elem C' i = elem C i).

Lemma elem_insert (C : list R) i j v :
  0 <= i < Z.of_nat (length C) ->
  elem (<[Z.to_nat i := v]> C) j = if j =? i then Some v else elem C j.
Proof.
  intros Hi. unfold elem.
  destruct (Z.eqb_spec j i) as [->|Hne].
  - destruct (Z.ltb_spec i 0); [lia|]. apply list_lookup_insert_eq. lia.
  - destruct (Z.ltb_spec j 0); [done|]. apply list_lookup_insert_ne. lia.
Qed.

Lemma fills_nil C : fills [] C C.
Proof.
  split; [done|]. split; [|done]. intros th Hth. by apply elem_of_nil in Hth.
Qed.

(** One thread more: a thread in bounds writes its cell, a thread out of
    bounds writes nothing. *)
Lemma fills_write th C :
  inb th = true -> 0 <= idx th < Z.of_nat (length C) ->
  fills [th] C (<[Z.to_nat (idx th) := val th]> C).
Proof.
  intros Hin Hi. split; [apply length_insert|]. split.
  - intros th' Hth' _. apply list_elem_of_singleton in Hth' as ->.
    rewrite elem_insert by done. by rewrite Z.eqb_refl.
  - intros i Hother. rewrite elem_insert by done.
    destruct (Z.eqb_spec i (idx th)) as [->|]; [|done].
    exfalso. by apply (Hother th); [apply list_elem_of_singleton|..].
Qed.

Lemma fills_skip th C : inb th = false -> fills [th] C C.
Proof.
  intros Hout. split; [done|]. split; [|done].
  intros th' Hth'. apply list_elem_of_singleton in Hth' as ->. congruence.
Qed.

(** Threads with the same offset write the same value. *)
Variable launched : thread -> Prop.
Hypothesis val_idx :
  forall th th', launched th -> launched th' ->
    inb th = true -> inb th' = true -> idx th = idx th' -> val th = val th'.

Lemma fills_app l1 l2 C C1 C2 :
  (forall th, th ∈ l1 ++ l2 -> launched th) ->
  fills l1 C C1 -> fills l2 C1 C2 -> fills (l1 ++ l2) C C2.
Proof.
  intros Hl (Hlen1 & Hw1 & Hf1) (Hlen2 & Hw2 & Hf2).
  split; [congruence|]. split.
  - intros th Hth Hin. apply elem_of_app in Hth as [Hth|Hth]; [|by apply Hw2].
    destruct (decide (Exists (fun th' => inb th' = true /\ idx th' = idx th) l2))
      as [Hex|Hnex].
    + apply Exists_exists in Hex as (th' & Hth' & Hin' & Hidx).
      rewrite <- Hidx, (Hw2 th' Hth' Hin'). f_equal.
      apply val_idx; [apply Hl, elem_of_app; by right
                     |apply Hl, elem_of_app; by left|done..].
    + rewrite Hf2; [by apply Hw1|].
      intros th' Hth' Hin' Hidx. apply Hnex, Exists_exists. by exists th'.
  - intros i Hother. rewrite Hf2, Hf1; [done|..].
    + intros th Hth. apply Hother, elem_of_app. by left.
    + intros th Hth. apply Hother, elem_of_app. by right.
Qed.

End Fill.

(** ** Launch geometry *)

Lemma coord_in_grid n b t :
  1 <= n <= int_max -> 0 <= b < (n - 1) / 16 + 1 -> 0 <= t < 16 ->
  to_int (uint_add (uint_mul b TILE_WIDTH) t) = b * 16 + t /\ 0 <= b * 16 + t.
Proof.
  intros Hn Hb Ht. pose proof (extent_bound n Hn).
  split; [|lia]. apply global_coord; unfold int_max in *; lia.
Qed.

Lemma coord_cover n r :
  0 <= r < n ->
  0 <= r / 16 < (n - 1) / 16 + 1 /\ 0 <= r mod 16 < 16 /\ r / 16 * 16 + r mod 16 = r.
Proof.
  intros Hr.
  pose proof (Z.div_mod r 16 ltac:(lia)).
  pose proof (Z.mod_pos_bound r 16 ltac:(lia)).
  assert (0 <= r / 16) by (apply Z.div_pos; lia).
  assert (r / 16 <= (n - 1) / 16) by (apply Z.div_le_mono; lia).
  lia.
Qed.

Lemma simple_dimGrid numCRows numCColumns :
  1 <= numCRows <= int_max -> 1 <= numCColumns <= int_max ->
  Simple.dimGrid numCRows numCColumns
  = Dim3 ((numCRows - 1) / 16 + 1) ((numCColumns - 1) / 16 + 1).
Proof. intros Hr Hc. unfold Simple.dimGrid. by rewrite !extent_small. Qed.

Lemma tiled_dimGrid numCRows numCColumns :
  1 <= numCRows <= int_max -> 1 <= numCColumns <= int_max ->
  Tiled.dimGrid numCRows numCColumns
  = Dim3 ((numCColumns - 1) / 16 + 1) ((numCRows - 1) / 16 + 1).
Proof. intros Hr Hc. unfold Tiled.dimGrid. by rewrite !extent_small. Qed.

(** The coordinates of the threads that [main] launches. *)
Lemma simple_coords numCRows numCColumns th :
  1 <= numCRows <= int_max -> 1 <= numCColumns <= int_max ->
  th ∈ launch_threads (Simple.dimGrid numCRows numCColumns) Simple.dimBlock ->
  Simple.Row Simple.dimBlock th
    = dim_x (blockIdx th) * 16 + dim_x (threadIdx th)
  /\ Simple.Col Simple.dimBlock th
    = dim_y (blockIdx th) * 16 + dim_y (threadIdx th)
  /\ 0 <= Simple.Row Simple.dimBlock th /\ 0 <= Simple.Col Simple.dimBlock th.
Proof.
  intros Hr Hc Hth. rewrite simple_dimGrid in Hth by done.
  apply elem_of_launch_threads in Hth as [Hb Ht].
  apply elem_of_indices in Hb, Ht. simpl in Hb, Ht.
  unfold Simple.Row, Simple.Col. simpl.
  destruct (coord_in_grid numCRows (dim_x (blockIdx th)) (dim_x (threadIdx th)))
    as [-> ?]; [done| lia | unfold TILE_WIDTH in *; lia |].
  destruct (coord_in_grid numCColumns (dim_y (blockIdx th)) (dim_y (threadIdx th)))
    as [-> ?]; [done| lia | unfold TILE_WIDTH in *; lia |].
  done.
Qed.

Lemma tiled_coords numCRows numCColumns th :
  1 <= numCRows <= int_max -> 1 <= numCColumns <= int_max ->
  th ∈ launch_threads (Tiled.dimGrid numCRows numCColumns) Tiled.dimBlock ->
  Tiled.Row Tiled.dimBlock th
    = dim_y (blockIdx th) * 16 + dim_y (threadIdx th)
  /\ Tiled.Col Tiled.dimBlock th
    = dim_x (blockIdx th) * 16 + dim_x (threadIdx th)
  /\ 0 <= Tiled.Row Tiled.dimBlock th /\ 0 <= Tiled.Col Tiled.dimBlock th.
Proof.
  intros Hr Hc Hth. rewrite tiled_dimGrid in Hth by done.
  apply elem_of_launch_threads in Hth as [Hb Ht].
  apply elem_of_indices in Hb, Ht. simpl in Hb, Ht.
  unfold Tiled.Row, Tiled.Col, Tiled.bx, Tiled.by_, Tiled.tx, Tiled.ty. simpl.
  destruct (coord_in_grid numCRows (dim_y (blockIdx th)) (dim_y (threadIdx th)))
    as [-> ?]; [done| lia | unfold TILE_WIDTH in *; lia |].
  destruct (coord_in_grid numCColumns (dim_x (blockIdx th)) (dim_x (threadIdx th)))
    as [-> ?]; [done| lia | unfold TILE_WIDTH in *; lia |].
  done.
Qed.

(** Every output coordinate has its thread. *)
Lemma simple_cover numCRows numCColumns r c :
  1 <= numCRows <= int_max -> 1 <= numCColumns <= int_max ->
  0 <= r < numCRows -> 0 <= c < numCColumns ->
  exists th,
    th ∈ launch_threads (Simple.dimGrid numCRows numCColumns) Simple.dimBlock
    /\ Simple.Row Simple.dimBlock th = r /\ Simple.Col Simple.dimBlock th = c.
Proof.
  intros HR HC Hr Hc.
  destruct (coord_cover numCRows r Hr) as (? & ? & ?).
  destruct (coord_cover numCColumns c Hc) as (? & ? & ?).
  set (th := Thread (Dim3 (r / 16) (c / 16)) (Dim3 (r mod 16) (c mod 16))).
  assert (th ∈ launch_threads (Simple.dimGrid numCRows numCColumns) Simple.dimBlock)
    as Hth.
  { rewrite simple_dimGrid by done. apply elem_of_launch_threads.
    split; apply elem_of_indices; simpl; unfold TILE_WIDTH; lia. }
  exists th. split; [done|].
  destruct (simple_coords _ _ _ HR HC Hth) as (-> & -> & _). simpl. lia.
Qed.

Lemma tiled_cover numCRows numCColumns r c :
  1 <= numCRows <= int_max -> 1 <= numCColumns <= int_max ->
  0 <= r < numCRows -> 0 <= c < numCColumns ->
  exists th,
    th ∈ launch_threads (Tiled.dimGrid numCRows numCColumns) Tiled.dimBlock
    /\ Tiled.Row Tiled.dimBlock th = r /\ Tiled.Col Tiled.dimBlock th = c.
Proof.
  intros HR HC Hr Hc.
  destruct (coord_cover numCRows r Hr) as (? & ? & ?).
  destruct (coord_cover numCColumns c Hc) as (? & ? & ?).
  set (th := Thread (Dim3 (c / 16) (r / 16)) (Dim3 (c mod 16) (r mod 16))).
  assert (th ∈ launch_threads (Tiled.dimGrid numCRows numCColumns) Tiled.dimBlock)
    as Hth.
  { rewrite tiled_dimGrid by done. apply elem_of_launch_threads.
    split; apply elem_of_indices; simpl; unfold TILE_WIDTH; lia. }
  exists th. split; [done|].
  destruct (tiled_coords _ _ _ HR HC Hth) as (-> & -> & _). simpl. lia.
Qed.

(** ** The naive kernel, launched *)

Section SimpleLaunch.
Context {R : Type} `{Scalar R}.
Variables (A B : list R).
Variables (numARows numAColumns numBRows numBColumns numCRows numCColumns : Z).
Hypothesis HA : holds A numARows numAColumns = true.
Hypothesis HB : holds B numBRows numBColumns = true.
Hypothesis Hshared : numAColumns = numBRows.
Hypothesis HCrows : numCRows = numARows.
Hypothesis HCcols : numCColumns = numBColumns.

Definition simple_inb (th : thread) : bool :=
  (Simple.Row Simple.dimBlock th <? numCRows)
  && (Simple.Col Simple.dimBlock th <? numCColumns).

Definition simple_idx (th : thread) : Z :=
  Simple.Row Simple.dimBlock th * numCColumns + Simple.Col Simple.dimBlock th.

Definition simple_val (th : thread) : R :=
  reference_entry A B numAColumns numBColumns
    (Simple.Row Simple.dimBlock th) (Simple.Col Simple.dimBlock th).

Lemma simple_launch_flat gridDim st :
  Simple.launch A B numAColumns numBColumns numCRows numCColumns
    Simple.dimBlock gridDim st
  = for_each (launch_threads gridDim Simple.dimBlock)
      (Simple.matrixMultiply A B numAColumns numBColumns numCRows numCColumns
         Simple.dimBlock) st.
Proof.
  unfold Simple.launch, launch_threads. rewrite <- for_each_nest.
  apply for_each_ext. intros b s _. by rewrite for_each_fmap.
Qed.

Lemma simple_launch_fills st :
  holds (memC st) numCRows numCColumns = true ->
  exists st',
    Simple.launch A B numAColumns numBColumns numCRows numCColumns
      Simple.dimBlock (Simple.dimGrid numCRows numCColumns) st = (Ok tt, st')
    /\ fills simple_inb simple_idx simple_val
         (launch_threads (Simple.dimGrid numCRows numCColumns) Simple.dimBlock)
         (memC st) (memC st').
Proof.
  intros HC. apply holds_spec in HC as (HCr & HCc & HCint & HClen).
  assert (1 <= numCRows <= int_max /\ 1 <= numCColumns <= int_max) as [HR HCo]
    by (unfold int_max in *; nia).
  set (ths := launch_threads (Simple.dimGrid numCRows numCColumns) Simple.dimBlock).
  assert (forall th th', th ∈ ths -> th' ∈ ths ->
            simple_inb th = true -> simple_inb th' = true ->
            simple_idx th = simple_idx th' -> simple_val th = simple_val th')
    as Hval.
  { intros th th' Hth Hth' Hin Hin' Hidx.
    destruct (simple_coords _ _ _ HR HCo Hth) as (_ & _ & ? & ?).
    destruct (simple_coords _ _ _ HR HCo Hth') as (_ & _ & ? & ?).
    unfold simple_inb in Hin, Hin'. apply andb_true_iff in Hin, Hin'.
    unfold simple_idx in Hidx. unfold simple_val.
    apply offset_inj in Hidx as [-> ->]; [done|lia..]. }
  rewrite simple_launch_flat.
  apply (for_each_invariant
           (fun done s => fills simple_inb simple_idx simple_val done
                            (memC st) (memC s))).
  - apply fills_nil.
  - intros done th s [rest Hrest] Hdone.
    assert (th ∈ ths) as Hth by (rewrite Hrest; apply elem_of_app; right; left).
    destruct (simple_coords _ _ _ HR HCo Hth) as (_ & _ & ? & ?).
    assert (length (memC s) = length (memC st)) as Hlen by apply Hdone.
    destruct (simple_inb th) eqn:Hin.
    + unfold simple_inb in Hin. apply andb_true_iff in Hin.
      eexists. split.
      * eapply naive_in_bounds; eauto; lia.
      * simpl. eapply fills_app with (launched := fun t => t ∈ ths); eauto.
        -- intros t Ht. rewrite Hrest. apply elem_of_app in Ht as [Ht|Ht].
           ++ apply elem_of_app. by left.
           ++ apply list_elem_of_singleton in Ht as ->.
              apply elem_of_app. right. left.
        -- apply (fills_write simple_inb simple_idx simple_val th).
           ++ unfold simple_inb. apply andb_true_iff. lia.
           ++ unfold simple_idx.
              pose proof (offset_bound numCRows numCColumns
                            (Simple.Row Simple.dimBlock th)
                            (Simple.Col Simple.dimBlock th)). lia.
    + exists s. split; [by apply naive_out_of_bounds|].
      eapply fills_app with (launched := fun t => t ∈ ths); eauto.
      * intros t Ht. rewrite Hrest. apply elem_of_app in Ht as [Ht|Ht].
        -- apply elem_of_app. by left.
        -- apply list_elem_of_singleton in Ht as ->.
           apply elem_of_app. right. left.
      * by apply fills_skip.
Qed.

(** The launch leaves in every cell of the output the reference sum. *)
Lemma simple_launch_reference st :
  holds (memC st) numCRows numCColumns = true ->
  exists st',
    Simple.launch A B numAColumns numBColumns numCRows numCColumns
      Simple.dimBlock (Simple.dimGrid numCRows numCColumns) st = (Ok tt, st')
    /\ length (memC st') = length (memC st)
    /\ (forall row col, 0 <= row < numCRows -> 0 <= col < numCColumns ->
          elem (memC st') (row * numCColumns + col)
          = Some (reference_entry A B numAColumns numBColumns row col))
    /\ (forall i, numCRows * numCColumns <= i -> elem (memC st') i = elem (memC st) i).
Proof.
  intros HC. destruct (simple_launch_fills st HC) as (st' & Hrun & Hlen & Hw & Hf).
  apply holds_spec in HC as (HCr & HCc & HCint & HClen).
  assert (1 <= numCRows <= int_max /\ 1 <= numCColumns <= int_max) as [HR HCo]
    by (unfold int_max in *; nia).
  exists st'. split; [done|]. split; [done|]. split.
  - intros row col Hrow Hcol.
    destruct (simple_cover _ _ row col HR HCo Hrow Hcol) as (th & Hth & Hr & Hc).
    specialize (Hw th Hth). unfold simple_inb, simple_idx, simple_val in Hw.
    rewrite Hr, Hc in Hw. apply Hw, andb_true_iff. lia.
  - intros i Hi. apply Hf. intros th Hth Hin.
    destruct (simple_coords _ _ _ HR HCo Hth) as (_ & _ & ? & ?).
    unfold simple_inb in Hin. apply andb_true_iff in Hin. unfold simple_idx.
    pose proof (offset_bound numCRows numCColumns
                  (Simple.Row Simple.dimBlock th) (Simple.Col Simple.dimBlock th)).
    lia.
Qed.

End SimpleLaunch.

(** ** The tiled kernel, phase by phase *)

Section TiledPhases.
Context {R : Type} `{Scalar R}.
Variables (A B : list R).
Variables (numARows numAColumns numBRows numBColumns numCRows numCColumns : Z).
Hypothesis HA : holds A numARows numAColumns = true.
Hypothesis HB : holds B numBRows numBColumns = true.
Hypothesis Hshared : numAColumns = numBRows.
Hypothesis HCrows : numCRows = numARows.
Hypothesis HCcols : numCColumns = numBColumns.

Abbreviation Row := (Tiled.Row Tiled.dimBlock).
Abbreviation Col := (Tiled.Col Tiled.dimBlock).
Abbreviation tx := Tiled.tx.
Abbreviation ty := Tiled.ty.
Abbreviation grid := (Tiled.dimGrid numCRows numCColumns).
Abbreviation tiles := (Tiled.tile_count numAColumns).

(** What thread [th] stores into [ds_A[ty][tx]] and [ds_B[ty][tx]] for
    tile [t]: the operand element, or zero outside of the operand. *)
Definition loadA (t : Z) (th : thread) : R :=
  if (Row th <? numCRows) && (t * 16 + tx th <? numAColumns)
  then entry A numAColumns (Row th) (t * 16 + tx th)
  else rzero.

Definition loadB (t : Z) (th : thread) : R :=
  if (Col th <? numCColumns) && (t * 16 + ty th <? numAColumns)
  then entry B numCColumns (t * 16 + ty th) (Col th)
  else rzero.

(** The accesses of thread [th] in the load phase of tile [t]. *)
Definition load_events (t : Z) (th : thread) : list event :=
  (if (Row th <? numCRows) && (t * 16 + tx th <? numAColumns)
   then [(th, Load GlobalA (Row th * numAColumns + (t * 16 + tx th)))]
   else [])
  ++ [(th, Store SharedA (ty th * TILE_WIDTH + tx th))]
  ++ (if (Col th <? numCColumns) && (t * 16 + ty th <? numAColumns)
      then [(th, Load GlobalB ((t * 16 + ty th) * numCColumns + Col th))]
      else [])
  ++ [(th, Store SharedB (ty th * TILE_WIDTH + tx th)); (th, Barrier)].

(** The accesses of thread [th] in an accumulation phase. *)
Definition accumulate_step_events (th : thread) (i : Z) : list event :=
  [(th, Load SharedA (ty th * TILE_WIDTH + i));
   (th, Load SharedB (i * TILE_WIDTH + tx th))].

Definition accumulate_events (th : thread) : list event :=
  (seqZ 0 TILE_WIDTH ≫= accumulate_step_events th) ++ [(th, Barrier)].

(** The accesses of thread [th] in the write-back phase. *)
Definition write_events (th : thread) : list event :=
  if (Row th <? numCRows) && (Col th <? numCColumns)
  then [(th, Store GlobalC (Row th * numCColumns + Col th))]
  else [].

Lemma dims_facts :
  1 <= numCRows <= int_max /\ 1 <= numCColumns <= int_max
  /\ 1 <= numAColumns <= int_max
  /\ numCRows * numAColumns <= Z.of_nat (length A)
  /\ numAColumns * numCColumns <= Z.of_nat (length B)
  /\ numCRows * numAColumns <= int_max
  /\ numAColumns * numCColumns <= int_max.
Proof.
  apply holds_spec in HA as (? & ? & ? & ?).
  apply holds_spec in HB as (? & ? & ? & ?).
  subst numCRows numCColumns numBRows. unfold int_max in *.
  repeat split; try lia; nia.
Qed.

Lemma tiles_eq : tiles = (numAColumns - 1) / 16 + 1.
Proof.
  destruct dims_facts as (_ & _ & ? & _).
  unfold Tiled.tile_count, Tiled.n. by apply extent_small.
Qed.

Lemma thread_in_launch b th :
  b ∈ indices grid -> th ∈ Tiled.threads Tiled.dimBlock b ->
  th ∈ launch_threads grid Tiled.dimBlock.
Proof.
  intros Hb Hth. unfold Tiled.threads in Hth.
  apply list_elem_of_fmap in Hth as (t & -> & Ht).
  by apply elem_of_launch_threads.
Qed.

Lemma thread_facts th :
  th ∈ launch_threads grid Tiled.dimBlock ->
  0 <= Row th /\ 0 <= Col th /\ 0 <= tx th < 16 /\ 0 <= ty th < 16
  /\ Row th = dim_y (blockIdx th) * 16 + ty th
  /\ Col th = dim_x (blockIdx th) * 16 + tx th.
Proof.
  intros Hth. destruct dims_facts as (HR & HC & _).
  destruct (tiled_coords _ _ _ HR HC Hth) as (Hr & Hc & ? & ?).
  apply elem_of_launch_threads in Hth as [_ Ht].
  apply elem_of_indices in Ht. simpl in Ht. unfold TILE_WIDTH in Ht.
  unfold Tiled.tx, Tiled.ty. rewrite Hr, Hc. repeat split; lia.
Qed.

Lemma in_tile_true y x : 0 <= y < 16 -> 0 <= x < 16 -> in_tile y x = true.
Proof.
  intros Hy Hx. unfold in_tile, TILE_WIDTH. repeat (apply andb_true_iff; split); lia.
Qed.

Lemma sstoreA_Ok who y x v (st : state R) :
  in_tile y x = true ->
  sstoreA who y x v st
  = (Ok tt, State (memC st) (upd2 (ds_A st) y x v) (ds_B st) (Cvalue st)
                  (trace st ++ [(who, Store SharedA (y * TILE_WIDTH + x))])).
Proof. unfold sstoreA. simpl. by intros ->. Qed.

Lemma sstoreB_Ok who y x v (st : state R) :
  in_tile y x = true ->
  sstoreB who y x v st
  = (Ok tt, State (memC st) (ds_A st) (upd2 (ds_B st) y x v) (Cvalue st)
                  (trace st ++ [(who, Store SharedB (y * TILE_WIDTH + x))])).
Proof. unfold sstoreB. simpl. by intros ->. Qed.

(** The load phase of one thread. *)
Lemma load_tiles_Ok t th st :
  th ∈ launch_threads grid Tiled.dimBlock -> 0 <= t < tiles ->
  Tiled.load_tiles A B numAColumns numCRows numCColumns Tiled.dimBlock t th st
  = (Ok tt,
     State (memC st)
           (upd2 (ds_A st) (ty th) (tx th) (loadA t th))
           (upd2 (ds_B st) (ty th) (tx th) (loadB t th))
           (Cvalue st)
           (trace st ++ load_events t th)).
Proof.
  intros Hth Ht. rewrite tiles_eq in Ht.
  destruct dims_facts as (HR & HC & Hn & HlenA & HlenB & HintA & HintB).
  destruct (thread_facts th Hth) as (Hr0 & Hc0 & Htx & Hty & _).
  unfold Tiled.load_tiles, Tiled.n, loadA, loadB, load_events.
  destruct (coord_in_grid numAColumns t (tx th) Hn Ht Htx) as [-> _].
  destruct (coord_in_grid numAColumns t (ty th) Hn Ht Hty) as [-> _].
  fold (Row th) (Col th) (tx th) (ty th).
  pose proof (in_tile_true (ty th) (tx th) Hty Htx) as Htile.
  assert ((Row th <? numCRows) && (t * 16 + tx th <? numAColumns) = true ->
          int_add (int_mul (Row th) numAColumns) (t * 16 + tx th)
          = Row th * numAColumns + (t * 16 + tx th)
          /\ elem A (Row th * numAColumns + (t * 16 + tx th))
             = Some (entry A numAColumns (Row th) (t * 16 + tx th))) as HeA.
  { intros E. apply andb_true_iff in E.
    pose proof (offset_bound numCRows numAColumns (Row th) (t * 16 + tx th)
                  ltac:(lia) ltac:(lia)).
    rewrite int_mul_small by (unfold int_max in *; nia).
    rewrite int_add_small by (unfold int_max in *; lia).
    split; [done|]. apply elem_Some. lia. }
  assert ((Col th <? numCColumns) && (t * 16 + ty th <? numAColumns) = true ->
          int_add (int_mul (t * 16 + ty th) numCColumns) (Col th)
          = (t * 16 + ty th) * numCColumns + Col th
          /\ elem B ((t * 16 + ty th) * numCColumns + Col th)
             = Some (entry B numCColumns (t * 16 + ty th) (Col th))) as HeB.
  { intros E. apply andb_true_iff in E.
    pose proof (offset_bound numAColumns numCColumns (t * 16 + ty th) (Col th)
                  ltac:(lia) ltac:(lia)).
    rewrite int_mul_small by (unfold int_max in *; nia).
    rewrite int_add_small by (unfold int_max in *; lia).
    split; [done|]. apply elem_Some. lia. }
  destruct ((Row th <? numCRows) && (t * 16 + tx th <? numAColumns));
    [destruct (HeA eq_refl) as [-> HA']|clear HeA];
    (destruct ((Col th <? numCColumns) && (t * 16 + ty th <? numAColumns));
     [destruct (HeB eq_refl) as [-> HB']|clear HeB]).
  all: unfold bind; rewrite ?(gload_Ok _ _ _ _ _ _ HA'); unfold log; simpl.
  all: rewrite sstoreA_Ok by done; simpl.
  all: rewrite ?(gload_Ok _ _ _ _ _ _ HB'); unfold log; simpl.
  all: rewrite sstoreB_Ok by done; simpl.
  all: unfold syncthreads, emit; simpl.
  all: by rewrite <- ?app_assoc.
Qed.

(** The partial dot product of one tile, from the scratch tiles. *)
Definition tile_sum (a b : Z -> Z -> R) (y x : Z) (c : R) : R :=
  fold_left (fun c i => radd c (rmul (a y i) (b i x))) (seqZ 0 TILE_WIDTH) c.

Lemma accumulate_step_Ok th i st :
  0 <= tx th < 16 -> 0 <= ty th < 16 -> 0 <= i < 16 ->
  Tiled.accumulate_step th i st
  = (Ok tt,
     State (memC st) (ds_A st) (ds_B st)
           (upd2 (Cvalue st) (ty th) (tx th)
                 (radd (Cvalue st (ty th) (tx th))
                       (rmul (ds_A st (ty th) i) (ds_B st i (tx th)))))
           (trace st ++ accumulate_step_events th i)).
Proof.
  intros Htx Hty Hi. unfold Tiled.accumulate_step, accumulate_step_events.
  unfold bind, get_Cvalue, sloadA, sloadB, set_Cvalue, emit. simpl.
  fold (tx th) (ty th).
  rewrite (in_tile_true (ty th) i), (in_tile_true i (tx th)) by done. simpl.
  by rewrite <- app_assoc.
Qed.

Lemma upd2_eq (f : Z -> Z -> R) y x v : upd2 f y x v y x = v.
Proof. unfold upd2. by rewrite !Z.eqb_refl. Qed.

Lemma upd2_ne (f : Z -> Z -> R) y x v y' x' :
  y' <> y \/ x' <> x -> upd2 f y x v y' x' = f y' x'.
Proof.
  intros Hne. unfold upd2.
  destruct (Z.eqb_spec y' y), (Z.eqb_spec x' x); simpl; try done. lia.
Qed.

(** The accumulation phase of one thread: its accumulator grows by the
    tile's partial sum; no other accumulator changes. *)
Lemma accumulate_Ok th st :
  0 <= tx th < 16 -> 0 <= ty th < 16 ->
  exists st',
    Tiled.accumulate th st = (Ok tt, st')
    /\ memC st' = memC st /\ ds_A st' = ds_A st /\ ds_B st' = ds_B st
    /\ trace st' = trace st ++ accumulate_events th
    /\ Cvalue st' (ty th) (tx th)
       = tile_sum (ds_A st) (ds_B st) (ty th) (tx th) (Cvalue st (ty th) (tx th))
    /\ (forall y x, y <> ty th \/ x <> tx th -> Cvalue st' y x = Cvalue st y x).
Proof.
  intros Htx Hty. unfold Tiled.accumulate.
  destruct (for_each_invariant
    (fun done s =>
       memC s = memC st /\ ds_A s = ds_A st /\ ds_B s = ds_B st
       /\ trace s = trace st ++ (done ≫= accumulate_step_events th)
       /\ Cvalue s (ty th) (tx th)
          = fold_left (fun c i => radd c (rmul (ds_A st (ty th) i) (ds_B st i (tx th))))
              done (Cvalue st (ty th) (tx th))
       /\ (forall y x, y <> ty th \/ x <> tx th -> Cvalue s y x = Cvalue st y x))
    (seqZ 0 TILE_WIDTH) (Tiled.accumulate_step th) st)
    as (st1 & Hrun & HC & HdA & HdB & Htr & Hacc & Hoth).
  - simpl. by rewrite app_nil_r.
  - intros done i s [rest Hrest] (HC & HdA & HdB & Htr & Hacc & Hoth).
    assert (i ∈ seqZ 0 TILE_WIDTH) as Hi
      by (rewrite Hrest; apply elem_of_app; right; left).
    apply elem_of_seqZ in Hi. unfold TILE_WIDTH in Hi.
    eexists. split; [apply accumulate_step_Ok; lia|]. simpl.
    rewrite upd2_eq, fold_left_app, bind_snoc, Htr, HdA, HdB, Hacc, <- app_assoc.
    repeat split; try done.
    intros y x Hne. rewrite upd2_ne by done. by apply Hoth.
  - rewrite (bind_Ok _ _ _ _ _ Hrun). eexists. split; [reflexivity|]. simpl.
    unfold accumulate_events, tile_sum. rewrite Htr, <- app_assoc.
    repeat split; done.
Qed.

(** *** Whole phases of a block *)

Abbreviation threads := (Tiled.threads Tiled.dimBlock).

Lemma NoDup_threads b : NoDup (threads b).
Proof.
  unfold Tiled.threads. apply NoDup_fmap_2; [|apply NoDup_indices].
  intros t t'. congruence.
Qed.

Lemma thread_of_coords b th :
  th ∈ threads b -> th = Thread b (Dim3 (tx th) (ty th)).
Proof.
  unfold Tiled.threads. intros Hth.
  apply list_elem_of_fmap in Hth as ([x y] & -> & _). done.
Qed.

Lemma coords_in_block b y x :
  0 <= y < 16 -> 0 <= x < 16 -> Thread b (Dim3 x y) ∈ threads b.
Proof.
  intros Hy Hx. unfold Tiled.threads. apply list_elem_of_fmap_2.
  apply elem_of_indices. simpl. unfold TILE_WIDTH. lia.
Qed.

Lemma same_coords b th th' :
  th ∈ threads b -> th' ∈ threads b ->
  ty th' = ty th -> tx th' = tx th -> th' = th.
Proof.
  intros Hth Hth' Hy Hx.
  rewrite (thread_of_coords b th Hth), (thread_of_coords b th' Hth').
  simpl. unfold Tiled.tx, Tiled.ty in *. simpl. congruence.
Qed.

Lemma prefix_elem {T} (l done rest : list T) (i : T) :
  l = done ++ i :: rest -> i ∈ l /\ (forall j, j ∈ done ++ [i] -> j ∈ l).
Proof.
  intros ->. split.
  - apply elem_of_app. right. left.
  - intros j Hj. apply elem_of_app in Hj as [Hj|Hj].
    + apply elem_of_app. by left.
    + apply list_elem_of_singleton in Hj as ->. apply elem_of_app. right. left.
Qed.

Lemma prefix_fresh {T} (l done rest : list T) (i : T) :
  NoDup l -> l = done ++ i :: rest -> i ∉ done.
Proof.
  intros Hnd ->. apply NoDup_app in Hnd as (_ & Hdisj & _).
  intros Hi. apply (Hdisj i Hi). left.
Qed.

(** [float Cvalue = 0.0;] in every thread. *)
Lemma init_phase b st :
  exists st',
    for_each (threads b) Tiled.init st = (Ok tt, st')
    /\ memC st' = memC st /\ trace st' = trace st
    /\ (forall th, th ∈ threads b -> Cvalue st' (ty th) (tx th) = rzero).
Proof.
  destruct (for_each_invariant
    (fun done s =>
       memC s = memC st /\ trace s = trace st
       /\ (forall th, th ∈ done -> Cvalue s (ty th) (tx th) = rzero))
    (threads b) Tiled.init st) as (st' & Hrun & HI).
  - repeat split. intros th Hth. by apply elem_of_nil in Hth.
  - intros done th s Hrest (HC & Htr & Hz).
    eexists. split; [reflexivity|]. simpl. repeat split; try done.
    intros th' Hth'. apply elem_of_app in Hth' as [Hth'|Hth'].
    + unfold upd2. destruct (_ && _); [done|by apply Hz].
    + apply list_elem_of_singleton in Hth' as ->. apply upd2_eq.
  - exists st'. split; [exact Hrun|exact HI].
Qed.

(** After the load phase of tile [t], the scratch tiles hold what the
    threads of the block have stored. *)
Lemma load_phase b t st :
  b ∈ indices grid -> 0 <= t < tiles ->
  exists st',
    for_each (threads b)
      (Tiled.load_tiles A B numAColumns numCRows numCColumns Tiled.dimBlock t) st
    = (Ok tt, st')
    /\ memC st' = memC st /\ Cvalue st' = Cvalue st
    /\ trace st' = trace st ++ (threads b ≫= load_events t)
    /\ (forall th, th ∈ threads b ->
          ds_A st' (ty th) (tx th) = loadA t th
          /\ ds_B st' (ty th) (tx th) = loadB t th).
Proof.
  intros Hb Ht.
  apply (for_each_invariant
    (fun done s =>
       memC s = memC st /\ Cvalue s = Cvalue st
       /\ trace s = trace st ++ (done ≫= load_events t)
       /\ (forall th, th ∈ done ->
             ds_A s (ty th) (tx th) = loadA t th
             /\ ds_B s (ty th) (tx th) = loadB t th))).
  - simpl. rewrite app_nil_r. do 3 (split; [done|]).
    intros th Hth. by apply elem_of_nil in Hth.
  - intros done th s [rest Hrest] (HC & HCv & Htr & Hds).
    destruct (prefix_elem _ _ _ _ Hrest) as [Hth Hdone].
    eexists. split.
    { apply load_tiles_Ok; [by apply (thread_in_launch b)|done]. }
    simpl. rewrite bind_snoc, Htr, <- app_assoc.
    do 3 (split; [done|]).
    intros th' Hth'.
    destruct (decide (ty th' = ty th /\ tx th' = tx th)) as [[Ey Ex]|Hne].
    + assert (th' = th) as -> by (apply (same_coords b); auto).
      by rewrite !upd2_eq.
    + apply elem_of_app in Hth' as [Hth'|Hth'].
      * rewrite !upd2_ne by lia. by apply Hds.
      * apply list_elem_of_singleton in Hth' as ->. lia.
Qed.

(** After the accumulation phase, every accumulator of the block has
    grown by the partial sum of the tile. *)
Lemma accumulate_phase b st :
  b ∈ indices grid ->
  exists st',
    for_each (threads b) Tiled.accumulate st = (Ok tt, st')
    /\ memC st' = memC st /\ ds_A st' = ds_A st /\ ds_B st' = ds_B st
    /\ trace st' = trace st ++ (threads b ≫= accumulate_events)
    /\ (forall th, th ∈ threads b ->
          Cvalue st' (ty th) (tx th)
          = tile_sum (ds_A st) (ds_B st) (ty th) (tx th) (Cvalue st (ty th) (tx th))).
Proof.
  intros Hb.
  destruct (for_each_invariant
    (fun done s =>
       memC s = memC st /\ ds_A s = ds_A st /\ ds_B s = ds_B st
       /\ trace s = trace st ++ (done ≫= accumulate_events)
       /\ (forall th, th ∈ threads b ->
             Cvalue s (ty th) (tx th)
             = if decide (th ∈ done)
               then tile_sum (ds_A st) (ds_B st) (ty th) (tx th)
                      (Cvalue st (ty th) (tx th))
               else Cvalue st (ty th) (tx th)))
    (threads b) Tiled.accumulate st) as (st' & Hrun & HC & HdA & HdB & Htr & Hacc).
  - simpl. rewrite app_nil_r. do 4 (split; [done|]).
    intros th Hth. destruct (decide (th ∈ [])) as [Hin|]; [|done].
    by apply elem_of_nil in Hin.
  - intros done th s [rest Hrest] (HC & HdA & HdB & Htr & Hacc).
    destruct (prefix_elem _ _ _ _ Hrest) as [Hth Hdone].
    pose proof (prefix_fresh _ _ _ _ (NoDup_threads b) Hrest) as Hfresh.
    destruct (thread_facts th (thread_in_launch b th Hb Hth))
      as (_ & _ & Htx & Hty & _).
    destruct (accumulate_Ok th s Htx Hty)
      as (s' & Hrun & HC' & HdA' & HdB' & Htr' & Hacc' & Hoth').
    exists s'. split; [done|].
    rewrite HC', HdA', HdB', Htr', Htr, bind_snoc, <- app_assoc.
    do 4 (split; [congruence|]).
    intros th' Hth'.
    destruct (decide (th' = th)) as [->|Hne].
    + rewrite Hacc', HdA, HdB, (Hacc th Hth).
      destruct (decide (th ∈ done)); [done|].
      destruct (decide (th ∈ done ++ [th])) as [|Hn]; [done|].
      exfalso. apply Hn, elem_of_app. right. left.
    + rewrite Hoth', (Hacc th' Hth').
      * destruct (decide (th' ∈ done)) as [Hd|Hd];
          destruct (decide (th' ∈ done ++ [th])) as [Hd'|Hd']; try done.
        -- exfalso. apply Hd', elem_of_app. by left.
        -- exfalso. apply elem_of_app in Hd' as [?|Hd']; [done|].
           by apply list_elem_of_singleton in Hd'.
      * destruct (decide (ty th' = ty th)) as [Ey|]; [|by left].
        destruct (decide (tx th' = tx th)) as [Ex|]; [|by right].
        exfalso. apply Hne. by apply (same_coords b).
  - exists st'. split; [exact Hrun|].
    split; [exact HC|]. split; [exact HdA|]. split; [exact HdB|].
    split; [exact Htr|].
    intros th Hth. rewrite (Hacc th Hth).
    destruct (decide (th ∈ threads b)) as [|Hn]; [reflexivity|].
    exfalso. exact (Hn Hth).
Qed.

(** The scratch tiles of block [b] for tile [t], by coordinates. *)
Definition tileA (b : dim3) (t : Z) (y x : Z) : R := loadA t (Thread b (Dim3 x y)).
Definition tileB (b : dim3) (t : Z) (y x : Z) : R := loadB t (Thread b (Dim3 x y)).

(** The accumulator of thread [th] after the loop over the tiles. *)
Definition tiled_val (th : thread) : R :=
  fold_left
    (fun c t => tile_sum (tileA (blockIdx th) t) (tileB (blockIdx th) t)
                  (ty th) (tx th) c)
    (seqZ 0 tiles) rzero.

(** The accesses of block [b] during tile [t], and during the kernel. *)
Definition tile_events (b : dim3) (t : Z) : list event :=
  (threads b ≫= load_events t) ++ (threads b ≫= accumulate_events).

Definition block_events (b : dim3) : list event :=
  (seqZ 0 tiles ≫= tile_events b) ++ (threads b ≫= write_events).

Lemma tile_sum_ext (a a' b b' : Z -> Z -> R) y x c :
  (forall i, 0 <= i < 16 -> a y i = a' y i) ->
  (forall i, 0 <= i < 16 -> b i x = b' i x) ->
  tile_sum a b y x c = tile_sum a' b' y x c.
Proof.
  intros Ha Hb. unfold tile_sum.
  assert (forall i, i ∈ seqZ 0 TILE_WIDTH -> 0 <= i < 16) as Hl
    by (intros i Hi; apply elem_of_seqZ in Hi; unfold TILE_WIDTH in Hi; lia).
  revert c. induction (seqZ 0 TILE_WIDTH) as [|i l IH]; intros c; [done|].
  simpl. rewrite Ha, Hb by (apply Hl; left). apply IH.
  intros j Hj. apply Hl. by right.
Qed.

(** One iteration of the loop over the tiles. *)
Lemma tile_iteration b t st :
  b ∈ indices grid -> 0 <= t < tiles ->
  exists st',
    (for_each (threads b)
       (Tiled.load_tiles A B numAColumns numCRows numCColumns Tiled.dimBlock t) ;;
     for_each (threads b) Tiled.accumulate) st = (Ok tt, st')
    /\ memC st' = memC st
    /\ trace st' = trace st ++ tile_events b t
    /\ (forall th, th ∈ threads b ->
          Cvalue st' (ty th) (tx th)
          = tile_sum (tileA b t) (tileB b t) (ty th) (tx th)
              (Cvalue st (ty th) (tx th))).
Proof.
  intros Hb Ht.
  destruct (load_phase b t st Hb Ht) as (st1 & Hrun1 & HC1 & HCv1 & Htr1 & Hds).
  destruct (accumulate_phase b st1 Hb) as (st2 & Hrun2 & HC2 & _ & _ & Htr2 & Hacc).
  exists st2. rewrite (bind_Ok _ _ _ _ _ Hrun1). split; [done|].
  split; [congruence|]. split.
  { rewrite Htr2, Htr1. unfold tile_events. by rewrite <- app_assoc. }
  intros th Hth. rewrite (Hacc th Hth), HCv1.
  destruct (thread_facts th (thread_in_launch b th Hb Hth))
    as (_ & _ & Htx & Hty & _).
  apply tile_sum_ext.
  - intros i Hi. unfold tileA.
    by destruct (Hds (Thread b (Dim3 i (ty th))) (coords_in_block b _ _ Hty Hi)).
  - intros i Hi. unfold tileB.
    by destruct (Hds (Thread b (Dim3 (tx th) i)) (coords_in_block b _ _ Hi Htx)).
Qed.

Lemma blockIdx_in_block b th : th ∈ threads b -> blockIdx th = b.
Proof. intros Hth. by rewrite (thread_of_coords b th Hth). Qed.

(** The loop over the tiles. *)
Lemma tiles_loop b st :
  b ∈ indices grid ->
  (forall th, th ∈ threads b -> Cvalue st (ty th) (tx th) = rzero) ->
  exists st',
    for_each (seqZ 0 tiles) (fun t =>
      for_each (threads b)
        (Tiled.load_tiles A B numAColumns numCRows numCColumns Tiled.dimBlock t) ;;
      for_each (threads b) Tiled.accumulate) st = (Ok tt, st')
    /\ memC st' = memC st
    /\ trace st' = trace st ++ (seqZ 0 tiles ≫= tile_events b)
    /\ (forall th, th ∈ threads b -> Cvalue st' (ty th) (tx th) = tiled_val th).
Proof.
  intros Hb Hzero.
  destruct (for_each_invariant
    (fun done s =>
       memC s = memC st
       /\ trace s = trace st ++ (done ≫= tile_events b)
       /\ (forall th, th ∈ threads b ->
             Cvalue s (ty th) (tx th)
             = fold_left
                 (fun c t => tile_sum (tileA b t) (tileB b t) (ty th) (tx th) c)
                 done rzero))
    (seqZ 0 tiles)
    (fun t =>
      for_each (threads b)
        (Tiled.load_tiles A B numAColumns numCRows numCColumns Tiled.dimBlock t) ;;
      for_each (threads b) Tiled.accumulate) st) as (st' & Hrun & HC & Htr & Hacc).
  - simpl. rewrite app_nil_r. repeat split; try done.
  - intros done t s [rest Hrest] (HC & Htr & Hacc).
    assert (t ∈ seqZ 0 tiles) as Ht by (rewrite Hrest; apply elem_of_app; right; left).
    apply elem_of_seqZ in Ht.
    destruct (tile_iteration b t s Hb) as (s' & Hrun & HC' & Htr' & Hacc'); [lia|].
    exists s'. split; [done|]. split; [congruence|]. split.
    { by rewrite Htr', Htr, bind_snoc, <- app_assoc. }
    intros th Hth. by rewrite (Hacc' th Hth), (Hacc th Hth), fold_left_app.
  - exists st'. do 3 (split; [done|]).
    intros th Hth. rewrite (Hacc th Hth). unfold tiled_val.
    by rewrite (blockIdx_in_block b th Hth).
Qed.

(** *** The write-back phase, the block and the grid *)

Definition tiled_inb (th : thread) : bool :=
  (Row th <? numCRows) && (Col th <? numCColumns).

Definition tiled_idx (th : thread) : Z := Row th * numCColumns + Col th.

Abbreviation launched := (fun th => th ∈ launch_threads grid Tiled.dimBlock).

Lemma tiled_idx_inj th th' :
  launched th -> launched th' ->
  tiled_inb th = true -> tiled_inb th' = true ->
  tiled_idx th = tiled_idx th' -> th = th'.
Proof.
  intros Hth Hth' Hin Hin' Hidx.
  destruct (thread_facts th Hth) as (? & ? & ? & ? & Hr & Hc).
  destruct (thread_facts th' Hth') as (? & ? & ? & ? & Hr' & Hc').
  unfold tiled_inb in Hin, Hin'. apply andb_true_iff in Hin, Hin'.
  unfold tiled_idx in Hidx.
  apply offset_inj in Hidx as [Er Ec]; [|lia..].
  rewrite Hr, Hr' in Er. rewrite Hc, Hc' in Ec.
  unfold Tiled.tx, Tiled.ty in *.
  destruct th as [[bx by_] [tx0 ty0]], th' as [[bx' by'] [tx' ty']].
  simpl in *. repeat f_equal; lia.
Qed.

Lemma tiled_idx_bound th :
  launched th -> tiled_inb th = true ->
  0 <= tiled_idx th < numCRows * numCColumns.
Proof.
  intros Hth Hin. destruct (thread_facts th Hth) as (? & ? & _).
  unfold tiled_inb in Hin. apply andb_true_iff in Hin.
  apply offset_bound; lia.
Qed.

Lemma write_back_Ok th (st : state R) :
  launched th -> tiled_inb th = true ->
  numCRows * numCColumns <= int_max ->
  numCRows * numCColumns <= Z.of_nat (length (memC st)) ->
  Tiled.write_back numCRows numCColumns Tiled.dimBlock th st
  = (Ok tt,
     set_memC (log st (write_events th))
       (<[Z.to_nat (tiled_idx th) := Cvalue st (ty th) (tx th)]> (memC st))).
Proof.
  intros Hth Hin Hint Hlen. pose proof (tiled_idx_bound th Hth Hin) as Hidx.
  unfold Tiled.write_back, write_events. unfold tiled_inb in Hin. rewrite Hin.
  unfold tiled_idx in Hidx.
  apply andb_true_iff in Hin. destruct (thread_facts th Hth) as (? & ? & _).
  rewrite int_mul_small by (unfold int_max in *; nia).
  rewrite int_add_small by (unfold int_max in *; lia).
  unfold bind, get_Cvalue. by rewrite gstore_Ok by lia.
Qed.

Lemma write_back_skip th (st : state R) :
  tiled_inb th = false ->
  Tiled.write_back numCRows numCColumns Tiled.dimBlock th st
  = (Ok tt, log st (write_events th)).
Proof.
  intros Hout. unfold Tiled.write_back, write_events. unfold tiled_inb in Hout.
  rewrite Hout. by rewrite log_nil.
Qed.

Lemma write_back_phase b st :
  b ∈ indices grid ->
  (forall th, th ∈ threads b -> Cvalue st (ty th) (tx th) = tiled_val th) ->
  numCRows * numCColumns <= int_max ->
  numCRows * numCColumns <= Z.of_nat (length (memC st)) ->
  exists st',
    for_each (threads b) (Tiled.write_back numCRows numCColumns Tiled.dimBlock) st
    = (Ok tt, st')
    /\ fills tiled_inb tiled_idx tiled_val (threads b) (memC st) (memC st')
    /\ trace st' = trace st ++ (threads b ≫= write_events).
Proof.
  intros Hb Hval Hint Hlen.
  destruct (for_each_invariant
    (fun done s =>
       fills tiled_inb tiled_idx tiled_val done (memC st) (memC s)
       /\ Cvalue s = Cvalue st
       /\ trace s = trace st ++ (done ≫= write_events))
    (threads b) (Tiled.write_back numCRows numCColumns Tiled.dimBlock) st)
    as (st' & Hrun & Hfill & _ & Htr).
  - split; [apply fills_nil|]. simpl. by rewrite app_nil_r.
  - intros done th s [rest Hrest] (Hfill & HCv & Htr).
    destruct (prefix_elem _ _ _ _ Hrest) as [Hth Hdone].
    pose proof (thread_in_launch b th Hb Hth) as Hlaunched.
    assert (length (memC s) = length (memC st)) as Hlen' by apply Hfill.
    assert (forall t, t ∈ done ++ [th] -> launched t) as Hall
      by (intros t Ht; apply (thread_in_launch b); auto).
    assert (forall t t', launched t -> launched t' ->
              tiled_inb t = true -> tiled_inb t' = true ->
              tiled_idx t = tiled_idx t' -> tiled_val t = tiled_val t') as Hinj
      by (intros t t' ? ? ? ? ?; f_equal; by apply tiled_idx_inj).
    destruct (tiled_inb th) eqn:Hin.
    + eexists. split; [apply write_back_Ok; auto; lia|]. simpl.
      rewrite bind_snoc, Htr, <- app_assoc. split; [|done].
      eapply fills_app with (launched := launched); eauto.
      rewrite HCv, (Hval th Hth).
      apply (fills_write tiled_inb tiled_idx tiled_val th); [done|].
      pose proof (tiled_idx_bound th Hlaunched Hin). lia.
    + eexists. split; [by apply write_back_skip|]. simpl.
      rewrite bind_snoc, Htr, <- app_assoc. split; [|done].
      eapply fills_app with (launched := launched); eauto.
      by apply fills_skip.
  - exists st'. split; [exact Hrun|]. split; [exact Hfill|exact Htr].
Qed.

(** One block of the tiled kernel. *)
Lemma block_Ok b st :
  b ∈ indices grid ->
  numCRows * numCColumns <= int_max ->
  numCRows * numCColumns <= Z.of_nat (length (memC st)) ->
  exists st',
    Tiled.matrixMultiply A B numAColumns numCRows numCColumns Tiled.dimBlock b st
    = (Ok tt, st')
    /\ fills tiled_inb tiled_idx tiled_val (threads b) (memC st) (memC st')
    /\ trace st' = trace st ++ block_events b.
Proof.
  intros Hb Hint Hlen. unfold Tiled.matrixMultiply.
  destruct (init_phase b st) as (st1 & Hrun1 & HC1 & Htr1 & Hzero).
  destruct (tiles_loop b st1 Hb Hzero) as (st2 & Hrun2 & HC2 & Htr2 & Hacc).
  destruct (write_back_phase b st2 Hb Hacc Hint) as (st3 & Hrun3 & Hfill & Htr3);
    [rewrite HC2, HC1; lia|].
  exists st3. fold (threads b).
  rewrite (bind_Ok _ _ _ _ _ Hrun1), (bind_Ok _ _ _ _ _ Hrun2).
  split; [done|]. split.
  - by rewrite HC2, HC1 in Hfill.
  - rewrite Htr3, Htr2, Htr1. unfold block_events. by rewrite <- app_assoc.
Qed.

Lemma launch_threads_blocks :
  launch_threads grid Tiled.dimBlock = indices grid ≫= threads.
Proof. done. Qed.

(** The whole launch. *)
Lemma tiled_launch_fills st :
  holds (memC st) numCRows numCColumns = true ->
  exists st',
    Tiled.launch A B numAColumns numCRows numCColumns Tiled.dimBlock grid st
    = (Ok tt, st')
    /\ fills tiled_inb tiled_idx tiled_val (launch_threads grid Tiled.dimBlock)
         (memC st) (memC st')
    /\ trace st' = trace st ++ (indices grid ≫= block_events).
Proof.
  intros HC. apply holds_spec in HC as (_ & _ & Hint & Hlen).
  unfold Tiled.launch. rewrite launch_threads_blocks.
  apply (for_each_invariant
    (fun done s =>
       fills tiled_inb tiled_idx tiled_val (done ≫= threads) (memC st) (memC s)
       /\ trace s = trace st ++ (done ≫= block_events))).
  - split; [apply fills_nil|]. simpl. by rewrite app_nil_r.
  - intros done b s [rest Hrest] (Hfill & Htr).
    destruct (prefix_elem _ _ _ _ Hrest) as [Hb Hdone].
    assert (length (memC s) = length (memC st)) as Hlen' by apply Hfill.
    destruct (block_Ok b s Hb Hint) as (s' & Hrun & Hfill' & Htr'); [lia|].
    exists s'. split; [done|]. split.
    + rewrite bind_snoc.
      eapply fills_app with (launched := launched); eauto.
      * intros t t' ? ? ? ? ?; f_equal; by apply tiled_idx_inj.
      * intros t Ht. rewrite <- bind_snoc in Ht.
        apply list_elem_of_bind in Ht as (b' & Ht & Hb').
        apply (thread_in_launch b'); auto.
    + by rewrite Htr', Htr, bind_snoc, <- app_assoc.
Qed.

(** *** The accumulated value is the reference sum

    The tiles scan [k = 0, 1, ..., tiles * 16 - 1] in order; for
    [k < numAColumns] the products are those of the reference sum, the
    others are products of two padding zeros. *)

Hypothesis padding : forall x : R, radd x (rmul rzero rzero) = x.

Lemma fold_left_ext_in {T} (f g : R -> T -> R) (l : list T) c :
  (forall a i, i ∈ l -> f a i = g a i) -> fold_left f l c = fold_left g l c.
Proof.
  revert c. induction l as [|i l IH]; intros c Hfg; [done|]. simpl.
  rewrite Hfg by left. apply IH. intros a j Hj. apply Hfg. by right.
Qed.

Lemma fold_left_id {T} (f : R -> T -> R) (l : list T) c :
  (forall a i, i ∈ l -> f a i = a) -> fold_left f l c = c.
Proof.
  revert c. induction l as [|i l IH]; intros c Hf; [done|]. simpl.
  rewrite Hf by left. apply IH. intros a j Hj. apply Hf. by right.
Qed.

Lemma fold_left_tiles (g : R -> Z -> R) (T : nat) c :
  fold_left (fun a t => fold_left g (seqZ (t * 16) 16) a) (seqZ 0 (Z.of_nat T)) c
  = fold_left g (seqZ 0 (Z.of_nat T * 16)) c.
Proof.
  induction T as [|T IH]; [done|].
  rewrite seqZ_S, fold_left_app, IH. simpl.
  replace (Z.of_nat (S T) * 16) with (Z.of_nat T * 16 + 16) by lia.
  rewrite seqZ_app by lia. by rewrite fold_left_app.
Qed.

Lemma tile_sum_shift (a b : Z -> Z -> R) (g : R -> Z -> R) t y x c :
  (forall acc i, 0 <= i < 16 ->
     radd acc (rmul (a y i) (b i x)) = g acc (t * 16 + i)) ->
  tile_sum a b y x c = fold_left g (seqZ (t * 16) 16) c.
Proof.
  intros Hg. unfold tile_sum, TILE_WIDTH.
  replace (seqZ (t * 16) 16) with (Z.add (t * 16) <$> seqZ 0 16)
    by (rewrite fmap_add_seqZ; f_equal; lia).
  assert (forall i, i ∈ seqZ 0 16 -> 0 <= i < 16) as Hl
    by (intros i Hi; apply elem_of_seqZ in Hi; lia).
  revert c. induction (seqZ 0 16) as [|i l IH]; intros c; [done|].
  simpl. rewrite Hg by (apply Hl; left). apply IH.
  intros j Hj. apply Hl. by right.
Qed.

Lemma tiled_val_reference th :
  launched th -> tiled_inb th = true ->
  tiled_val th = reference_entry A B numAColumns numBColumns (Row th) (Col th).
Proof.
  intros Hth Hin.
  destruct dims_facts as (HR & HC & Hn & _).
  destruct (thread_facts th Hth) as (Hr0 & Hc0 & Htx & Hty & Hr & Hc).
  unfold tiled_inb in Hin. apply andb_true_iff in Hin as [Hrow Hcol].
  set (g := fun (acc : R) (k : Z) =>
              radd acc (rmul (if k <? numAColumns
                              then entry A numAColumns (Row th) k else rzero)
                             (if k <? numAColumns
                              then entry B numCColumns k (Col th) else rzero))).
  assert (0 <= tiles) as HT by (rewrite tiles_eq; pose proof (extent_bound _ Hn); lia).
  unfold tiled_val.
  rewrite (fold_left_ext_in _ (fun a t => fold_left g (seqZ (t * 16) 16) a)).
  2: { intros acc t _. apply tile_sum_shift. intros a i Hi. unfold g, tileA, tileB.
       assert (launched (Thread (blockIdx th) (Dim3 i (ty th)))) as H1.
       { apply elem_of_launch_threads. split.
         - by apply elem_of_launch_threads in Hth as [? _].
         - apply elem_of_indices. simpl. unfold TILE_WIDTH. lia. }
       assert (launched (Thread (blockIdx th) (Dim3 (tx th) i))) as H2.
       { apply elem_of_launch_threads. split.
         - by apply elem_of_launch_threads in Hth as [? _].
         - apply elem_of_indices. simpl. unfold TILE_WIDTH. lia. }
       destruct (thread_facts _ H1) as (_ & _ & _ & _ & Hr1 & _).
       destruct (thread_facts _ H2) as (_ & _ & _ & _ & _ & Hc2).
       unfold loadA, loadB. rewrite Hr1, Hc2.
       unfold Tiled.tx, Tiled.ty in Hr, Hc |- *.
       cbn [threadIdx blockIdx dim_x dim_y].
       rewrite <- Hr, <- Hc, Hrow, Hcol. reflexivity. }
  rewrite <- (Z2Nat.id tiles) by done. rewrite fold_left_tiles.
  rewrite Z2Nat.id by done.
  replace (tiles * 16) with (numAColumns + (tiles * 16 - numAColumns)) by lia.
  assert (numAColumns <= tiles * 16) as Hle.
  { rewrite tiles_eq.
    pose proof (Z.div_mod (numAColumns - 1) 16 ltac:(lia)).
    pose proof (Z.mod_pos_bound (numAColumns - 1) 16 ltac:(lia)). lia. }
  rewrite seqZ_app, fold_left_app by lia.
  rewrite fold_left_id.
  2: { intros a k Hk. apply elem_of_seqZ in Hk. unfold g.
       destruct (Z.ltb_spec k numAColumns); [lia|]. apply padding. }
  unfold reference_entry. apply fold_left_ext_in.
  intros a k Hk. apply elem_of_seqZ in Hk. unfold g.
  destruct (Z.ltb_spec k numAColumns); [|lia]. by rewrite HCcols.
Qed.

(** The launch leaves in every cell of the output the reference sum. *)
Lemma tiled_launch_reference st :
  holds (memC st) numCRows numCColumns = true ->
  exists st',
    Tiled.launch A B numAColumns numCRows numCColumns Tiled.dimBlock grid st
    = (Ok tt, st')
    /\ length (memC st') = length (memC st)
    /\ (forall row col, 0 <= row < numCRows -> 0 <= col < numCColumns ->
          elem (memC st') (row * numCColumns + col)
          = Some (reference_entry A B numAColumns numBColumns row col))
    /\ (forall i, numCRows * numCColumns <= i -> elem (memC st') i = elem (memC st) i).
Proof.
  intros HC. destruct (tiled_launch_fills st HC) as (st' & Hrun & (Hlen & Hw & Hf) & _).
  destruct dims_facts as (HR & HCo & _).
  exists st'. split; [exact Hrun|]. split; [exact Hlen|]. split.
  - intros row col Hrow Hcol.
    destruct (tiled_cover _ _ row col HR HCo Hrow Hcol) as (th & Hth & Hr & Hc).
    assert (tiled_inb th = true) as Hin
      by (unfold tiled_inb; rewrite Hr, Hc; apply andb_true_iff; lia).
    specialize (Hw th Hth Hin). unfold tiled_idx in Hw.
    rewrite Hr, Hc in Hw. rewrite Hw, (tiled_val_reference th Hth Hin).
    by rewrite Hr, Hc.
  - intros i Hi. apply Hf. intros th Hth Hin.
    pose proof (tiled_idx_bound th Hth Hin). lia.
Qed.

End TiledPhases.

(** ** Row-major matrices *)

Section Tabulate.
Context {R : Type} `{Scalar R}.

Lemma elem_lookup (l : list R) (i : nat) : elem l (Z.of_nat i) = l !! i.
Proof.
  unfold elem. destruct (Z.ltb_spec (Z.of_nat i) 0); [lia|]. by rewrite Nat2Z.id.
Qed.

Lemma list_eq_elem (l1 l2 : list R) :
  length l1 = length l2 ->
  (forall i, 0 <= i < Z.of_nat (length l1) -> elem l1 i = elem l2 i) ->
  l1 = l2.
Proof.
  intros Hlen Hel. apply list_eq. intros i.
  destruct (decide (i < length l1)%nat) as [Hi|Hi].
  - rewrite <- !elem_lookup. apply Hel. lia.
  - rewrite !lookup_ge_None_2 by lia. done.
Qed.

Lemma row_fmap (columns : Z) (g : Z -> R) :
  (col ← seqZ 0 columns; [g col]) = g <$> seqZ 0 columns.
Proof.
  induction (seqZ 0 columns) as [|c l IH]; [done|].
  rewrite bind_cons, fmap_cons, IH. done.
Qed.

Lemma length_tabulate_nat (rows : nat) (columns : Z) (f : Z -> Z -> R) :
  0 <= columns ->
  Z.of_nat (length (tabulate (Z.of_nat rows) columns f)) = Z.of_nat rows * columns.
Proof.
  intros Hc. unfold tabulate. induction rows as [|rows IH]; [done|].
  rewrite seqZ_S, bind_snoc, length_app, Nat2Z.inj_add, IH.
  rewrite row_fmap, length_fmap, length_seqZ. lia.
Qed.

Lemma length_tabulate rows columns (f : Z -> Z -> R) :
  0 <= rows -> 0 <= columns ->
  Z.of_nat (length (tabulate rows columns f)) = rows * columns.
Proof.
  intros Hr Hc. rewrite <- (Z2Nat.id rows) by done. by apply length_tabulate_nat.
Qed.

Lemma elem_tabulate rows columns (f : Z -> Z -> R) row col :
  0 <= row < rows -> 0 <= col < columns ->
  elem (tabulate rows columns f) (row * columns + col) = Some (f row col).
Proof.
  intros [Hrow0 Hrow] Hcol. rewrite <- (Z2Nat.id rows) by lia.
  assert (row < Z.of_nat (Z.to_nat rows)) as Hlt by lia. clear Hrow.
  induction (Z.to_nat rows) as [|n IH]; [lia|].
  unfold tabulate in *. rewrite seqZ_S, bind_snoc. simpl.
  pose proof (length_tabulate_nat n columns f ltac:(lia)) as Hlen.
  unfold tabulate in Hlen.
  assert (0 <= row * columns + col) by nia.
  destruct (decide (row < Z.of_nat n)) as [Hin|Hlast].
  - unfold elem in *. destruct (Z.ltb_spec (row * columns + col) 0); [lia|].
    rewrite lookup_app_l by nia. by apply IH.
  - assert (row = Z.of_nat n) as -> by lia.
    unfold elem. destruct (Z.ltb_spec (Z.of_nat n * columns + col) 0); [lia|].
    rewrite lookup_app_r by lia.
    replace (Z.to_nat (Z.of_nat n * columns + col) - length _)%nat
      with (Z.to_nat col) by lia.
    rewrite row_fmap, list_lookup_fmap, lookup_seqZ_lt by lia. simpl.
    do 2 f_equal. lia.
Qed.

(** Every offset of a [rows x columns] buffer is the offset of a
    coordinate. *)
Lemma offset_coords rows columns i :
  1 <= columns -> 0 <= i < rows * columns ->
  0 <= i / columns < rows /\ 0 <= i mod columns < columns
  /\ i / columns * columns + i mod columns = i.
Proof.
  intros Hc Hi.
  pose proof (Z.div_mod i columns ltac:(lia)).
  pose proof (Z.mod_pos_bound i columns ltac:(lia)).
  assert (0 <= i / columns) by (apply Z.div_pos; lia).
  assert (i / columns < rows) by (apply Z.div_lt_upper_bound; lia).
  lia.
Qed.

End Tabulate.

(** ** The two kernels and the reference product *)

Section Products.
Context {R : Type} `{Scalar R}.
Variables (A B : list R).
Variables (numARows numAColumns numBRows numBColumns numCRows numCColumns : Z).
Hypothesis HA : holds A numARows numAColumns = true.
Hypothesis HB : holds B numBRows numBColumns = true.
Hypothesis Hshared : numAColumns = numBRows.
Hypothesis HCrows : numCRows = numARows.
Hypothesis HCcols : numCColumns = numBColumns.

(** A buffer whose cells are the reference sums, and that is [C] past
    them, is determined. *)
Lemma product_unique (C C1 C2 : list R) :
  1 <= numCColumns ->
  length C1 = length C -> length C2 = length C ->
  (forall row col, 0 <= row < numCRows -> 0 <= col < numCColumns ->
     elem C1 (row * numCColumns + col)
     = Some (reference_entry A B numAColumns numBColumns row col)) ->
  (forall row col, 0 <= row < numCRows -> 0 <= col < numCColumns ->
     elem C2 (row * numCColumns + col)
     = Some (reference_entry A B numAColumns numBColumns row col)) ->
  (forall i, numCRows * numCColumns <= i -> elem C1 i = elem C i) ->
  (forall i, numCRows * numCColumns <= i -> elem C2 i = elem C i) ->
  C1 = C2.
Proof.
  intros Hc Hl1 Hl2 Hin1 Hin2 Hout1 Hout2.
  apply list_eq_elem; [congruence|]. intros i Hi.
  destruct (decide (i < numCRows * numCColumns)) as [Hlt|Hge].
  - destruct (offset_coords numCRows numCColumns i Hc ltac:(lia)) as (Hr & Hco & E).
    rewrite <- E, Hin1, Hin2 by done. done.
  - rewrite Hout1, Hout2 by lia. done.
Qed.

Lemma product_reference (C C1 : list R) :
  Z.of_nat (length C) = numCRows * numCColumns ->
  1 <= numCRows -> 1 <= numCColumns ->
  length C1 = length C ->
  (forall row col, 0 <= row < numCRows -> 0 <= col < numCColumns ->
     elem C1 (row * numCColumns + col)
     = Some (reference_entry A B numAColumns numBColumns row col)) ->
  C1 = reference A B numARows numAColumns numBColumns.
Proof.
  intros Hlen Hr Hc Hl1 Hin1. unfold reference. rewrite <- HCrows, <- HCcols.
  apply list_eq_elem.
  - apply Nat2Z.inj. rewrite length_tabulate by lia. lia.
  - intros i Hi.
    destruct (offset_coords numCRows numCColumns i Hc ltac:(lia)) as (Hro & Hco & E).
    rewrite <- E, Hin1, elem_tabulate by done. by rewrite HCcols.
Qed.

End Products.

(** * The claims *)

(** C2.  For matrices [A], [B] with [numAColumns = numBRows],
    [numCRows = numARows] and [numCColumns = numBColumns], the launch of the
    naive kernel runs without a fault and leaves, at offset
    [row * numCColumns + col] of [C], for every coordinate [(row, col)] of
    the output, the reference sum over [k] in [[0, numAColumns)] of
    [A[row * numAColumns + k] * B[k * numBColumns + col]]; when [C] has
    exactly [numCRows * numCColumns] cells, [C] is the reference product. *)
Theorem naive_matches_reference {R : Type} `{Scalar R} (A B : list R)
    (numARows numAColumns numBRows numBColumns numCRows numCColumns : Z)
    (st : state R) :
  holds A numARows numAColumns = true ->
  holds B numBRows numBColumns = true ->
  holds (memC st) numCRows numCColumns = true ->
  numAColumns = numBRows -> numCRows = numARows -> numCColumns = numBColumns ->
  exists st',
    Simple.kernel A B numARows numAColumns numBRows numBColumns numCRows numCColumns
      (Simple.dimGrid numCRows numCColumns) Simple.dimBlock st = (Ok tt, st')
    /\ (forall row col, 0 <= row < numCRows -> 0 <= col < numCColumns ->
          elem (memC st') (row * numCColumns + col)
          = Some (reference_entry A B numAColumns numBColumns row col))
    /\ (Z.of_nat (length (memC st)) = numCRows * numCColumns ->
        memC st' = reference A B numARows numAColumns numBColumns).
Proof.
  intros HA HB HC Hshared HCrows HCcols.
  destruct (simple_launch_reference A B numARows numAColumns numBRows numBColumns
              numCRows numCColumns HA HB Hshared HCrows HCcols st HC)
    as (st' & Hrun & Hlen & Hin & _).
  exists st'. split; [exact Hrun|]. split; [exact Hin|].
  intros Hexact. apply holds_spec in HC as (? & ? & _).
  eapply product_reference; eauto.
Qed.

Lemma naive_matches_reference_witness :
  exists st',
    Simple.kernel [1; 2; 3; 4] [5; 6; 7; 8] 2 2 2 2 2 2
      (Simple.dimGrid 2 2) Simple.dimBlock
      (State [0; 0; 0; 0] (fun _ _ => 0) (fun _ _ => 0) (fun _ _ => 0) [])
    = (Ok tt, st')
    /\ memC st' = [19; 22; 43; 50].
Proof.
  destruct (naive_matches_reference [1; 2; 3; 4] [5; 6; 7; 8] 2 2 2 2 2 2
              (State [0; 0; 0; 0] (fun _ _ => 0) (fun _ _ => 0) (fun _ _ => 0) []))
    as (st' & Hrun & _ & Hall); [reflexivity..|].
  exists st'. split; [exact Hrun|]. rewrite Hall by reflexivity. reflexivity.
Defined.

(** C1.  For matrices [A], [B] with [numAColumns = numBRows], over a scalar
    arithmetic in which adding a product of two zeros changes nothing, the
    launch of the tiled kernel and the launch of the naive kernel both run
    without a fault and write the same value at every coordinate of the
    output; they leave the same buffer [C]. *)
Theorem tiled_equals_naive {R : Type} `{Scalar R} (A B : list R)
    (numARows numAColumns numBRows numBColumns numCRows numCColumns : Z)
    (st : state R) :
  (forall x : R, radd x (rmul rzero rzero) = x) ->
  holds A numARows numAColumns = true ->
  holds B numBRows numBColumns = true ->
  holds (memC st) numCRows numCColumns = true ->
  numAColumns = numBRows -> numCRows = numARows -> numCColumns = numBColumns ->
  exists st_tiled st_naive,
    Tiled.kernel A B numARows numAColumns numBRows numBColumns numCRows numCColumns
      (Tiled.dimGrid numCRows numCColumns) Tiled.dimBlock st = (Ok tt, st_tiled)
    /\ Simple.kernel A B numARows numAColumns numBRows numBColumns numCRows numCColumns
         (Simple.dimGrid numCRows numCColumns) Simple.dimBlock st = (Ok tt, st_naive)
    /\ (forall row col, 0 <= row < numCRows -> 0 <= col < numCColumns ->
          exists v, elem (memC st_tiled) (row * numCColumns + col) = Some v
                    /\ elem (memC st_naive) (row * numCColumns + col) = Some v)
    /\ memC st_tiled = memC st_naive.
Proof.
  intros Hpad HA HB HC Hshared HCrows HCcols.
  destruct (simple_launch_reference A B numARows numAColumns numBRows numBColumns
              numCRows numCColumns HA HB Hshared HCrows HCcols st HC)
    as (sn & Hrun_n & Hlen_n & Hin_n & Hout_n).
  destruct (tiled_launch_reference A B numARows numAColumns numBRows numBColumns
              numCRows numCColumns HA HB Hshared HCrows HCcols Hpad st HC)
    as (sx & Hrun_t & Hlen_t & Hin_t & Hout_t).
  exists sx, sn. split; [exact Hrun_t|]. split; [exact Hrun_n|]. split.
  - intros row col Hrow Hcol. eexists. split; [by apply Hin_t|by apply Hin_n].
  - apply holds_spec in HC as (? & ? & _).
    eapply (product_unique A B numAColumns numBColumns numCRows numCColumns (memC st));
      eauto.
Qed.

Lemma tiled_equals_naive_witness :
  exists st_tiled st_naive,
    Tiled.kernel [1; 2; 3; 4] [5; 6; 7; 8] 2 2 2 2 2 2
      (Tiled.dimGrid 2 2) Tiled.dimBlock
      (State [0; 0; 0; 0] (fun _ _ => 0) (fun _ _ => 0) (fun _ _ => 0) [])
    = (Ok tt, st_tiled)
    /\ Simple.kernel [1; 2; 3; 4] [5; 6; 7; 8] 2 2 2 2 2 2
         (Simple.dimGrid 2 2) Simple.dimBlock
         (State [0; 0; 0; 0] (fun _ _ => 0) (fun _ _ => 0) (fun _ _ => 0) [])
       = (Ok tt, st_naive)
    /\ memC st_tiled = memC st_naive.
Proof.
  destruct (tiled_equals_naive [1; 2; 3; 4] [5; 6; 7; 8] 2 2 2 2 2 2
              (State [0; 0; 0; 0] (fun _ _ => 0) (fun _ _ => 0) (fun _ _ => 0) []))
    as (st_t & st_n & Hrun_t & Hrun_n & _ & Heq);
    [intros x; simpl; lia | reflexivity..|].
  exists st_t, st_n. split; [exact Hrun_t|]. split; [exact Hrun_n|exact Heq].
Defined.

(** [ceil_div n 16] is the least number of tiles that cover [n]. *)
Lemma ceil_div_least n :
  1 <= n -> n <= ceil_div n 16 * 16 /\ (ceil_div n 16 - 1) * 16 < n.
Proof.
  intros Hn. rewrite ceil_div_16 by lia.
  pose proof (Z.div_mod (n + 15) 16 ltac:(lia)).
  pose proof (Z.mod_pos_bound (n + 15) 16 ltac:(lia)). lia.
Qed.

(** C6.  For output extents [rows >= 1] and [columns >= 1] (of type [int]),
    [TILE_WIDTH] is 16, the block extent is [(TILE_WIDTH, TILE_WIDTH)], the
    grid has [ceil(rows / TILE_WIDTH)] blocks along the axis of [Row] and
    [ceil(columns / TILE_WIDTH)] blocks along the axis of [Col] (the [x]
    axis carries [Row] in the naive file and [Col] in the tiled file), every
    output coordinate [(r, c)] is the coordinate of a launched thread, and
    the expression [(n - 1) / TILE_WIDTH + 1], as the machine computes it,
    is [ceil(n / TILE_WIDTH)] for every [int] [n >= 1]. *)
Theorem launch_geometry (rows columns : Z) :
  1 <= rows <= int_max -> 1 <= columns <= int_max ->
  TILE_WIDTH = 16
  /\ Simple.dimBlock = Dim3 TILE_WIDTH TILE_WIDTH
  /\ Tiled.dimBlock = Dim3 TILE_WIDTH TILE_WIDTH
  /\ Simple.dimGrid rows columns
     = Dim3 (ceil_div rows TILE_WIDTH) (ceil_div columns TILE_WIDTH)
  /\ Tiled.dimGrid rows columns
     = Dim3 (ceil_div columns TILE_WIDTH) (ceil_div rows TILE_WIDTH)
  /\ (forall r c, 0 <= r < rows -> 0 <= c < columns ->
        exists th,
          th ∈ launch_threads (Simple.dimGrid rows columns) Simple.dimBlock
          /\ Simple.Row Simple.dimBlock th = r /\ Simple.Col Simple.dimBlock th = c)
  /\ (forall r c, 0 <= r < rows -> 0 <= c < columns ->
        exists th,
          th ∈ launch_threads (Tiled.dimGrid rows columns) Tiled.dimBlock
          /\ Tiled.Row Tiled.dimBlock th = r /\ Tiled.Col Tiled.dimBlock th = c)
  /\ (forall n, 1 <= n <= int_max ->
        uint_add (uint_div (int_add n (-1)) TILE_WIDTH) 1 = ceil_div n TILE_WIDTH).
Proof.
  intros Hr Hc. split; [reflexivity|]. split; [reflexivity|]. split; [reflexivity|].
  split; [|split; [|split; [|split]]].
  - rewrite simple_dimGrid by done. unfold TILE_WIDTH.
    by rewrite !extent_ceil by lia.
  - rewrite tiled_dimGrid by done. unfold TILE_WIDTH.
    by rewrite !extent_ceil by lia.
  - intros r c. by apply simple_cover.
  - intros r c. by apply tiled_cover.
  - intros n Hn. rewrite extent_small by done. unfold TILE_WIDTH.
    apply extent_ceil. lia.
Qed.

Lemma launch_geometry_witness :
  Simple.dimGrid 17 23 = Dim3 2 2
  /\ Tiled.dimGrid 17 23 = Dim3 2 2
  /\ exists th,
       th ∈ launch_threads (Tiled.dimGrid 17 23) Tiled.dimBlock
       /\ Tiled.Row Tiled.dimBlock th = 16 /\ Tiled.Col Tiled.dimBlock th = 22.
Proof.
  destruct (launch_geometry 17 23) as (_ & _ & _ & Hs & Ht & _ & Hcover & _);
    [unfold int_max; lia..|].
  split; [exact Hs|]. split; [exact Ht|].
  apply Hcover; lia.
Defined.

(** ** Accesses of one thread *)

Definition is_store (e : event) : bool :=
  match e.2 with
  | Store _ _ => true
  | _ => false
  end.

(** The access [e] stays inside its buffer, of the given length. *)
Definition in_buffer (lenA lenB lenC : Z) (e : event) : Prop :=
  match e.2 with
  | Load GlobalA i | Store GlobalA i => 0 <= i < lenA
  | Load GlobalB i | Store GlobalB i => 0 <= i < lenB
  | Load GlobalC i | Store GlobalC i => 0 <= i < lenC
  | _ => True
  end.

Lemma filter_loads {T} (l : list T) (f : T -> list event) :
  (forall i, i ∈ l -> List.filter is_store (f i) = []) ->
  List.filter is_store (l ≫= f) = [].
Proof.
  induction l as [|i l IH]; intros Hf; [done|].
  rewrite bind_cons, List.filter_app, Hf by left. simpl.
  apply IH. intros j Hj. apply Hf. by right.
Qed.

(** C8.  In the naive kernel, a launched thread whose coordinate
    [(Row, Col)] is within the output runs without a fault and makes exactly
    one write, to [C[Row * numCColumns + Col]]: no other cell of [C] changes
    and nothing else of the state does, but the trace.  A thread whose
    coordinate is outside of the output leaves the state as it is: no read,
    no write, no trace. *)
Theorem naive_single_write {R : Type} `{Scalar R} (A B : list R)
    (numARows numAColumns numBRows numBColumns numCRows numCColumns : Z)
    (th : thread) (st : state R) :
  holds A numARows numAColumns = true ->
  holds B numBRows numBColumns = true ->
  holds (memC st) numCRows numCColumns = true ->
  numAColumns = numBRows -> numCRows = numARows -> numCColumns = numBColumns ->
  th ∈ launch_threads (Simple.dimGrid numCRows numCColumns) Simple.dimBlock ->
  let Row := Simple.Row Simple.dimBlock th in
  let Col := Simple.Col Simple.dimBlock th in
  if (Row <? numCRows) && (Col <? numCColumns) then
    exists v evs,
      Simple.matrixMultiply A B numAColumns numBColumns numCRows numCColumns
        Simple.dimBlock th st
      = (Ok tt,
         State (<[Z.to_nat (Row * numCColumns + Col) := v]> (memC st))
               (ds_A st) (ds_B st) (Cvalue st) (trace st ++ evs))
      /\ 0 <= Row * numCColumns + Col < Z.of_nat (length (memC st))
      /\ List.filter is_store evs = [(th, Store GlobalC (Row * numCColumns + Col))]
      /\ (forall i, i <> Row * numCColumns + Col ->
            elem (<[Z.to_nat (Row * numCColumns + Col) := v]> (memC st)) i
            = elem (memC st) i)
  else
    Simple.matrixMultiply A B numAColumns numBColumns numCRows numCColumns
      Simple.dimBlock th st
    = (Ok tt, st).
Proof.
  intros HA HB HC Hshared HCrows HCcols Hth Row Col.
  destruct ((Row <? numCRows) && (Col <? numCColumns)) eqn:Hin.
  - apply andb_true_iff in Hin.
    apply holds_spec in HC as (HCr & HCc & HCint & HClen).
    assert (1 <= numCRows <= int_max /\ 1 <= numCColumns <= int_max) as [HR HCo]
      by (unfold int_max in *; nia).
    destruct (simple_coords _ _ _ HR HCo Hth) as (_ & _ & ? & ?).
    pose proof (offset_bound numCRows numCColumns Row Col ltac:(lia) ltac:(lia)).
    exists (reference_entry A B numAColumns numBColumns Row Col),
      (thread_events numAColumns numBColumns numCColumns Simple.dimBlock th).
    split; [|split; [lia|split]].
    + erewrite naive_in_bounds; eauto; lia.
    + unfold thread_events. rewrite List.filter_app, filter_loads; [done|].
      intros. reflexivity.
    + intros i Hi. rewrite elem_insert by lia.
      destruct (Z.eqb_spec i (Row * numCColumns + Col)); [lia|done].
  - by apply naive_out_of_bounds.
Qed.

Lemma naive_single_write_witness :
  let st := State [0; 0; 0; 0] (fun _ _ => 0) (fun _ _ => 0) (fun _ _ => 0) [] in
  Simple.matrixMultiply [1; 2; 3; 4] [5; 6; 7; 8] 2 2 2 2 Simple.dimBlock
    (Thread (Dim3 0 0) (Dim3 1 5)) st
  = (Ok tt, st)
  /\ exists v evs,
       Simple.matrixMultiply [1; 2; 3; 4] [5; 6; 7; 8] 2 2 2 2 Simple.dimBlock
         (Thread (Dim3 0 0) (Dim3 1 0)) st
       = (Ok tt, State (<[2%nat := v]> [0; 0; 0; 0]) (ds_A st) (ds_B st)
                       (Cvalue st) evs)
       /\ List.filter is_store evs = [(Thread (Dim3 0 0) (Dim3 1 0), Store GlobalC 2)].
Proof.
  intros st.
  assert (forall t, 0 <= dim_x t < 16 -> 0 <= dim_y t < 16 ->
            Thread (Dim3 0 0) t ∈ launch_threads (Simple.dimGrid 2 2) Simple.dimBlock)
    as Hlaunched.
  { intros t Hx Hy. replace (Simple.dimGrid 2 2) with (Dim3 1 1) by reflexivity.
    apply elem_of_launch_threads.
    split; apply elem_of_indices; simpl; unfold TILE_WIDTH; lia. }
  split.
  - apply (naive_single_write [1; 2; 3; 4] [5; 6; 7; 8] 2 2 2 2 2 2
             (Thread (Dim3 0 0) (Dim3 1 5)) st); [reflexivity..|].
    apply Hlaunched; simpl; lia.
  - pose proof (naive_single_write [1; 2; 3; 4] [5; 6; 7; 8] 2 2 2 2 2 2
                  (Thread (Dim3 0 0) (Dim3 1 0)) st
                  eq_refl eq_refl eq_refl eq_refl eq_refl eq_refl
                  (Hlaunched (Dim3 1 0) ltac:(simpl; lia) ltac:(simpl; lia))) as Hin.
    cbv zeta in Hin.
    change (Simple.Row Simple.dimBlock (Thread (Dim3 0 0) (Dim3 1 0))) with 1 in Hin.
    change (Simple.Col Simple.dimBlock (Thread (Dim3 0 0) (Dim3 1 0))) with 0 in Hin.
    simpl in Hin. destruct Hin as (v & evs & Hrun & _ & Hf & _).
    exists v, evs. split; [exact Hrun|exact Hf].
Defined.

(** C9.  Under [numAColumns = numBRows], [numCRows = numARows] and
    [numCColumns = numBColumns], a launched thread of the naive kernel that
    is within the output runs without a fault, and every index it computes
    stays inside its buffer: [Row * numAColumns + i < numARows * numAColumns],
    [Col + i * numBColumns < numBRows * numBColumns] for every [i] of the
    loop, and [Row * numCColumns + Col < numCRows * numCColumns].  The first
    equation is needed: there are operands with [numAColumns > numBRows] for
    which the kernel reads [B] past its end (and faults there). *)
Theorem naive_indices_in_bounds {R : Type} `{Scalar R} :
  (forall (A B : list R)
          (numARows numAColumns numBRows numBColumns numCRows numCColumns : Z)
          (th : thread) (st : state R),
      holds A numARows numAColumns = true ->
      holds B numBRows numBColumns = true ->
      holds (memC st) numCRows numCColumns = true ->
      numAColumns = numBRows -> numCRows = numARows -> numCColumns = numBColumns ->
      th ∈ launch_threads (Simple.dimGrid numCRows numCColumns) Simple.dimBlock ->
      let Row := Simple.Row Simple.dimBlock th in
      let Col := Simple.Col Simple.dimBlock th in
      (Row <? numCRows) && (Col <? numCColumns) = true ->
      exists st' evs,
        Simple.matrixMultiply A B numAColumns numBColumns numCRows numCColumns
          Simple.dimBlock th st = (Ok tt, st')
        /\ trace st' = trace st ++ evs
        /\ Forall (in_buffer (numARows * numAColumns) (numBRows * numBColumns)
                     (numCRows * numCColumns)) evs
        /\ (forall i, 0 <= i < numAColumns ->
              (th, Load GlobalA (Row * numAColumns + i)) ∈ evs
              /\ (th, Load GlobalB (Col + i * numBColumns)) ∈ evs)
        /\ (th, Store GlobalC (Row * numCColumns + Col)) ∈ evs)
  /\ (exists (A B : list R) (numARows numAColumns numBRows numBColumns : Z)
             (th : thread) (st : state R),
        numAColumns > numBRows
        /\ holds A numARows numAColumns = true
        /\ holds B numBRows numBColumns = true
        /\ holds (memC st) numARows numBColumns = true
        /\ th ∈ launch_threads (Simple.dimGrid numARows numBColumns) Simple.dimBlock
        /\ (Simple.Row Simple.dimBlock th <? numARows)
           && (Simple.Col Simple.dimBlock th <? numBColumns) = true
        /\ exists st' i,
             Simple.matrixMultiply A B numAColumns numBColumns numARows numBColumns
               Simple.dimBlock th st = (Fault, st')
             /\ last (trace st') = Some (th, Load GlobalB i)
             /\ numBRows * numBColumns <= i
             /\ Z.of_nat (length B) <= i).
Proof.
  split.
  - intros A B numARows numAColumns numBRows numBColumns numCRows numCColumns th st
      HA HB HC Hshared HCrows HCcols Hth Row Col Hin.
    apply andb_true_iff in Hin.
    pose proof HC as HC'. apply holds_spec in HC' as (HCr & HCc & HCint & HClen).
    assert (1 <= numCRows <= int_max /\ 1 <= numCColumns <= int_max) as [HR HCo]
      by (unfold int_max in *; nia).
    destruct (simple_coords _ _ _ HR HCo Hth) as (_ & _ & ? & ?).
    eexists _, (thread_events numAColumns numBColumns numCColumns Simple.dimBlock th).
    split; [eapply naive_in_bounds; eauto; lia|].
    split; [reflexivity|].
    unfold thread_events. split; [|split].
    + apply Forall_app. split.
      * apply Forall_bind, Forall_forall. intros i Hi. apply elem_of_seqZ in Hi.
        pose proof (offset_bound numARows numAColumns Row i ltac:(lia) ltac:(lia)).
        pose proof (offset_bound numBRows numBColumns i Col ltac:(lia) ltac:(lia)).
        repeat constructor; unfold in_buffer; simpl; fold Row Col; lia.
      * pose proof (offset_bound numCRows numCColumns Row Col ltac:(lia) ltac:(lia)).
        repeat constructor; unfold in_buffer; simpl; fold Row Col; lia.
    + intros i Hi. split; apply elem_of_app; left; apply list_elem_of_bind;
        (exists i; split; [|apply elem_of_seqZ; lia]).
      * left.
      * right. left.
    + apply elem_of_app. right. left.
  - exists [rzero; rzero], [rzero], 1, 2, 1, 1, (Thread (Dim3 0 0) (Dim3 0 0)),
      (State [rzero] (fun _ _ => rzero) (fun _ _ => rzero) (fun _ _ => rzero) []).
    split; [lia|]. do 3 (split; [reflexivity|]).
    split.
    { replace (Simple.dimGrid 1 1) with (Dim3 1 1) by reflexivity.
      apply elem_of_launch_threads.
      split; apply elem_of_indices; simpl; unfold TILE_WIDTH; lia. }
    split; [reflexivity|].
    eexists _, 1. split; [reflexivity|]. split; [reflexivity|]. simpl. lia.
Qed.

Lemma naive_indices_in_bounds_witness :
  exists st' evs,
    Simple.matrixMultiply [1; 2; 3; 4] [5; 6; 7; 8] 2 2 2 2 Simple.dimBlock
      (Thread (Dim3 0 0) (Dim3 1 0))
      (State [0; 0; 0; 0] (fun _ _ => 0) (fun _ _ => 0) (fun _ _ => 0) [])
    = (Ok tt, st')
    /\ trace st' = evs
    /\ Forall (in_buffer 4 4 4) evs.
Proof.
  destruct (proj1 naive_indices_in_bounds [1; 2; 3; 4] [5; 6; 7; 8] 2 2 2 2 2 2
              (Thread (Dim3 0 0) (Dim3 1 0))
              (State [0; 0; 0; 0] (fun _ _ => 0) (fun _ _ => 0) (fun _ _ => 0) []))
    as (st' & evs & Hrun & Htr & Hall & _); [reflexivity..| |reflexivity|].
  { replace (Simple.dimGrid 2 2) with (Dim3 1 1) by reflexivity.
    apply elem_of_launch_threads.
    split; apply elem_of_indices; simpl; unfold TILE_WIDTH; lia. }
  exists st', evs. split; [exact Hrun|]. split; [exact Htr|exact Hall].
Defined.

(** ** Counting accesses *)

(** The number of events of [l] that satisfy [p]. *)
Definition count (p : event -> bool) (l : list event) : nat :=
  length (List.filter p l).

(** The event is access [a] made by thread [th]. *)
Definition performs (th : thread) (a : access) (e : event) : bool :=
  bool_decide (e = (th, a)).

Definition is_C_store (e : event) : bool :=
  match e.2 with
  | Store GlobalC _ => true
  | _ => false
  end.

Lemma count_app p l1 l2 : count p (l1 ++ l2) = (count p l1 + count p l2)%nat.
Proof. unfold count. by rewrite List.filter_app, length_app. Qed.

Lemma count_bind_const {T} p (l : list T) (f : T -> list event) c :
  (forall i, i ∈ l -> count p (f i) = c) ->
  count p (l ≫= f) = (length l * c)%nat.
Proof.
  induction l as [|i l IH]; intros Hf; [done|].
  rewrite bind_cons, count_app, Hf by left. simpl.
  rewrite IH; [done|]. intros j Hj. apply Hf. by right.
Qed.

Lemma count_bind_one {T} `{EqDecision T} p (l : list T) (f : T -> list event) x :
  NoDup l -> x ∈ l ->
  (forall i, i ∈ l -> i <> x -> count p (f i) = 0%nat) ->
  count p (l ≫= f) = count p (f x).
Proof.
  induction l as [|i l IH]; intros Hnd Hx Hf.
  - by apply elem_of_nil in Hx.
  - apply NoDup_cons in Hnd as [Hi Hnd]. rewrite bind_cons, count_app.
    destruct (decide (i = x)) as [->|Hne].
    + rewrite (count_bind_const p l f 0); [lia|].
      intros j Hj. apply Hf; [by right|]. intros ->. done.
    + rewrite Hf by (done || left). simpl.
      apply elem_of_cons in Hx as [->|Hx]; [done|].
      apply IH; [done..|]. intros j Hj. apply Hf. by right.
Qed.

Lemma count_cons_eq th a (l : list event) :
  count (performs th a) ((th, a) :: l) = S (count (performs th a) l).
Proof. unfold count, performs. simpl. by rewrite bool_decide_eq_true_2. Qed.

Lemma count_cons_ne th a e (l : list event) :
  e <> (th, a) -> count (performs th a) (e :: l) = count (performs th a) l.
Proof. intros He. unfold count, performs. simpl. by rewrite bool_decide_eq_false_2. Qed.

Ltac count_events :=
  repeat (rewrite count_cons_eq || rewrite count_cons_ne by congruence);
  try reflexivity.

Lemma count_other th a th' (l : list event) :
  Forall (fun e => e.1 = th') l -> th' <> th -> count (performs th a) l = 0%nat.
Proof.
  intros Hl Hne. unfold count. induction Hl as [|e l He Hl IH]; [done|].
  simpl. unfold performs at 1. rewrite bool_decide_eq_false_2; [done|].
  intros ->. simpl in He. congruence.
Qed.

Lemma Forall_bind_own {T} (P : event -> Prop) (l : list T) (f : T -> list event) :
  (forall i, i ∈ l -> Forall P (f i)) -> Forall P (l ≫= f).
Proof. intros Hf. apply Forall_bind, Forall_forall. intros i Hi. by apply Hf. Qed.

Section TiledTrace.
Variables (numAColumns numCRows numCColumns : Z).

Abbreviation load_events' := (load_events numAColumns numCRows numCColumns).
Abbreviation write_events' := (write_events numCRows numCColumns).
Abbreviation tile_events' := (tile_events numAColumns numCRows numCColumns).
Abbreviation block_events' := (block_events numAColumns numCRows numCColumns).
Abbreviation threads' := (Tiled.threads Tiled.dimBlock).

(** Every event of a thread is its own; the events of a block are those
    of its threads. *)
Lemma load_events_own t th' : Forall (fun e => e.1 = th') (load_events' t th').
Proof.
  unfold load_events. repeat destruct (_ && _); repeat constructor.
Qed.

Lemma accumulate_events_own th' : Forall (fun e => e.1 = th') (accumulate_events th').
Proof.
  unfold accumulate_events. apply Forall_app. split; [|repeat constructor].
  apply Forall_bind_own. intros i _. repeat constructor.
Qed.

Lemma write_events_own th' : Forall (fun e => e.1 = th') (write_events' th').
Proof. unfold write_events. destruct (_ && _); repeat constructor. Qed.

Lemma block_events_own b :
  Forall (fun e => e.1 ∈ threads' b) (block_events' b).
Proof.
  assert (forall f : thread -> list event,
            (forall th', Forall (fun e => e.1 = th') (f th')) ->
            Forall (fun e => e.1 ∈ threads' b) (threads' b ≫= f)) as Hown.
  { intros f Hf. apply Forall_bind_own. intros th' Hth'.
    eapply Forall_impl; [apply Hf|]. simpl. by intros e ->. }
  unfold block_events. apply Forall_app. split.
  - apply Forall_bind_own. intros t _. unfold tile_events. apply Forall_app.
    split; apply Hown; [apply load_events_own|apply accumulate_events_own].
  - apply Hown, write_events_own.
Qed.

(** Per thread and per tile: one store into each scratch tile and two
    barriers. *)
Lemma count_load_events t th :
  count (performs th (Store SharedA (Tiled.ty th * TILE_WIDTH + Tiled.tx th)))
    (load_events' t th) = 1%nat
  /\ count (performs th (Store SharedB (Tiled.ty th * TILE_WIDTH + Tiled.tx th)))
       (load_events' t th) = 1%nat
  /\ count (performs th Barrier) (load_events' t th) = 1%nat.
Proof.
  unfold load_events.
  repeat destruct (_ && _); simpl; (split; [|split]); count_events.
Qed.

Lemma count_accumulate_events th :
  (forall s i, count (performs th (Store s i)) (accumulate_events th) = 0%nat)
  /\ count (performs th Barrier) (accumulate_events th) = 1%nat.
Proof.
  unfold accumulate_events. split; [intros s i|]; rewrite count_app.
  - rewrite (count_bind_const _ _ _ 0).
    + rewrite Nat.mul_0_r. count_events.
    + intros j _. unfold accumulate_step_events. count_events.
  - rewrite (count_bind_const _ _ _ 0).
    + rewrite Nat.mul_0_r. count_events.
    + intros j _. unfold accumulate_step_events. count_events.
Qed.

Lemma count_write_events th s i :
  s <> GlobalC ->
  count (performs th (Store s i)) (write_events' th) = 0%nat
  /\ count (performs th Barrier) (write_events' th) = 0%nat.
Proof.
  intros Hs. unfold write_events.
  destruct (_ && _); split; count_events.
Qed.

Lemma count_threads (f : thread -> list event) b th a :
  (forall th', Forall (fun e => e.1 = th') (f th')) ->
  th ∈ threads' b ->
  count (performs th a) (threads' b ≫= f) = count (performs th a) (f th).
Proof.
  intros Hf Hth. apply count_bind_one; [|done|].
  - unfold Tiled.threads. apply NoDup_fmap_2; [|apply NoDup_indices].
    intros t t'. congruence.
  - intros th' _ Hne. by apply (count_other th a th').
Qed.

Lemma count_block_events th :
  th ∈ threads' (blockIdx th) ->
  let cell := Tiled.ty th * TILE_WIDTH + Tiled.tx th in
  let tiles := Z.to_nat (Tiled.tile_count numAColumns) in
  count (performs th (Store SharedA cell)) (block_events' (blockIdx th)) = tiles
  /\ count (performs th (Store SharedB cell)) (block_events' (blockIdx th)) = tiles
  /\ count (performs th Barrier) (block_events' (blockIdx th)) = (2 * tiles)%nat.
Proof.
  intros Hth cell tiles. unfold block_events.
  destruct (count_accumulate_events th) as [Hacc_s Hacc_b].
  assert (forall a n,
            (forall t, count (performs th a) (load_events' t th) = n) ->
            count (performs th a)
              (seqZ 0 (Tiled.tile_count numAColumns) ≫= tile_events' (blockIdx th))
            = (tiles * (n + count (performs th a) (accumulate_events th)))%nat)
    as Htiles.
  { intros a n Hn. rewrite (count_bind_const _ _ _
      (n + count (performs th a) (accumulate_events th))).
    - by rewrite length_seqZ.
    - intros t _. unfold tile_events. rewrite count_app.
      rewrite (count_threads _ _ _ _ (load_events_own t) Hth), Hn.
      by rewrite (count_threads _ _ _ _ accumulate_events_own Hth). }
  rewrite !count_app, !(count_threads _ _ _ _ write_events_own Hth).
  destruct (count_write_events th SharedA cell ltac:(done)) as [-> Hb].
  destruct (count_write_events th SharedB cell ltac:(done)) as [-> _].
  rewrite Hb.
  rewrite (Htiles _ 1%nat) by (intros t; apply (count_load_events t th)).
  rewrite (Htiles _ 1%nat) by (intros t; apply (count_load_events t th)).
  rewrite (Htiles _ 1%nat) by (intros t; apply (count_load_events t th)).
  rewrite !Hacc_s, Hacc_b. lia.
Qed.

(** A launched thread takes part in every tile of its block, and in no
    other block. *)
Lemma count_launch_events gridDim th :
  th ∈ launch_threads gridDim Tiled.dimBlock ->
  let cell := Tiled.ty th * TILE_WIDTH + Tiled.tx th in
  let tiles := Z.to_nat (Tiled.tile_count numAColumns) in
  let evs := indices gridDim ≫= block_events' in
  count (performs th (Store SharedA cell)) evs = tiles
  /\ count (performs th (Store SharedB cell)) evs = tiles
  /\ count (performs th Barrier) evs = (2 * tiles)%nat.
Proof.
  intros Hth cell tiles evs.
  apply elem_of_launch_threads in Hth as [Hb Ht].
  assert (th ∈ threads' (blockIdx th)) as Hth.
  { unfold Tiled.threads. apply list_elem_of_fmap. exists (threadIdx th).
    by destruct th. }
  assert (forall a, count (performs th a) evs
                    = count (performs th a) (block_events' (blockIdx th))) as Hone.
  { intros a. apply count_bind_one; [apply NoDup_indices|done|].
    intros b' _ Hne. unfold count.
    pose proof (block_events_own b') as Hown.
    induction Hown as [|e l He Hl IH]; [done|]. simpl.
    unfold performs at 1. rewrite bool_decide_eq_false_2; [done|].
    intros ->. simpl in He. unfold Tiled.threads in He.
    apply list_elem_of_fmap in He as (t' & E & _). apply Hne. by rewrite E. }
  rewrite !Hone. by apply count_block_events.
Qed.

(** The only stores to [C] are those of the write-back phase. *)
Lemma C_stores_guarded gridDim th i :
  (th, Store GlobalC i) ∈ indices gridDim ≫= block_events' ->
  th ∈ launch_threads gridDim Tiled.dimBlock
  /\ tiled_inb numCRows numCColumns th = true
  /\ i = tiled_idx numCColumns th.
Proof.
  intros He. apply list_elem_of_bind in He as (b & He & Hb).
  unfold block_events in He. apply elem_of_app in He as [He|He].
  - exfalso. apply list_elem_of_bind in He as (t & He & _).
    assert (forall f : thread -> list event,
              (forall th', Forall (fun e => is_C_store e = false) (f th')) ->
              (th, Store GlobalC i) ∉ threads' b ≫= f) as Hno.
    { intros f Hf Hin. apply list_elem_of_bind in Hin as (th' & Hin & _).
      pose proof (Hf th') as Hall. rewrite Forall_forall in Hall.
      by specialize (Hall _ Hin). }
    unfold tile_events in He. apply elem_of_app in He as [He|He]; revert He; apply Hno.
    + intros th'. unfold load_events. repeat destruct (_ && _); repeat constructor.
    + intros th'. unfold accumulate_events. apply Forall_app.
      split; [|repeat constructor].
      apply Forall_bind_own. intros j _. repeat constructor.
  - apply list_elem_of_bind in He as (th' & He & Hth').
    unfold write_events in He. unfold tiled_inb, tiled_idx.
    destruct ((Tiled.Row Tiled.dimBlock th' <? numCRows)
              && (Tiled.Col Tiled.dimBlock th' <? numCColumns)) eqn:E;
      [|by apply elem_of_nil in He].
    apply list_elem_of_singleton in He. injection He as -> ->.
    split; [|split; [exact E|reflexivity]]. unfold Tiled.threads in Hth'.
    apply list_elem_of_fmap in Hth' as (t' & -> & Ht').
    by apply elem_of_launch_threads.
Qed.

End TiledTrace.

(** C10.  In a launch of the tiled kernel, every launched thread, whether
    its coordinate [(Row, Col)] is within the output or not, stores once
    into its cell of each scratch tile and passes two barriers in every one
    of the [tile_count] iterations (and there is at least one iteration).
    [C] is written only by threads with [Row < numCRows] and
    [Col < numCColumns], each at [Row * numCColumns + Col]; a thread out of
    bounds writes nothing to [C]; every cell of [C] that is not the cell of
    an output coordinate is left as it was. *)
Theorem tiled_guarded_write {R : Type} `{Scalar R} (A B : list R)
    (numARows numAColumns numBRows numBColumns numCRows numCColumns : Z)
    (st : state R) :
  holds A numARows numAColumns = true ->
  holds B numBRows numBColumns = true ->
  holds (memC st) numCRows numCColumns = true ->
  numAColumns = numBRows -> numCRows = numARows -> numCColumns = numBColumns ->
  exists st' evs,
    Tiled.kernel A B numARows numAColumns numBRows numBColumns numCRows numCColumns
      (Tiled.dimGrid numCRows numCColumns) Tiled.dimBlock st = (Ok tt, st')
    /\ trace st' = trace st ++ evs
    /\ (1 <= Z.to_nat (Tiled.tile_count numAColumns))%nat
    /\ (forall th,
          th ∈ launch_threads (Tiled.dimGrid numCRows numCColumns) Tiled.dimBlock ->
          let cell := Tiled.ty th * TILE_WIDTH + Tiled.tx th in
          let tiles := Z.to_nat (Tiled.tile_count numAColumns) in
          count (performs th (Store SharedA cell)) evs = tiles
          /\ count (performs th (Store SharedB cell)) evs = tiles
          /\ count (performs th Barrier) evs = (2 * tiles)%nat
          /\ ((Tiled.Row Tiled.dimBlock th <? numCRows)
              && (Tiled.Col Tiled.dimBlock th <? numCColumns) = false ->
              forall i, (th, Store GlobalC i) ∉ evs))
    /\ (forall th i,
          (th, Store GlobalC i) ∈ evs ->
          0 <= Tiled.Row Tiled.dimBlock th < numCRows
          /\ 0 <= Tiled.Col Tiled.dimBlock th < numCColumns
          /\ i = Tiled.Row Tiled.dimBlock th * numCColumns + Tiled.Col Tiled.dimBlock th)
    /\ (forall i,
          (forall row col, 0 <= row < numCRows -> 0 <= col < numCColumns ->
             i <> row * numCColumns + col) ->
          elem (memC st') i = elem (memC st) i).
Proof.
  intros HA HB HC Hshared HCrows HCcols.
  destruct (tiled_launch_fills A B numARows numAColumns numBRows numBColumns
              numCRows numCColumns HA HB Hshared HCrows HCcols st HC)
    as (st' & Hrun & (_ & _ & Hframe) & Htr).
  pose proof (thread_facts A B numARows numAColumns numBRows numBColumns
                numCRows numCColumns HA HB Hshared HCrows HCcols) as Hfacts.
  exists st', (indices (Tiled.dimGrid numCRows numCColumns)
               ≫= block_events numAColumns numCRows numCColumns).
  split; [exact Hrun|]. split; [exact Htr|]. split; [|split; [|split]].
  - rewrite (tiles_eq A B numARows numAColumns numBRows numBColumns
               numCRows numCColumns HA HB Hshared HCrows HCcols).
    destruct (dims_facts A B numARows numAColumns numBRows numBColumns
                numCRows numCColumns HA HB Hshared HCrows HCcols) as (_ & _ & Hn & _).
    pose proof (extent_bound numAColumns Hn). lia.
  - intros th Hth cell tiles.
    destruct (count_launch_events numAColumns numCRows numCColumns _ th Hth)
      as (HcA & HcB & Hbar).
    do 3 (split; [assumption|]).
    intros Hout i Hi.
    apply C_stores_guarded in Hi as (_ & Hin & _).
    unfold tiled_inb in Hin. congruence.
  - intros th i Hi. apply C_stores_guarded in Hi as (Hth & Hin & ->).
    destruct (Hfacts th Hth) as (? & ? & _).
    unfold tiled_inb in Hin. apply andb_true_iff in Hin. unfold tiled_idx.
    repeat split; lia.
  - intros i Hi. apply Hframe. intros th Hth Hin.
    destruct (Hfacts th Hth) as (? & ? & _).
    unfold tiled_inb in Hin. apply andb_true_iff in Hin. unfold tiled_idx.
    intros E. apply (Hi (Tiled.Row Tiled.dimBlock th) (Tiled.Col Tiled.dimBlock th));
      lia.
Qed.

Lemma tiled_guarded_write_witness :
  let out := Thread (Dim3 0 0) (Dim3 5 3) in
  exists st' evs,
    Tiled.kernel [1; 2; 3; 4] [5; 6; 7; 8] 2 2 2 2 2 2
      (Tiled.dimGrid 2 2) Tiled.dimBlock
      (State [0; 0; 0; 0; 9] (fun _ _ => 0) (fun _ _ => 0) (fun _ _ => 0) [])
    = (Ok tt, st')
    /\ trace st' = evs
    /\ count (performs out (Store SharedA 53)) evs = 1%nat
    /\ count (performs out Barrier) evs = 2%nat
    /\ (forall i, (out, Store GlobalC i) ∉ evs)
    /\ elem (memC st') 4 = Some 9.
Proof.
  intros out.
  destruct (tiled_guarded_write [1; 2; 3; 4] [5; 6; 7; 8] 2 2 2 2 2 2
              (State [0; 0; 0; 0; 9] (fun _ _ => 0) (fun _ _ => 0) (fun _ _ => 0) []))
    as (st' & evs & Hrun & Htr & _ & Hpart & _ & Hframe); [reflexivity..|].
  assert (out ∈ launch_threads (Tiled.dimGrid 2 2) Tiled.dimBlock) as Hout.
  { replace (Tiled.dimGrid 2 2) with (Dim3 1 1) by reflexivity.
    apply elem_of_launch_threads.
    split; apply elem_of_indices; simpl; unfold TILE_WIDTH; lia. }
  destruct (Hpart out Hout) as (HcA & _ & Hbar & Hnone).
  exists st', evs. split; [exact Hrun|]. split; [exact Htr|].
  split; [exact HcA|]. split; [exact Hbar|]. split; [exact (Hnone eq_refl)|].
  rewrite Hframe; [reflexivity|]. intros row col Hrow Hcol. lia.
Defined.

(** C3.  For valid operands of any extents, multiples of [TILE_WIDTH] or
    not, and over an arithmetic in which adding a product of two zeros
    changes nothing: in every tile iteration [t], a launched thread stores
    into [ds_A[ty][tx]] the element [A[Row, t * TILE_WIDTH + tx]] when
    [Row < numCRows] and [t * TILE_WIDTH + tx < numAColumns], and zero
    otherwise; into [ds_B[ty][tx]] the element [B[t * TILE_WIDTH + ty, Col]]
    when [Col < numCColumns] and [t * TILE_WIDTH + ty < numAColumns], and
    zero otherwise; and the launch leaves at every output coordinate the
    reference sum, to which the padding adds nothing. *)
Theorem tiled_zero_padding {R : Type} `{Scalar R} (A B : list R)
    (numARows numAColumns numBRows numBColumns numCRows numCColumns : Z)
    (st : state R) :
  (forall x : R, radd x (rmul rzero rzero) = x) ->
  holds A numARows numAColumns = true ->
  holds B numBRows numBColumns = true ->
  holds (memC st) numCRows numCColumns = true ->
  numAColumns = numBRows -> numCRows = numARows -> numCColumns = numBColumns ->
  (forall t th (s : state R),
      th ∈ launch_threads (Tiled.dimGrid numCRows numCColumns) Tiled.dimBlock ->
      0 <= t < Tiled.tile_count numAColumns ->
      let Row := Tiled.Row Tiled.dimBlock th in
      let Col := Tiled.Col Tiled.dimBlock th in
      exists s',
        Tiled.load_tiles A B numAColumns numCRows numCColumns Tiled.dimBlock t th s
        = (Ok tt, s')
        /\ ds_A s' (Tiled.ty th) (Tiled.tx th)
           = (if (Row <? numCRows) && (t * TILE_WIDTH + Tiled.tx th <? numAColumns)
              then entry A numAColumns Row (t * TILE_WIDTH + Tiled.tx th)
              else rzero)
        /\ ds_B s' (Tiled.ty th) (Tiled.tx th)
           = (if (Col <? numCColumns) && (t * TILE_WIDTH + Tiled.ty th <? numAColumns)
              then entry B numBColumns (t * TILE_WIDTH + Tiled.ty th) Col
              else rzero))
  /\ exists st',
       Tiled.kernel A B numARows numAColumns numBRows numBColumns numCRows numCColumns
         (Tiled.dimGrid numCRows numCColumns) Tiled.dimBlock st = (Ok tt, st')
       /\ (forall row col, 0 <= row < numCRows -> 0 <= col < numCColumns ->
             elem (memC st') (row * numCColumns + col)
             = Some (reference_entry A B numAColumns numBColumns row col)).
Proof.
  intros Hpad HA HB HC Hshared HCrows HCcols. split.
  - intros t th s Hth Ht Row Col. eexists. split.
    + apply (load_tiles_Ok A B numARows numAColumns numBRows numBColumns
               numCRows numCColumns HA HB Hshared HCrows HCcols t th s Hth Ht).
    + simpl. rewrite !upd2_eq. unfold loadA, loadB. rewrite HCcols. done.
  - destruct (tiled_launch_reference A B numARows numAColumns numBRows numBColumns
                numCRows numCColumns HA HB Hshared HCrows HCcols Hpad st HC)
      as (st' & Hrun & _ & Hin & _).
    exists st'. split; [exact Hrun|exact Hin].
Qed.

Lemma tiled_zero_padding_witness :
  let A := seqZ 1 (17 * 19) in
  let B := seqZ 1 (19 * 23) in
  let st := State (replicate 391 0) (fun _ _ => 0) (fun _ _ => 0) (fun _ _ => 0) [] in
  exists st',
    Tiled.kernel A B 17 19 19 23 17 23 (Tiled.dimGrid 17 23) Tiled.dimBlock st
    = (Ok tt, st')
    /\ elem (memC st') (16 * 23 + 22) = Some (reference_entry A B 19 23 16 22).
Proof.
  intros A B st.
  destruct (tiled_zero_padding A B 17 19 19 23 17 23 st) as (_ & st' & Hrun & Hin);
    [intros x; simpl; lia | reflexivity..|].
  exists st'. split; [exact Hrun|]. apply Hin; lia.
Defined.

(** ** Multiplying by the identity *)

Section Identity.
Context {R : Type} `{Scalar R}.
Hypothesis add_mul_zero : forall x a : R, radd x (rmul a rzero) = x.
Hypothesis zero_add_mul_one : forall a : R, radd rzero (rmul a rone) = a.

Lemma holds_identity n :
  1 <= n -> n * n <= int_max -> holds (identity n : list R) n n = true.
Proof.
  intros Hn Hint. unfold holds, identity.
  rewrite length_tabulate by lia.
  repeat (apply andb_true_iff; split); lia.
Qed.

Lemma entry_identity n k c :
  0 <= k < n -> 0 <= c < n ->
  entry (identity n) n k c = if k =? c then rone else rzero.
Proof.
  intros Hk Hc. unfold entry, identity. by rewrite elem_tabulate.
Qed.

Lemma reference_identity (A : list R) n row col :
  0 <= col < n ->
  reference_entry A (identity n) n n row col = entry A n row col.
Proof.
  intros Hcol. unfold reference_entry.
  replace (seqZ 0 n) with (seqZ 0 (col + (1 + (n - col - 1)))) by (f_equal; lia).
  rewrite seqZ_app, seqZ_app, !fold_left_app by lia.
  rewrite (fold_left_id _ (seqZ 0 col)).
  2: { intros a k Hk. apply elem_of_seqZ in Hk.
       rewrite entry_identity by lia.
       destruct (Z.eqb_spec k col); [lia|]. apply add_mul_zero. }
  rewrite fold_left_id.
  - simpl. rewrite entry_identity by lia. rewrite Z.eqb_refl.
    apply zero_add_mul_one.
  - intros a k Hk. apply elem_of_seqZ in Hk.
    rewrite entry_identity by lia.
    destruct (Z.eqb_spec k col); [lia|]. apply add_mul_zero.
Qed.

End Identity.

(** C7.  Over an arithmetic with [x + a * 0 = x] and [0 + a * 1 = a], for
    every [m x n] matrix [A], the product of [A] and the [n x n] identity
    matrix, under the tiled kernel and under the naive kernel, has at every
    coordinate the element of [A] at that coordinate; when the buffers have
    exactly [m * n] cells, the output is [A]. *)
Theorem identity_product {R : Type} `{Scalar R} (A : list R) (m n : Z)
    (st : state R) :
  (forall x a : R, radd x (rmul a rzero) = x) ->
  (forall a : R, radd rzero (rmul a rone) = a) ->
  holds A m n = true ->
  n * n <= int_max ->
  holds (memC st) m n = true ->
  exists st_tiled st_naive,
    Tiled.kernel A (identity n) m n n n m n (Tiled.dimGrid m n) Tiled.dimBlock st
    = (Ok tt, st_tiled)
    /\ Simple.kernel A (identity n) m n n n m n (Simple.dimGrid m n) Simple.dimBlock st
       = (Ok tt, st_naive)
    /\ (forall row col, 0 <= row < m -> 0 <= col < n ->
          elem (memC st_tiled) (row * n + col) = Some (entry A n row col)
          /\ elem (memC st_naive) (row * n + col) = Some (entry A n row col))
    /\ (Z.of_nat (length A) = m * n -> Z.of_nat (length (memC st)) = m * n ->
        memC st_tiled = A /\ memC st_naive = A).
Proof.
  intros L1 L2 HA Hint HC.
  pose proof HA as HA'. apply holds_spec in HA' as (Hm & Hn & _ & _).
  pose proof (holds_identity n Hn Hint) as HI.
  destruct (simple_launch_reference A (identity n) m n n n m n
              HA HI eq_refl eq_refl eq_refl st HC)
    as (sn & Hrun_n & Hlen_n & Hin_n & _).
  destruct (tiled_launch_reference A (identity n) m n n n m n
              HA HI eq_refl eq_refl eq_refl (fun x => L1 x rzero) st HC)
    as (sx & Hrun_t & Hlen_t & Hin_t & _).
  exists sx, sn. split; [exact Hrun_t|]. split; [exact Hrun_n|].
  assert (forall row col, 0 <= row < m -> 0 <= col < n ->
            elem (memC sx) (row * n + col) = Some (entry A n row col)
            /\ elem (memC sn) (row * n + col) = Some (entry A n row col)) as Hin.
  { intros row col Hrow Hcol.
    rewrite Hin_t, Hin_n by done. by rewrite reference_identity. }
  split; [exact Hin|].
  intros HlenA HlenC.
  assert (forall i, 0 <= i < m * n -> elem A i = Some (entry A n (i / n) (i mod n)))
    as HelA.
  { intros i Hi. destruct (offset_coords m n i Hn Hi) as (_ & _ & E).
    unfold entry. rewrite E. apply elem_Some. lia. }
  split; apply list_eq_elem; try lia; intros i Hi.
  - destruct (offset_coords m n i Hn ltac:(lia)) as (Hro & Hco & E).
    rewrite HelA by lia. rewrite <- E at 1. by apply Hin.
  - destruct (offset_coords m n i Hn ltac:(lia)) as (Hro & Hco & E).
    rewrite HelA by lia. rewrite <- E at 1. by apply Hin.
Qed.

Lemma identity_product_witness :
  let st := State [0; 0; 0; 0; 0; 0] (fun _ _ => 0) (fun _ _ => 0) (fun _ _ => 0) [] in
  exists st_tiled st_naive,
    Tiled.kernel [1; 2; 3; 4; 5; 6] (identity 3) 2 3 3 3 2 3
      (Tiled.dimGrid 2 3) Tiled.dimBlock st = (Ok tt, st_tiled)
    /\ Simple.kernel [1; 2; 3; 4; 5; 6] (identity 3) 2 3 3 3 2 3
         (Simple.dimGrid 2 3) Simple.dimBlock st = (Ok tt, st_naive)
    /\ memC st_tiled = [1; 2; 3; 4; 5; 6]
    /\ memC st_naive = [1; 2; 3; 4; 5; 6].
Proof.
  intros st.
  destruct (identity_product [1; 2; 3; 4; 5; 6] 2 3 st)
    as (st_t & st_n & Hrun_t & Hrun_n & _ & Hall);
    [intros x a; simpl; lia | intros a; simpl; lia | reflexivity
    | unfold int_max; lia | reflexivity |].
  destruct (Hall eq_refl eq_refl) as [Ht Hn].
  exists st_t, st_n. split; [exact Hrun_t|]. split; [exact Hrun_n|].
  split; [exact Ht|exact Hn].
Defined.

(** ** The host driver *)

(** The device calls of a complete run of [main], in order. *)
Definition call_sequence (sizeA sizeB sizeC : Z) (grid block : dim3) : list api_call :=
  [Call_cudaMalloc sizeA; Call_cudaMalloc sizeB; Call_cudaMalloc sizeC;
   Call_cudaMemcpy cudaMemcpyHostToDevice 1 sizeA;
   Call_cudaMemcpy cudaMemcpyHostToDevice 2 sizeB;
   Call_launch grid block; Call_cudaDeviceSynchronize;
   Call_cudaMemcpy cudaMemcpyDeviceToHost 3 sizeC;
   Call_cudaFree 1; Call_cudaFree 2; Call_cudaFree 3].

(** The error code the runtime gives to its [i]-th call. *)
Definition nth_outcome (script : list cudaError_t) (i : nat) : cudaError_t :=
  default cudaSuccess (script !! i).
Arguments nth_outcome : simpl never.

(** [int sizeX = rows * columns * sizeof(float);] *)
Definition byte_size (rows columns : Z) : Z := to_int (int_mul rows columns * 4).

Section HostFacts.
Context {R : Type} `{Scalar R}.
Variable uninit : Z -> list R.
Variable dimGrid : Z -> Z -> dim3.
Variable dimBlock : dim3.
Variable kernel : list R -> list R -> Z -> Z -> Z -> Z -> Z -> Z ->
                  dim3 -> dim3 -> M R unit.
Variable junk : Z -> Z -> R.

Abbreviation main' := (main_body uninit dimGrid dimBlock kernel junk).

(** A statement only adds to the log of device calls. *)
Definition grows {X} (m : H_ R X) : Prop :=
  forall w, calls w `prefix_of` calls (snd (m w)).

Definition stmt_grows {X} (stmt : world R -> cudaError_t * X * world R) : Prop :=
  forall w, calls w `prefix_of` calls (snd (stmt w)).

Lemma device_call_grows c (w : world R) :
  calls (snd (device_call c w)) = calls w ++ [c].
Proof. unfold device_call. by destruct (outcomes w). Qed.

Lemma grows_hbind {X Y} (m : H_ R X) (k : X -> H_ R Y) :
  grows m -> (forall x, grows (k x)) -> grows (hbind m k).
Proof.
  intros Hm Hk w. unfold hbind. specialize (Hm w).
  destruct (m w) as [[x|code|] w1]; simpl in *; [|done..].
  etrans; [exact Hm|apply Hk].
Qed.

Lemma grows_wbCheck {X} (stmt : world R -> cudaError_t * X * world R) :
  stmt_grows stmt -> grows (wbCheck stmt).
Proof.
  intros Hs w. unfold wbCheck. specialize (Hs w).
  by destruct (stmt w) as [[[] x] w1].
Qed.

Lemma cudaMalloc_grows size : stmt_grows (cudaMalloc uninit size).
Proof.
  intros w. unfold cudaMalloc.
  pose proof (device_call_grows (Call_cudaMalloc size) w) as Hc.
  destruct (device_call _ w) as [[] w1]; simpl in *; rewrite Hc; by eexists.
Qed.

Lemma cudaMemcpy_to_device_grows ptr (host : list R) size :
  stmt_grows (cudaMemcpy_to_device ptr host size).
Proof.
  intros w. unfold cudaMemcpy_to_device.
  pose proof (device_call_grows (Call_cudaMemcpy cudaMemcpyHostToDevice ptr size) w)
    as Hc.
  destruct (device_call _ w) as [[] w1]; simpl in *;
    [destruct (heap w1 !! ptr)|]; simpl; rewrite Hc; by eexists.
Qed.

Lemma cudaMemcpy_to_host_grows (host : list R) ptr size :
  stmt_grows (cudaMemcpy_to_host host ptr size).
Proof.
  intros w. unfold cudaMemcpy_to_host.
  pose proof (device_call_grows (Call_cudaMemcpy cudaMemcpyDeviceToHost ptr size) w)
    as Hc.
  destruct (device_call _ w) as [[] w1]; simpl in *;
    [destruct (heap w1 !! ptr)|]; simpl; rewrite Hc; by eexists.
Qed.

Lemma cudaFree_grows ptr : stmt_grows (cudaFree (R := R) ptr).
Proof.
  intros w. unfold cudaFree.
  pose proof (device_call_grows (Call_cudaFree ptr) w) as Hc.
  destruct (device_call _ w) as [[] w1]; simpl in *; rewrite Hc; by eexists.
Qed.

Lemma launch_kernel_grows grid block dA dB dC n1 n2 n3 n4 n5 n6 :
  grows (launch_kernel kernel junk grid block dA dB dC n1 n2 n3 n4 n5 n6).
Proof.
  intros w. unfold launch_kernel.
  pose proof (device_call_grows (Call_launch grid block) w) as Hc.
  destruct (device_call _ w) as [[] w1]; simpl in *; [|rewrite Hc; by eexists].
  destruct (heap w1 !! dA), (heap w1 !! dB), (heap w1 !! dC);
    try (simpl; rewrite Hc; by eexists).
  destruct (kernel _ _ _ _ _ _ _ _ _ _ _) as [[[]|] st];
    simpl; rewrite Hc; by eexists.
Qed.

Lemma cudaDeviceSynchronize_grows : grows (cudaDeviceSynchronize (R := R)).
Proof.
  intros w. unfold cudaDeviceSynchronize. simpl.
  rewrite device_call_grows. by eexists.
Qed.

(** The part of [main] after the three allocations. *)
Definition after_allocations (hostA : list R) (numARows numAColumns : Z)
    (hostB : list R) (numBRows numBColumns : Z) (deviceA deviceB deviceC : Z)
    : H_ R unit :=
  let numCRows := numARows in
  let numCColumns := numBColumns in
  let sizeA := to_int (int_mul numARows numAColumns * 4) in
  let sizeB := to_int (int_mul numBRows numBColumns * 4) in
  let sizeC := to_int (int_mul numCRows numCColumns * 4) in
  let hostC := uninit sizeC in
  hbind (wbCheck (cudaMemcpy_to_device deviceA hostA sizeA)) (fun _ =>
  hbind (wbCheck (cudaMemcpy_to_device deviceB hostB sizeB)) (fun _ =>
  hbind (launch_kernel kernel junk (dimGrid numCRows numCColumns) dimBlock
           deviceA deviceB deviceC
           numARows numAColumns numBRows numBColumns numCRows numCColumns)
        (fun _ =>
  hbind cudaDeviceSynchronize (fun _ =>
  hbind (wbCheck (cudaMemcpy_to_host hostC deviceC sizeC)) (fun hostC =>
  hbind (wbCheck (cudaFree deviceA)) (fun _ =>
  hbind (wbCheck (cudaFree deviceB)) (fun _ =>
  hbind (wbCheck (cudaFree deviceC)) (fun _ =>
  hbind (wbSolution hostC) (fun _ =>
  fun w => (Return 0, w)))))))))).

Lemma main_body_unfold hostA numARows numAColumns hostB numBRows numBColumns :
  main' hostA numARows numAColumns hostB numBRows numBColumns
  = hbind (wbCheck (cudaMalloc uninit (byte_size numARows numAColumns)))
      (fun deviceA =>
    hbind (wbCheck (cudaMalloc uninit (byte_size numBRows numBColumns)))
      (fun deviceB =>
    hbind (wbCheck (cudaMalloc uninit (byte_size numARows numBColumns)))
      (fun deviceC =>
    after_allocations hostA numARows numAColumns hostB numBRows numBColumns
      deviceA deviceB deviceC))).
Proof. reflexivity. Qed.

Lemma after_allocations_grows hostA numARows numAColumns hostB numBRows numBColumns
    dA dB dC :
  grows (after_allocations hostA numARows numAColumns hostB numBRows numBColumns
           dA dB dC).
Proof.
  unfold after_allocations.
  repeat (apply grows_hbind; [|intros ?]);
    try (apply grows_wbCheck);
    auto using cudaMemcpy_to_device_grows, cudaMemcpy_to_host_grows,
      cudaFree_grows, launch_kernel_grows, cudaDeviceSynchronize_grows.
  - intros w. simpl. reflexivity.
  - intros w. simpl. reflexivity.
Qed.

(** [main] begins with the three allocations, whatever the dimensions
    are: no statement of it compares [numAColumns] with [numBRows]. *)
Lemma main_body_allocates hostA numARows numAColumns hostB numBRows numBColumns script :
  let run := main' hostA numARows numAColumns hostB numBRows numBColumns
               (boot script) in
  (exists rest,
     calls (snd run) = Call_cudaMalloc (byte_size numARows numAColumns) :: rest)
  /\ (nth_outcome script 0 = cudaSuccess -> nth_outcome script 1 = cudaSuccess ->
      exists rest,
        calls (snd run)
        = Call_cudaMalloc (byte_size numARows numAColumns)
          :: Call_cudaMalloc (byte_size numBRows numBColumns)
          :: Call_cudaMalloc (byte_size numARows numBColumns) :: rest).
Proof.
  intros run. subst run. rewrite main_body_unfold.
  pose proof (after_allocations_grows hostA numARows numAColumns
                hostB numBRows numBColumns) as HK.
  destruct script as [|[] [|[] [|[] script]]]; unfold nth_outcome;
    unfold hbind, wbCheck, cudaMalloc, device_call, boot; simpl.
  all: try match goal with
         | |- context [after_allocations _ _ _ _ _ _ ?dA ?dB ?dC ?w] =>
             destruct (HK dA dB dC w) as [more Hmore]; simpl in Hmore;
             rewrite Hmore
         end.
  all: split; [by eexists|]; intros E0 E1; try discriminate; by eexists.
Qed.

(** A failed allocation or host-to-device copy ends [main] at once, with
    everything allocated so far still allocated. *)
Lemma main_body_partial_failure hostA numARows numAColumns hostB numBRows numBColumns
    (k : nat) rest :
  (k < 5)%nat ->
  let run := main' hostA numARows numAColumns hostB numBRows numBColumns
               (boot (replicate k cudaSuccess ++ cudaErrorUnknown :: rest)) in
  fst run = Return (-1)
  /\ calls (snd run)
     = take (S k) (call_sequence (byte_size numARows numAColumns)
                     (byte_size numBRows numBColumns)
                     (byte_size numARows numBColumns)
                     (dimGrid numARows numBColumns) dimBlock)
  /\ dom (heap (snd run)) = (list_to_set (seqZ 1 (Z.min (Z.of_nat k) 3)) : gset Z).
Proof.
  intros Hk run. subst run.
  destruct k as [|[|[|[|[|]]]]]; try lia.
  all: split; [reflexivity|split; [reflexivity|]].
  all: vm_compute; reflexivity.
Qed.

End HostFacts.

(** C5, as the code has it.  When a device allocation or a host-to-device
    copy fails, [main] (of either file) returns -1 at once: it makes no
    further device call, and the buffers allocated before the failing call
    (the first [min k 3] ones, when call number [k] fails) are still
    allocated when [main] returns; none is released. *)
Theorem failure_returns_without_release {R : Type} `{Scalar R}
    (uninit : Z -> list R) (junk : Z -> Z -> R)
    (hostA : list R) (numARows numAColumns : Z)
    (hostB : list R) (numBRows numBColumns : Z)
    (k : nat) (rest : list cudaError_t) :
  (k < 5)%nat ->
  let script := replicate k cudaSuccess ++ cudaErrorUnknown :: rest in
  let returns (run : step unit * world R) (grid block : dim3) :=
    fst run = Return (-1)
    /\ calls (snd run)
       = take (S k) (call_sequence (byte_size numARows numAColumns)
                       (byte_size numBRows numBColumns)
                       (byte_size numARows numBColumns) grid block)
    /\ dom (heap (snd run)) = (list_to_set (seqZ 1 (Z.min (Z.of_nat k) 3)) : gset Z) in
  returns (Simple.main uninit junk hostA numARows numAColumns hostB numBRows numBColumns
             (boot script))
          (Simple.dimGrid numARows numBColumns) Simple.dimBlock
  /\ returns (Tiled.main uninit junk hostA numARows numAColumns hostB numBRows numBColumns
                (boot script))
             (Tiled.dimGrid numARows numBColumns) Tiled.dimBlock.
Proof.
  intros Hk script returns. split; apply main_body_partial_failure; exact Hk.
Qed.

Lemma failure_returns_without_release_witness :
  let run := Tiled.main (fun size => replicate (floats size) 0) (fun _ _ => 0)
               [1; 2; 3; 4] 2 2 [5; 6; 7; 8] 2 2
               (boot [cudaSuccess; cudaSuccess; cudaErrorUnknown]) in
  fst run = Return (-1)
  /\ calls (snd run) = [Call_cudaMalloc 16; Call_cudaMalloc 16; Call_cudaMalloc 16]
  /\ dom (heap (snd run)) = ({[1; 2]} : gset Z).
Proof.
  intros run.
  destruct (failure_returns_without_release
              (fun size => replicate (floats size) 0) (fun _ _ => 0)
              [1; 2; 3; 4] 2 2 [5; 6; 7; 8] 2 2 2 [] ltac:(lia))
    as [_ (Hexit & Hcalls & Hdom)].
  split; [exact Hexit|]. split; [exact Hcalls|].
  etrans; [exact Hdom|]. vm_compute. reflexivity.
Defined.

(** C5, as stated, fails: the second allocation fails, [main] returns -1,
    and the first buffer is still allocated. *)
Lemma partial_failure_leaks :
  let run := Tiled.main (fun size => replicate (floats size) 0) (fun _ _ => 0)
               [1; 2; 3; 4] 2 2 [5; 6; 7; 8] 2 2
               (boot [cudaSuccess; cudaErrorUnknown]) in
  fst run = Return (-1)
  /\ heap (snd run) !! 1 = Some [0; 0; 0; 0]
  /\ calls (snd run) = [Call_cudaMalloc 16; Call_cudaMalloc 16].
Proof. vm_compute. repeat split; reflexivity. Qed.

(** C4, as the code has it.  [main] (of either file) makes no dimension
    check, whatever the dimensions are, also when [numAColumns] differs from
    [numBRows]: its first device call is the allocation of the buffer of
    [A], and when the first two allocations succeed the three buffers (of
    [numARows * numAColumns], [numBRows * numBColumns] and
    [numARows * numBColumns] floats) are requested before anything else. *)
Theorem main_validates_nothing {R : Type} `{Scalar R}
    (uninit : Z -> list R) (junk : Z -> Z -> R)
    (hostA : list R) (numARows numAColumns : Z)
    (hostB : list R) (numBRows numBColumns : Z)
    (script : list cudaError_t) :
  let allocates (run : step unit * world R) :=
    (exists rest,
       calls (snd run) = Call_cudaMalloc (byte_size numARows numAColumns) :: rest)
    /\ (nth_outcome script 0 = cudaSuccess -> nth_outcome script 1 = cudaSuccess ->
        exists rest,
          calls (snd run)
          = Call_cudaMalloc (byte_size numARows numAColumns)
            :: Call_cudaMalloc (byte_size numBRows numBColumns)
            :: Call_cudaMalloc (byte_size numARows numBColumns) :: rest) in
  allocates (Simple.main uninit junk hostA numARows numAColumns hostB numBRows
               numBColumns (boot script))
  /\ allocates (Tiled.main uninit junk hostA numARows numAColumns hostB numBRows
                  numBColumns (boot script)).
Proof.
  intros allocates. split; apply main_body_allocates.
Qed.

Lemma main_validates_nothing_witness :
  exists rest,
    calls (snd (Tiled.main (fun size => replicate (floats size) 0) (fun _ _ => 0)
                  [2] 1 1 [3; 4] 2 1 (boot [])))
    = Call_cudaMalloc 4 :: Call_cudaMalloc 8 :: Call_cudaMalloc 4 :: rest.
Proof.
  destruct (main_validates_nothing
              (fun size => replicate (floats size) 0) (fun _ _ => 0)
              [2] 1 1 [3; 4] 2 1 []) as [_ [_ Hthree]].
  exact (Hthree eq_refl eq_refl).
Defined.

(** C4, as stated, fails: [A] is 1 x 1 and [B] is 2 x 1; both drivers
    allocate the three buffers, run the kernel and return 0 with a result. *)
Lemma mismatch_is_accepted :
  let uninit := fun size => replicate (floats size) 0 in
  let simple := Simple.main uninit (fun _ _ => 0) [2] 1 1 [3; 4] 2 1 (boot []) in
  let tiled := Tiled.main uninit (fun _ _ => 0) [2] 1 1 [3; 4] 2 1 (boot []) in
  fst simple = Return 0
  /\ take 3 (calls (snd simple))
     = [Call_cudaMalloc 4; Call_cudaMalloc 8; Call_cudaMalloc 4]
  /\ solution (snd simple) = Some [6]
  /\ fst tiled = Return 0
  /\ take 3 (calls (snd tiled))
     = [Call_cudaMalloc 4; Call_cudaMalloc 8; Call_cudaMalloc 4]
  /\ solution (snd tiled) = Some [6].
Proof. vm_compute. repeat split; reflexivity. Qed.

(** ** Running [main] statement by statement *)

Lemma nth_outcome_drop (script : list cudaError_t) (k i : nat) :
  nth_outcome (drop k script) i = nth_outcome script (k + i).
Proof. unfold nth_outcome. by rewrite lookup_drop. Qed.

Lemma tail_drop {T} (l : list T) (k : nat) : tail (drop k l) = drop (S k) l.
Proof.
  revert k. induction l as [|x l IH]; intros k; [by destruct k|].
  destruct k as [|k]; [by rewrite drop_0|]. simpl. apply IH.
Qed.

Section HostRuns.
Context {R : Type} `{Scalar R}.
Variable uninit : Z -> list R.
Variable kernel : list R -> list R -> Z -> Z -> Z -> Z -> Z -> Z ->
                  dim3 -> dim3 -> M R unit.
Variable junk : Z -> Z -> R.

(** The world after the runtime has answered call [c]. *)
Definition answered (c : api_call) (w : world R) : world R :=
  World (tail (outcomes w)) (heap w) (next_ptr w) (calls w ++ [c]) (solution w).

Lemma device_call_spec c (w : world R) :
  device_call c w = (nth_outcome (outcomes w) 0, answered c w).
Proof. unfold device_call, nth_outcome, answered. by destruct (outcomes w). Qed.

Lemma run_cudaMalloc size (w : world R) :
  nth_outcome (outcomes w) 0 = cudaSuccess ->
  wbCheck (cudaMalloc uninit size) w
  = (Next (next_ptr w),
     World (tail (outcomes w)) (<[next_ptr w := uninit size]> (heap w))
           (next_ptr w + 1) (calls w ++ [Call_cudaMalloc size]) (solution w)).
Proof.
  intros E. unfold wbCheck, cudaMalloc. by rewrite device_call_spec, E.
Qed.

Lemma run_cudaMemcpy_to_device ptr (host old : list R) size (w : world R) :
  nth_outcome (outcomes w) 0 = cudaSuccess ->
  heap w !! ptr = Some old ->
  wbCheck (cudaMemcpy_to_device ptr host size) w
  = (Next tt,
     World (tail (outcomes w)) (<[ptr := copy size host old]> (heap w))
           (next_ptr w)
           (calls w ++ [Call_cudaMemcpy cudaMemcpyHostToDevice ptr size])
           (solution w)).
Proof.
  intros E Hold. unfold wbCheck, cudaMemcpy_to_device.
  rewrite device_call_spec, E. simpl. by rewrite Hold.
Qed.

Lemma run_cudaMemcpy_to_host (host dev : list R) ptr size (w : world R) :
  nth_outcome (outcomes w) 0 = cudaSuccess ->
  heap w !! ptr = Some dev ->
  wbCheck (cudaMemcpy_to_host host ptr size) w
  = (Next (copy size dev host),
     answered (Call_cudaMemcpy cudaMemcpyDeviceToHost ptr size) w).
Proof.
  intros E Hdev. unfold wbCheck, cudaMemcpy_to_host.
  rewrite device_call_spec, E. simpl. by rewrite Hdev.
Qed.

Lemma run_cudaFree ptr (w : world R) :
  nth_outcome (outcomes w) 0 = cudaSuccess ->
  wbCheck (cudaFree ptr) w
  = (Next tt,
     World (tail (outcomes w)) (delete ptr (heap w)) (next_ptr w)
           (calls w ++ [Call_cudaFree ptr]) (solution w)).
Proof. intros E. unfold wbCheck, cudaFree. by rewrite device_call_spec, E. Qed.

Lemma run_launch grid block dA dB dC (a b c : list R) n1 n2 n3 n4 n5 n6 st'
    (w : world R) :
  nth_outcome (outcomes w) 0 = cudaSuccess ->
  heap w !! dA = Some a -> heap w !! dB = Some b -> heap w !! dC = Some c ->
  kernel a b n1 n2 n3 n4 n5 n6 grid block (State c junk junk junk []) = (Ok tt, st') ->
  launch_kernel kernel junk grid block dA dB dC n1 n2 n3 n4 n5 n6 w
  = (Next tt,
     World (tail (outcomes w)) (<[dC := memC st']> (heap w)) (next_ptr w)
           (calls w ++ [Call_launch grid block]) (solution w)).
Proof.
  intros E Ha Hb Hc Hrun. unfold launch_kernel.
  rewrite device_call_spec, E. simpl. by rewrite Ha, Hb, Hc, Hrun.
Qed.

Lemma run_launch_rejected grid block dA dB dC n1 n2 n3 n4 n5 n6 (w : world R) :
  nth_outcome (outcomes w) 0 = cudaErrorUnknown ->
  launch_kernel kernel junk grid block dA dB dC n1 n2 n3 n4 n5 n6 w
  = (Next tt, answered (Call_launch grid block) w).
Proof. intros E. unfold launch_kernel. by rewrite device_call_spec, E. Qed.

Lemma run_cudaDeviceSynchronize (w : world R) :
  cudaDeviceSynchronize w = (Next tt, answered Call_cudaDeviceSynchronize w).
Proof. unfold cudaDeviceSynchronize. by rewrite device_call_spec. Qed.

(** A checked call that fails: the two log lines and [return -1;]. *)
Lemma run_failed {X} (stmt : world R -> cudaError_t * X * world R) c (w : world R) x :
  stmt w = (cudaErrorUnknown, x, answered c w) ->
  wbCheck stmt w = (Return (-1), answered c w).
Proof. intros E. unfold wbCheck. by rewrite E. Qed.

Lemma hbind_Next {X Y} (m : H_ R X) (k : X -> H_ R Y) w x w' :
  m w = (Next x, w') -> hbind m k w = k x w'.
Proof. unfold hbind. by intros ->. Qed.

Lemma hbind_Return {X Y} (m : H_ R X) (k : X -> H_ R Y) w code w' :
  m w = (Return code, w') -> hbind m k w = (Return code, w').
Proof. unfold hbind. by intros ->. Qed.

(** [size] bytes of a buffer of exactly that size are the whole buffer. *)
Lemma copy_whole size (src dst : list R) :
  length src = floats size -> length dst = floats size -> copy size src dst = src.
Proof.
  intros Hs Hd. unfold copy.
  rewrite take_ge, drop_ge by lia. apply app_nil_r.
Qed.

End HostRuns.

Lemma nth_outcome_tail (script : list cudaError_t) (i : nat) :
  nth_outcome (tail script) i = nth_outcome script (S i).
Proof. by destruct script. Qed.

(** A host matrix as [main] can size it: positive extents, a byte size that
    is an [int], and exactly [rows * columns] floats. *)
Definition host_matrix {R : Type} (buf : list R) (rows columns : Z) : bool :=
  (1 <=? rows) && (1 <=? columns) && (rows * columns * 4 <=? int_max)
  && (Z.of_nat (length buf) =? rows * columns).

Lemma host_matrix_spec {R : Type} (buf : list R) rows columns :
  host_matrix buf rows columns = true ->
  1 <= rows /\ 1 <= columns /\ rows * columns * 4 <= int_max
  /\ Z.of_nat (length buf) = rows * columns.
Proof. unfold host_matrix. rewrite !andb_true_iff. lia. Qed.

Lemma host_matrix_holds {R : Type} (buf : list R) rows columns :
  host_matrix buf rows columns = true -> holds buf rows columns = true.
Proof.
  intros Hm. apply host_matrix_spec in Hm as (? & ? & ? & ?).
  unfold holds. repeat (apply andb_true_iff; split); unfold int_max in *; lia.
Qed.

Lemma byte_size_small rows columns :
  1 <= rows -> 1 <= columns -> rows * columns * 4 <= int_max ->
  byte_size rows columns = rows * columns * 4
  /\ floats (byte_size rows columns) = Z.to_nat (rows * columns).
Proof.
  intros Hr Hc Hint. unfold byte_size.
  rewrite int_mul_small by (unfold int_max in *; nia).
  rewrite to_int_small by (unfold int_max in *; nia).
  split; [done|]. unfold floats. by rewrite Z.div_mul by lia.
Qed.

Section HostSuccess.
Context {R : Type} `{Scalar R}.
Variable uninit : Z -> list R.
Variable dimGrid : Z -> Z -> dim3.
Variable dimBlock : dim3.
Variable kernel : list R -> list R -> Z -> Z -> Z -> Z -> Z -> Z ->
                  dim3 -> dim3 -> M R unit.
Variable junk : Z -> Z -> R.
Variables (hostA hostB : list R) (numARows numAColumns numBRows numBColumns : Z).
Variable script : list cudaError_t.

Hypothesis uninit_length : forall size, length (uninit size) = floats size.
Hypothesis HA : length hostA = floats (byte_size numARows numAColumns).
Hypothesis HB : length hostB = floats (byte_size numBRows numBColumns).

Abbreviation sizeA := (byte_size numARows numAColumns).
Abbreviation sizeB := (byte_size numBRows numBColumns).
Abbreviation sizeC := (byte_size numARows numBColumns).
Abbreviation run :=
  (main_body uninit dimGrid dimBlock kernel junk
     hostA numARows numAColumns hostB numBRows numBColumns (boot script)).

(** The state of the device when the kernel is launched, after five
    successful calls. *)
Lemma main_body_reaches_launch :
  (forall i, (i < 5)%nat -> nth_outcome script i = cudaSuccess) ->
  run
  = hbind (launch_kernel kernel junk (dimGrid numARows numBColumns) dimBlock 1 2 3
             numARows numAColumns numBRows numBColumns numARows numBColumns)
      (fun _ =>
    hbind cudaDeviceSynchronize (fun _ =>
    hbind (wbCheck (cudaMemcpy_to_host (uninit sizeC) 3 sizeC)) (fun hostC =>
    hbind (wbCheck (cudaFree 1)) (fun _ =>
    hbind (wbCheck (cudaFree 2)) (fun _ =>
    hbind (wbCheck (cudaFree 3)) (fun _ =>
    hbind (wbSolution hostC) (fun _ =>
    fun w => (Return 0, w))))))))
      (World (drop 5 script)
             (<[2 := hostB]> (<[1 := hostA]>
                (<[3 := uninit sizeC]> (<[2 := uninit sizeB]>
                   (<[1 := uninit sizeA]> ∅)))))
             4
             (take 5 (call_sequence sizeA sizeB sizeC
                        (dimGrid numARows numBColumns) dimBlock))
             None).
Proof.
  intros Hok. rewrite main_body_unfold. unfold boot.
  erewrite hbind_Next; [|apply run_cudaMalloc; simpl; by apply Hok; lia].
  simpl.
  erewrite hbind_Next;
    [|apply run_cudaMalloc; simpl; rewrite nth_outcome_tail; apply Hok; lia].
  simpl.
  erewrite hbind_Next;
    [|apply run_cudaMalloc; simpl; rewrite !nth_outcome_tail; apply Hok; lia].
  simpl. unfold after_allocations.
  erewrite hbind_Next;
    [|apply run_cudaMemcpy_to_device with (old := uninit sizeA); simpl;
      [rewrite !nth_outcome_tail; apply Hok; lia
      |rewrite !lookup_insert_ne by lia; apply lookup_insert_eq]].
  simpl.
  erewrite hbind_Next;
    [|apply run_cudaMemcpy_to_device with (old := uninit sizeB); simpl;
      [rewrite !nth_outcome_tail; apply Hok; lia
      |rewrite !lookup_insert_ne by lia; apply lookup_insert_eq]].
  simpl.
  rewrite !copy_whole by (rewrite ?uninit_length; done).
  assert (tail (tail (tail (tail (tail script)))) = drop 5 script) as ->
    by (rewrite <- (drop_0 script) at 1; by rewrite !tail_drop).
  reflexivity.
Qed.

(** On the success path (only the outcome of [cudaDeviceSynchronize],
    call 6, is free), [main] makes the eleven calls of [call_sequence],
    hands the buffer the kernel left to [wbSolution], releases the three
    device buffers and returns 0. *)
Lemma main_body_completes st' :
  (forall i, i <> 6%nat -> nth_outcome script i = cudaSuccess) ->
  kernel hostA hostB numARows numAColumns numBRows numBColumns numARows numBColumns
    (dimGrid numARows numBColumns) dimBlock (State (uninit sizeC) junk junk junk [])
  = (Ok tt, st') ->
  length (memC st') = floats sizeC ->
  fst run = Return 0
  /\ solution (snd run) = Some (memC st')
  /\ heap (snd run) = ∅
  /\ calls (snd run)
     = call_sequence sizeA sizeB sizeC (dimGrid numARows numBColumns) dimBlock.
Proof.
  intros Hok Hrun Hlen.
  rewrite main_body_reaches_launch by (intros i Hi; apply Hok; lia).
  erewrite hbind_Next;
    [|eapply run_launch; unfold answered; simpl;
      [rewrite nth_outcome_drop; apply Hok; lia
      |rewrite !lookup_insert_ne by lia; apply lookup_insert_eq
      |apply lookup_insert_eq
      |rewrite !lookup_insert_ne by lia; apply lookup_insert_eq
      |exact Hrun]].
  unfold answered; simpl.
  erewrite hbind_Next; [|apply run_cudaDeviceSynchronize].
  unfold answered; simpl.
  erewrite hbind_Next;
    [|eapply run_cudaMemcpy_to_host; unfold answered; simpl;
      [rewrite !nth_outcome_tail, nth_outcome_drop; apply Hok; lia
      |apply lookup_insert_eq]].
  unfold answered; simpl.
  erewrite hbind_Next;
    [|apply run_cudaFree; unfold answered; simpl;
      rewrite !nth_outcome_tail, nth_outcome_drop; apply Hok; lia].
  unfold answered; simpl.
  erewrite hbind_Next;
    [|apply run_cudaFree; unfold answered; simpl;
      rewrite !nth_outcome_tail, nth_outcome_drop; apply Hok; lia].
  unfold answered; simpl.
  erewrite hbind_Next;
    [|apply run_cudaFree; unfold answered; simpl;
      rewrite !nth_outcome_tail, nth_outcome_drop; apply Hok; lia].
  simpl. rewrite copy_whole by (rewrite ?uninit_length; done).
  split; [done|]. split; [done|]. split; [|done].
  apply map_eq. intros i. rewrite lookup_empty.
  destruct (decide (i = 3)) as [->|]; [by rewrite lookup_delete_eq|].
  rewrite lookup_delete_ne by done.
  destruct (decide (i = 2)) as [->|]; [by rewrite lookup_delete_eq|].
  rewrite lookup_delete_ne by done.
  destruct (decide (i = 1)) as [->|]; [by rewrite lookup_delete_eq|].
  rewrite lookup_delete_ne by done.
  by rewrite !lookup_insert_ne by done.
Qed.

End HostSuccess.

Section HostEdge.
Context {R : Type} `{Scalar R}.
Variable uninit : Z -> list R.
Variable dimGrid : Z -> Z -> dim3.
Variable dimBlock : dim3.
Variable kernel : list R -> list R -> Z -> Z -> Z -> Z -> Z -> Z ->
                  dim3 -> dim3 -> M R unit.
Variable junk : Z -> Z -> R.
Variables (hostA hostB : list R) (numARows numAColumns numBRows numBColumns : Z).
Variable script : list cudaError_t.

Hypothesis uninit_length : forall size, length (uninit size) = floats size.
Hypothesis HA : length hostA = floats (byte_size numARows numAColumns).
Hypothesis HB : length hostB = floats (byte_size numBRows numBColumns).

Abbreviation sizeA := (byte_size numARows numAColumns).
Abbreviation sizeB := (byte_size numBRows numBColumns).
Abbreviation sizeC := (byte_size numARows numBColumns).
Abbreviation run :=
  (main_body uninit dimGrid dimBlock kernel junk
     hostA numARows numAColumns hostB numBRows numBColumns (boot script)).

(** A launch that the runtime rejects is not noticed: [main] goes on,
    copies back the buffer as it was allocated and returns 0. *)
Lemma main_body_launch_rejected :
  (forall i, i <> 5%nat -> i <> 6%nat -> nth_outcome script i = cudaSuccess) ->
  nth_outcome script 5 = cudaErrorUnknown ->
  fst run = Return 0
  /\ solution (snd run) = Some (uninit sizeC)
  /\ calls (snd run)
     = call_sequence sizeA sizeB sizeC (dimGrid numARows numBColumns) dimBlock.
Proof.
  intros Hok Hrej.
  rewrite (main_body_reaches_launch uninit dimGrid dimBlock kernel junk
             hostA hostB numARows numAColumns numBRows numBColumns script
             uninit_length HA HB) by (intros i Hi; apply Hok; lia).
  erewrite hbind_Next;
    [|eapply run_launch_rejected; unfold answered; simpl;
      rewrite nth_outcome_drop; exact Hrej].
  unfold answered; simpl.
  erewrite hbind_Next; [|apply run_cudaDeviceSynchronize].
  unfold answered; simpl.
  erewrite hbind_Next;
    [|eapply run_cudaMemcpy_to_host; unfold answered; simpl;
      [rewrite !nth_outcome_tail, nth_outcome_drop; apply Hok; lia
      |rewrite !lookup_insert_ne by lia; apply lookup_insert_eq]].
  unfold answered; simpl.
  erewrite hbind_Next;
    [|apply run_cudaFree; unfold answered; simpl;
      rewrite !nth_outcome_tail, nth_outcome_drop; apply Hok; lia].
  erewrite hbind_Next;
    [|apply run_cudaFree; unfold answered; simpl;
      rewrite !nth_outcome_tail, nth_outcome_drop; apply Hok; lia].
  erewrite hbind_Next;
    [|apply run_cudaFree; unfold answered; simpl;
      rewrite !nth_outcome_tail, nth_outcome_drop; apply Hok; lia].
  simpl. rewrite copy_whole by (rewrite ?uninit_length; done).
  done.
Qed.

(** A failure of the copy back (call 7) or of a [cudaFree] (calls 8 to 10)
    ends [main] with -1 after the kernel has run: the result is not handed
    to [wbSolution], and the buffers not yet freed stay allocated. *)
Lemma main_body_late_failure st' (k : nat) :
  (7 <= k <= 10)%nat ->
  (forall i, (i < k)%nat -> i <> 6%nat -> nth_outcome script i = cudaSuccess) ->
  nth_outcome script k = cudaErrorUnknown ->
  kernel hostA hostB numARows numAColumns numBRows numBColumns numARows numBColumns
    (dimGrid numARows numBColumns) dimBlock (State (uninit sizeC) junk junk junk [])
  = (Ok tt, st') ->
  fst run = Return (-1)
  /\ solution (snd run) = None
  /\ dom (heap (snd run)) = (list_to_set (drop (k - 8) [1; 2; 3]) : gset Z)
  /\ calls (snd run)
     = take (S k) (call_sequence sizeA sizeB sizeC
                     (dimGrid numARows numBColumns) dimBlock).
Proof.
  intros Hk Hok Hfail Hrun.
  rewrite (main_body_reaches_launch uninit dimGrid dimBlock kernel junk
             hostA hostB numARows numAColumns numBRows numBColumns script
             uninit_length HA HB) by (intros i Hi; apply Hok; lia).
  erewrite hbind_Next;
    [|eapply run_launch; unfold answered; simpl;
      [rewrite nth_outcome_drop; apply Hok; lia
      |rewrite !lookup_insert_ne by lia; apply lookup_insert_eq
      |apply lookup_insert_eq
      |rewrite !lookup_insert_ne by lia; apply lookup_insert_eq
      |exact Hrun]].
  unfold answered; simpl.
  erewrite hbind_Next; [|apply run_cudaDeviceSynchronize].
  unfold answered; simpl.
  assert (forall i, nth_outcome (drop 5 script) i = nth_outcome script (5 + i)) as Hd
    by (intros; apply nth_outcome_drop).
  destruct (decide (k = 7%nat)) as [->|].
  { erewrite hbind_Return.
    2: { unfold wbCheck, cudaMemcpy_to_host. rewrite device_call_spec. simpl.
         rewrite !nth_outcome_tail, Hd. simpl. rewrite Hfail. reflexivity. }
    unfold answered. simpl. do 2 (split; [done|]). split; [|done].
    rewrite !dom_insert_L, dom_empty_L. set_solver. }
  erewrite hbind_Next;
    [|eapply run_cudaMemcpy_to_host; unfold answered; simpl;
      [rewrite !nth_outcome_tail, nth_outcome_drop; apply Hok; lia
      |apply lookup_insert_eq]].
  unfold answered; simpl.
  destruct (decide (k = 8%nat)) as [->|].
  { erewrite hbind_Return.
    2: { unfold wbCheck, cudaFree. rewrite device_call_spec. simpl.
         rewrite !nth_outcome_tail, Hd. simpl. rewrite Hfail. reflexivity. }
    unfold answered. simpl. do 2 (split; [done|]). split; [|done].
    rewrite !dom_insert_L, dom_empty_L. set_solver. }
  erewrite hbind_Next;
    [|apply run_cudaFree; unfold answered; simpl;
      rewrite !nth_outcome_tail, nth_outcome_drop; apply Hok; lia].
  simpl.
  destruct (decide (k = 9%nat)) as [->|].
  { erewrite hbind_Return.
    2: { unfold wbCheck, cudaFree. rewrite device_call_spec. simpl.
         rewrite !nth_outcome_tail, Hd. simpl. rewrite Hfail. reflexivity. }
    unfold answered. simpl. do 2 (split; [done|]). split; [|done].
    rewrite dom_delete_L, !dom_insert_L, dom_empty_L. set_solver. }
  erewrite hbind_Next;
    [|apply run_cudaFree; unfold answered; simpl;
      rewrite !nth_outcome_tail, nth_outcome_drop; apply Hok; lia].
  simpl.
  assert (k = 10%nat) as -> by lia.
  erewrite hbind_Return.
  2: { unfold wbCheck, cudaFree. rewrite device_call_spec. simpl.
       rewrite !nth_outcome_tail, Hd. simpl. rewrite Hfail. reflexivity. }
  unfold answered. simpl. do 2 (split; [done|]). split; [|done].
  rewrite !dom_delete_L, !dom_insert_L, dom_empty_L. set_solver.
Qed.

End HostEdge.

Section HostOutcome.
Context {R : Type} `{Scalar R}.
Variable uninit : Z -> list R.
Variable dimGrid : Z -> Z -> dim3.
Variable dimBlock : dim3.
Variable kernel : list R -> list R -> Z -> Z -> Z -> Z -> Z -> Z ->
                  dim3 -> dim3 -> M R unit.
Variable junk : Z -> Z -> R.

(** A statement that hands nothing to [wbSolution] and does not return 0. *)
Definition checked {X} (m : H_ R X) : Prop :=
  forall w,
    solution (snd (m w)) = solution w
    /\ ((exists x, fst (m w) = Next x) \/ fst (m w) = Return (-1)
        \/ fst (m w) = Undefined).

(** A run that either returns 0 with a result handed over, or stops with
    -1 or a device fault and no result. *)
Definition all_or_nothing (run : step unit * world R) : Prop :=
  (fst run = Return 0 /\ is_Some (solution (snd run)))
  \/ ((fst run = Return (-1) \/ fst run = Undefined) /\ solution (snd run) = None).

Lemma checked_wbCheck {X} (stmt : world R -> cudaError_t * X * world R) :
  (forall w, solution (snd (stmt w)) = solution w) -> checked (wbCheck stmt).
Proof.
  intros Hs w. unfold wbCheck. specialize (Hs w).
  destruct (stmt w) as [[[] x] w1]; simpl in *; split; eauto.
Qed.

Lemma device_call_solution c (w : world R) :
  solution (snd (device_call c w)) = solution w.
Proof. unfold device_call. by destruct (outcomes w). Qed.

Lemma cudaMalloc_solution size (w : world R) :
  solution (snd (cudaMalloc uninit size w)) = solution w.
Proof.
  unfold cudaMalloc. pose proof (device_call_solution (Call_cudaMalloc size) w) as Hc.
  by destruct (device_call _ w) as [[] w1].
Qed.

Lemma cudaMemcpy_to_device_solution ptr (host : list R) size (w : world R) :
  solution (snd (cudaMemcpy_to_device ptr host size w)) = solution w.
Proof.
  unfold cudaMemcpy_to_device.
  pose proof (device_call_solution
                (Call_cudaMemcpy cudaMemcpyHostToDevice ptr size) w) as Hc.
  destruct (device_call _ w) as [[] w1]; [|done]. simpl in *.
  by destruct (heap w1 !! ptr).
Qed.

Lemma cudaMemcpy_to_host_solution (host : list R) ptr size (w : world R) :
  solution (snd (cudaMemcpy_to_host host ptr size w)) = solution w.
Proof.
  unfold cudaMemcpy_to_host.
  pose proof (device_call_solution
                (Call_cudaMemcpy cudaMemcpyDeviceToHost ptr size) w) as Hc.
  destruct (device_call _ w) as [[] w1]; [|done]. simpl in *.
  by destruct (heap w1 !! ptr).
Qed.

Lemma cudaFree_solution ptr (w : world R) :
  solution (snd (cudaFree ptr w)) = solution w.
Proof.
  unfold cudaFree. pose proof (device_call_solution (Call_cudaFree ptr) w) as Hc.
  by destruct (device_call _ w) as [[] w1].
Qed.

Lemma checked_launch_kernel grid block dA dB dC n1 n2 n3 n4 n5 n6 :
  checked (launch_kernel kernel junk grid block dA dB dC n1 n2 n3 n4 n5 n6).
Proof.
  intros w. unfold launch_kernel.
  pose proof (device_call_solution (Call_launch grid block) w) as Hc.
  destruct (device_call _ w) as [[] w1]; simpl in *; [|eauto].
  destruct (heap w1 !! dA), (heap w1 !! dB), (heap w1 !! dC); simpl; eauto.
  destruct (kernel _ _ _ _ _ _ _ _ _ _ _) as [[[]|] st]; simpl; eauto.
Qed.

Lemma checked_cudaDeviceSynchronize : checked (cudaDeviceSynchronize (R := R)).
Proof.
  intros w. unfold cudaDeviceSynchronize. simpl.
  split; [apply device_call_solution|eauto].
Qed.

Lemma all_or_nothing_hbind {X} (m : H_ R X) (k : X -> H_ R unit) :
  checked m ->
  (forall x w, solution w = None -> all_or_nothing (k x w)) ->
  forall w, solution w = None -> all_or_nothing (hbind m k w).
Proof.
  intros Hm Hk w Hw. unfold hbind. pose proof (Hm w) as Hmw.
  destruct (m w) as [[x|code|] w1]; simpl in *; destruct Hmw as [Hsol Hres].
  - apply Hk. congruence.
  - right. split; [|simpl; congruence].
    destruct Hres as [[x Hx]|[Hx|Hx]]; [discriminate|left; simpl; congruence|discriminate].
  - right. split; [by right|simpl; congruence].
Qed.

(** Whatever the inputs and the runtime do, [main] ends in one of two
    ways. *)
Lemma main_body_all_or_nothing hostA numARows numAColumns hostB numBRows numBColumns
    script :
  all_or_nothing
    (main_body uninit dimGrid dimBlock kernel junk
       hostA numARows numAColumns hostB numBRows numBColumns (boot script)).
Proof.
  assert (forall w, solution w = None ->
            all_or_nothing
              (main_body uninit dimGrid dimBlock kernel junk
                 hostA numARows numAColumns hostB numBRows numBColumns w)) as Hall;
    [|by apply Hall].
  unfold main_body.
  do 11 (apply all_or_nothing_hbind;
           [first [apply checked_launch_kernel
                  |apply checked_cudaDeviceSynchronize
                  |apply checked_wbCheck;
                   auto using cudaMalloc_solution, cudaMemcpy_to_device_solution,
                     cudaMemcpy_to_host_solution, cudaFree_solution]
           |intros ?; cbv beta]).
  intros w0 _. left. simpl. split; [done|]. by eexists.
Qed.

End HostOutcome.

(** ** The drivers on well-formed operands *)

Section Drivers.
Context {R : Type} `{Scalar R}.
Variable uninit : Z -> list R.
Variable junk : Z -> Z -> R.
Variables (hostA hostB : list R) (numARows numAColumns numBRows numBColumns : Z).
Hypothesis padding : forall x : R, radd x (rmul rzero rzero) = x.
Hypothesis uninit_length : forall size, length (uninit size) = floats size.
Hypothesis HA : host_matrix hostA numARows numAColumns = true.
Hypothesis HB : host_matrix hostB numBRows numBColumns = true.
Hypothesis Hshared : numAColumns <= numBRows.
Hypothesis HC : numARows * numBColumns * 4 <= int_max.

Lemma driver_lengths :
  length hostA = floats (byte_size numARows numAColumns)
  /\ length hostB = floats (byte_size numBRows numBColumns)
  /\ Z.of_nat (length (uninit (byte_size numARows numBColumns)))
     = numARows * numBColumns
  /\ holds (uninit (byte_size numARows numBColumns)) numARows numBColumns = true.
Proof using uninit_length HA HB HC.
  clear Hshared. apply host_matrix_spec in HA as (? & ? & ? & ?).
  apply host_matrix_spec in HB as (? & ? & ? & ?).
  destruct (byte_size_small numARows numAColumns) as [_ ->]; [lia..|].
  destruct (byte_size_small numBRows numBColumns) as [_ ->]; [lia..|].
  destruct (byte_size_small numARows numBColumns) as [_ Hc]; [lia..|].
  assert (Z.of_nat (length (uninit (byte_size numARows numBColumns)))
          = numARows * numBColumns) as Hlen
    by (rewrite uninit_length, Hc; nia).
  split; [lia|]. split; [lia|]. split; [exact Hlen|].
  unfold holds. rewrite Hlen.
  repeat (apply andb_true_iff; split); unfold int_max in *; lia.
Qed.

(** Both kernels, launched by their driver on the freshly allocated
    [deviceC], leave the reference product. *)
Lemma driver_kernels :
  let st := State (uninit (byte_size numARows numBColumns)) junk junk junk [] in
  exists st_naive st_tiled,
    Simple.kernel hostA hostB numARows numAColumns numBRows numBColumns
      numARows numBColumns (Simple.dimGrid numARows numBColumns) Simple.dimBlock st
    = (Ok tt, st_naive)
    /\ Tiled.kernel hostA hostB numARows numAColumns numBRows numBColumns
         numARows numBColumns (Tiled.dimGrid numARows numBColumns) Tiled.dimBlock st
       = (Ok tt, st_tiled)
    /\ memC st_naive = reference hostA hostB numARows numAColumns numBColumns
    /\ memC st_tiled = reference hostA hostB numARows numAColumns numBColumns
    /\ length (reference hostA hostB numARows numAColumns numBColumns)
       = floats (byte_size numARows numBColumns).
Proof.
  intros st. destruct driver_lengths as (_ & _ & Hlen & Hholds).
  pose proof (host_matrix_holds _ _ _ HA) as HA'.
  assert (holds hostB numAColumns numBColumns = true) as HB'.
  { apply host_matrix_spec in HA as (? & ? & ? & ?).
    apply host_matrix_spec in HB as (? & ? & ? & ?).
    unfold holds. repeat (apply andb_true_iff; split); unfold int_max in *; nia. }
  destruct (simple_launch_reference hostA hostB numARows numAColumns numAColumns
              numBColumns numARows numBColumns HA' HB' eq_refl eq_refl eq_refl
              st Hholds) as (st_n & Hrun_n & Hlen_n & Hin_n & _).
  destruct (tiled_launch_reference hostA hostB numARows numAColumns numAColumns
              numBColumns numARows numBColumns HA' HB' eq_refl eq_refl eq_refl
              padding st Hholds) as (st_t & Hrun_t & Hlen_t & Hin_t & _).
  pose proof Hholds as Hdims. apply holds_spec in Hdims as (Hr & Hc & _).
  assert (forall C1, length C1 = length (memC st) ->
            (forall row col, 0 <= row < numARows -> 0 <= col < numBColumns ->
               elem C1 (row * numBColumns + col)
               = Some (reference_entry hostA hostB numAColumns numBColumns row col)) ->
            C1 = reference hostA hostB numARows numAColumns numBColumns) as Hprod.
  { intros C1 Hl Hin.
    by apply (product_reference hostA hostB numARows numAColumns numBColumns
                numARows numBColumns eq_refl eq_refl (memC st) C1). }
  exists st_n, st_t. split; [exact Hrun_n|]. split; [exact Hrun_t|].
  split; [by apply Hprod|]. split; [by apply Hprod|].
  rewrite <- (Hprod (memC st_n) Hlen_n Hin_n), Hlen_n. apply uninit_length.
Qed.

End Drivers.

(** X1.  On well-formed operands in which [A] has no more columns than [B]
    has rows, and with a runtime whose checked calls all succeed (the
    outcome of [cudaDeviceSynchronize] does not matter), [main] of either
    file makes the eleven device calls in their order, hands to [wbSolution]
    the reference product over the shared extent [numAColumns], leaves no
    device buffer allocated and returns 0.  When [numAColumns < numBRows]
    the rows of [B] from [numAColumns] on take no part in the result. *)
Theorem main_computes_product {R : Type} `{Scalar R}
    (uninit : Z -> list R) (junk : Z -> Z -> R)
    (hostA : list R) (numARows numAColumns : Z)
    (hostB : list R) (numBRows numBColumns : Z)
    (script : list cudaError_t) :
  (forall x : R, radd x (rmul rzero rzero) = x) ->
  (forall size, length (uninit size) = floats size) ->
  host_matrix hostA numARows numAColumns = true ->
  host_matrix hostB numBRows numBColumns = true ->
  numAColumns <= numBRows ->
  numARows * numBColumns * 4 <= int_max ->
  (forall i, i <> 6%nat -> nth_outcome script i = cudaSuccess) ->
  let completes (run : step unit * world R) (grid block : dim3) :=
    fst run = Return 0
    /\ solution (snd run)
       = Some (reference hostA hostB numARows numAColumns numBColumns)
    /\ heap (snd run) = ∅
    /\ calls (snd run)
       = call_sequence (byte_size numARows numAColumns)
           (byte_size numBRows numBColumns) (byte_size numARows numBColumns)
           grid block in
  completes (Simple.main uninit junk hostA numARows numAColumns hostB numBRows
               numBColumns (boot script))
            (Simple.dimGrid numARows numBColumns) Simple.dimBlock
  /\ completes (Tiled.main uninit junk hostA numARows numAColumns hostB numBRows
                  numBColumns (boot script))
               (Tiled.dimGrid numARows numBColumns) Tiled.dimBlock.
Proof.
  intros Hpad Hun HA HB Hshared HC Hok completes.
  destruct (driver_lengths uninit hostA hostB numARows numAColumns numBRows
              numBColumns Hun HA HB HC) as (HlA & HlB & _ & _).
  destruct (driver_kernels uninit junk hostA hostB numARows numAColumns numBRows
              numBColumns Hpad Hun HA HB Hshared HC)
    as (st_n & st_t & Hrun_n & Hrun_t & Hn & Ht & Hlen).
  split.
  - destruct (main_body_completes uninit Simple.dimGrid Simple.dimBlock
                (@Simple.kernel R _) junk hostA hostB numARows numAColumns
                numBRows numBColumns script Hun HlA HlB st_n Hok Hrun_n)
      as (? & Hsol & ? & ?); [by rewrite Hn|].
    unfold completes. rewrite <- Hn. done.
  - destruct (main_body_completes uninit Tiled.dimGrid Tiled.dimBlock
                (@Tiled.kernel R _) junk hostA hostB numARows numAColumns
                numBRows numBColumns script Hun HlA HlB st_t Hok Hrun_t)
      as (? & Hsol & ? & ?); [by rewrite Ht|].
    unfold completes. rewrite <- Ht. done.
Qed.

Lemma main_computes_product_witness :
  let run := Tiled.main (fun size => replicate (floats size) 0) (fun _ _ => 0)
               [1; 2; 3; 4] 2 2 [5; 6; 7; 8; 9; 10] 3 2
               (boot (replicate 6 cudaSuccess ++ [cudaErrorUnknown])) in
  fst run = Return 0
  /\ solution (snd run) = Some [19; 22; 43; 50]
  /\ heap (snd run) = ∅.
Proof.
  intros run.
  destruct (main_computes_product
              (fun size => replicate (floats size) 0) (fun _ _ => 0)
              [1; 2; 3; 4] 2 2 [5; 6; 7; 8; 9; 10] 3 2
              (replicate 6 cudaSuccess ++ [cudaErrorUnknown]))
    as [_ (Hexit & Hsol & Hheap & _)].
  - intros x. simpl. lia.
  - intros size. apply length_replicate.
  - reflexivity.
  - reflexivity.
  - lia.
  - unfold int_max. lia.
  - intros i Hi. do 7 (destruct i as [|i]; [done || reflexivity|]).
    reflexivity.
  - split; [exact Hexit|]. split; [exact Hsol|exact Hheap].
Defined.

(** X2.  Whatever the operands, the dimensions and the answers of the
    runtime are, [main] of either file ends in one of two ways: it returns 0
    after handing a result to [wbSolution], or it stops with -1 or with a
    device fault and hands over nothing; there is no partial result. *)
Theorem main_all_or_nothing {R : Type} `{Scalar R}
    (uninit : Z -> list R) (junk : Z -> Z -> R)
    (hostA : list R) (numARows numAColumns : Z)
    (hostB : list R) (numBRows numBColumns : Z)
    (script : list cudaError_t) :
  all_or_nothing (Simple.main uninit junk hostA numARows numAColumns hostB
                    numBRows numBColumns (boot script))
  /\ all_or_nothing (Tiled.main uninit junk hostA numARows numAColumns hostB
                       numBRows numBColumns (boot script)).
Proof. split; apply main_body_all_or_nothing. Qed.

(** X3.  The launch is not checked: when the runtime rejects the kernel
    launch and every checked call succeeds, [main] of either file still
    makes all eleven calls, returns 0 and hands to [wbSolution] the
    contents [deviceC] was allocated with. *)
Theorem rejected_launch_goes_unnoticed {R : Type} `{Scalar R}
    (uninit : Z -> list R) (junk : Z -> Z -> R)
    (hostA : list R) (numARows numAColumns : Z)
    (hostB : list R) (numBRows numBColumns : Z)
    (script : list cudaError_t) :
  (forall size, length (uninit size) = floats size) ->
  length hostA = floats (byte_size numARows numAColumns) ->
  length hostB = floats (byte_size numBRows numBColumns) ->
  (forall i, i <> 5%nat -> i <> 6%nat -> nth_outcome script i = cudaSuccess) ->
  nth_outcome script 5 = cudaErrorUnknown ->
  let unnoticed (run : step unit * world R) (grid block : dim3) :=
    fst run = Return 0
    /\ solution (snd run) = Some (uninit (byte_size numARows numBColumns))
    /\ calls (snd run)
       = call_sequence (byte_size numARows numAColumns)
           (byte_size numBRows numBColumns) (byte_size numARows numBColumns)
           grid block in
  unnoticed (Simple.main uninit junk hostA numARows numAColumns hostB numBRows
               numBColumns (boot script))
            (Simple.dimGrid numARows numBColumns) Simple.dimBlock
  /\ unnoticed (Tiled.main uninit junk hostA numARows numAColumns hostB numBRows
                  numBColumns (boot script))
               (Tiled.dimGrid numARows numBColumns) Tiled.dimBlock.
Proof.
  intros Hun HlA HlB Hok Hrej unnoticed.
  split; apply main_body_launch_rejected; assumption.
Qed.

Lemma rejected_launch_goes_unnoticed_witness :
  let run := Simple.main (fun size => replicate (floats size) 7) (fun _ _ => 0)
               [1; 2; 3; 4] 2 2 [5; 6; 7; 8] 2 2
               (boot (replicate 5 cudaSuccess ++ [cudaErrorUnknown])) in
  fst run = Return 0 /\ solution (snd run) = Some [7; 7; 7; 7].
Proof.
  intros run.
  destruct (rejected_launch_goes_unnoticed
              (fun size => replicate (floats size) 7) (fun _ _ => 0)
              [1; 2; 3; 4] 2 2 [5; 6; 7; 8] 2 2
              (replicate 5 cudaSuccess ++ [cudaErrorUnknown]))
    as [(Hexit & Hsol & _) _].
  - intros size. apply length_replicate.
  - reflexivity.
  - reflexivity.
  - intros i H5 H6. do 7 (destruct i as [|i]; [done || reflexivity|]).
    reflexivity.
  - reflexivity.
  - split; [exact Hexit|exact Hsol].
Defined.

(** X4.  When the copy back to the host (call 7) or one of the three
    [cudaFree] calls (calls 8 to 10) fails, [main] of either file returns -1
    at once although the kernel has run: the result is not handed to
    [wbSolution], and the device buffers not yet freed (all three, then
    [deviceB] and [deviceC], then [deviceC]) stay allocated. *)
Theorem late_failure_drops_result {R : Type} `{Scalar R}
    (uninit : Z -> list R) (junk : Z -> Z -> R)
    (hostA : list R) (numARows numAColumns : Z)
    (hostB : list R) (numBRows numBColumns : Z)
    (script : list cudaError_t) (k : nat) :
  (forall x : R, radd x (rmul rzero rzero) = x) ->
  (forall size, length (uninit size) = floats size) ->
  host_matrix hostA numARows numAColumns = true ->
  host_matrix hostB numBRows numBColumns = true ->
  numAColumns <= numBRows ->
  numARows * numBColumns * 4 <= int_max ->
  (7 <= k <= 10)%nat ->
  (forall i, (i < k)%nat -> i <> 6%nat -> nth_outcome script i = cudaSuccess) ->
  nth_outcome script k = cudaErrorUnknown ->
  let drops (run : step unit * world R) (grid block : dim3) :=
    fst run = Return (-1)
    /\ solution (snd run) = None
    /\ dom (heap (snd run)) = (list_to_set (drop (k - 8) [1; 2; 3]) : gset Z)
    /\ calls (snd run)
       = take (S k) (call_sequence (byte_size numARows numAColumns)
                       (byte_size numBRows numBColumns)
                       (byte_size numARows numBColumns) grid block) in
  drops (Simple.main uninit junk hostA numARows numAColumns hostB numBRows
           numBColumns (boot script))
        (Simple.dimGrid numARows numBColumns) Simple.dimBlock
  /\ drops (Tiled.main uninit junk hostA numARows numAColumns hostB numBRows
              numBColumns (boot script))
           (Tiled.dimGrid numARows numBColumns) Tiled.dimBlock.
Proof.
  intros Hpad Hun HA HB Hshared HC Hk Hok Hfail drops.
  destruct (driver_lengths uninit hostA hostB numARows numAColumns numBRows
              numBColumns Hun HA HB HC) as (HlA & HlB & _ & _).
  destruct (driver_kernels uninit junk hostA hostB numARows numAColumns numBRows
              numBColumns Hpad Hun HA HB Hshared HC)
    as (st_n & st_t & Hrun_n & Hrun_t & _).
  split.
  - apply (main_body_late_failure uninit Simple.dimGrid Simple.dimBlock
             (@Simple.kernel R _) junk hostA hostB numARows numAColumns
             numBRows numBColumns script Hun HlA HlB st_n k Hk Hok Hfail Hrun_n).
  - apply (main_body_late_failure uninit Tiled.dimGrid Tiled.dimBlock
             (@Tiled.kernel R _) junk hostA hostB numARows numAColumns
             numBRows numBColumns script Hun HlA HlB st_t k Hk Hok Hfail Hrun_t).
Qed.

Lemma late_failure_drops_result_witness :
  let run := Tiled.main (fun size => replicate (floats size) 0) (fun _ _ => 0)
               [1; 2; 3; 4] 2 2 [5; 6; 7; 8] 2 2
               (boot (replicate 9 cudaSuccess ++ [cudaErrorUnknown])) in
  fst run = Return (-1)
  /\ solution (snd run) = None
  /\ dom (heap (snd run)) = ({[2; 3]} : gset Z).
Proof.
  intros run.
  destruct (late_failure_drops_result
              (fun size => replicate (floats size) 0) (fun _ _ => 0)
              [1; 2; 3; 4] 2 2 [5; 6; 7; 8] 2 2
              (replicate 9 cudaSuccess ++ [cudaErrorUnknown]) 9)
    as [_ (Hexit & Hsol & Hdom & _)].
  - intros x. simpl. lia.
  - intros size. apply length_replicate.
  - reflexivity.
  - reflexivity.
  - lia.
  - unfold int_max. lia.
  - lia.
  - intros i Hi H6. do 9 (destruct i as [|i]; [done || reflexivity|]). lia.
  - reflexivity.
  - split; [exact Hexit|]. split; [exact Hsol|].
    etrans; [exact Hdom|]. vm_compute. reflexivity.
Defined.

(** ** Global-memory traffic *)

(** The event is a load from the global buffer [s] made by thread [th]. *)
Definition loads_from (th : thread) (s : space) (e : event) : bool :=
  match e with
  | (th', Load s' _) => bool_decide (th' = th) && bool_decide (s' = s)
  | _ => false
  end.

Lemma loads_from_own th s e : loads_from th s e = true -> e.1 = th.
Proof.
  destruct e as [th' [s' i|s' i|]]; simpl; try done.
  intros E. apply andb_true_iff in E as [E _]. by apply bool_decide_eq_true in E.
Qed.

Lemma count_foreign (p : event -> bool) th th' (l : list event) :
  (forall e, p e = true -> e.1 = th) ->
  Forall (fun e => e.1 = th') l -> th' <> th -> count p l = 0%nat.
Proof.
  intros Hp Hl Hne. unfold count. induction Hl as [|e l He Hl IH]; [done|].
  simpl. destruct (p e) eqn:E; [|done].
  apply Hp in E. congruence.
Qed.

Lemma count_own_thread (p : event -> bool) (f : thread -> list event) b th :
  (forall e, p e = true -> e.1 = th) ->
  (forall th', Forall (fun e => e.1 = th') (f th')) ->
  th ∈ Tiled.threads Tiled.dimBlock b ->
  count p (Tiled.threads Tiled.dimBlock b ≫= f) = count p (f th).
Proof.
  intros Hp Hf Hth. apply count_bind_one; [apply NoDup_threads|done|].
  intros th' _ Hne. by apply (count_foreign p th th').
Qed.

Lemma count_bind_le {T} p (l : list T) (f : T -> list event) c :
  (forall i, i ∈ l -> (count p (f i) <= c)%nat) ->
  (count p (l ≫= f) <= length l * c)%nat.
Proof.
  induction l as [|i l IH]; intros Hf; [done|].
  rewrite bind_cons, count_app. simpl.
  pose proof (Hf i ltac:(left)).
  assert (count p (l ≫= f) <= length l * c)%nat
    by (apply IH; intros j Hj; apply Hf; by right).
  lia.
Qed.

Section TiledTraffic.
Variables (numAColumns numCRows numCColumns : Z).

Abbreviation Row := (Tiled.Row Tiled.dimBlock).
Abbreviation Col := (Tiled.Col Tiled.dimBlock).

(** In the load phase of a tile a thread makes at most one load from each
    operand: one when its guard holds, none otherwise. *)
Lemma traffic_load_events t th :
  count (loads_from th GlobalA) (load_events numAColumns numCRows numCColumns t th)
  = (if (Row th <? numCRows) && (t * 16 + Tiled.tx th <? numAColumns)
     then 1%nat else 0%nat)
  /\ count (loads_from th GlobalB)
       (load_events numAColumns numCRows numCColumns t th)
     = (if (Col th <? numCColumns) && (t * 16 + Tiled.ty th <? numAColumns)
        then 1%nat else 0%nat).
Proof.
  unfold load_events, count.
  repeat destruct (_ && _); simpl; rewrite ?bool_decide_eq_true_2 by done; done.
Qed.

Lemma traffic_accumulate_events th s :
  s = GlobalA \/ s = GlobalB ->
  count (loads_from th s) (accumulate_events th) = 0%nat.
Proof.
  intros Hs. unfold accumulate_events. rewrite count_app.
  rewrite (count_bind_const _ _ _ 0).
  - rewrite Nat.mul_0_r. reflexivity.
  - intros j _. unfold accumulate_step_events, count. simpl.
    destruct Hs as [-> | ->]; simpl; by rewrite !andb_false_r.
Qed.

Lemma traffic_write_events th s :
  count (loads_from th s) (write_events numCRows numCColumns th) = 0%nat.
Proof. unfold write_events. by destruct (_ && _). Qed.

(** The global loads of a launched thread are those of the load phases of
    the tiles of its block. *)
Lemma traffic_launch gridDim th s :
  s = GlobalA \/ s = GlobalB ->
  th ∈ launch_threads gridDim Tiled.dimBlock ->
  count (loads_from th s)
    (indices gridDim ≫= block_events numAColumns numCRows numCColumns)
  = count (loads_from th s)
      (seqZ 0 (Tiled.tile_count numAColumns)
       ≫= fun t => load_events numAColumns numCRows numCColumns t th).
Proof.
  intros Hs Hth. apply elem_of_launch_threads in Hth as [Hb Ht].
  assert (th ∈ Tiled.threads Tiled.dimBlock (blockIdx th)) as Hth.
  { unfold Tiled.threads. apply list_elem_of_fmap. exists (threadIdx th).
    by destruct th. }
  pose proof (loads_from_own th s) as Hown.
  rewrite (count_bind_one _ _ _ (blockIdx th)); [|apply NoDup_indices|done|].
  - unfold block_events. rewrite count_app.
    rewrite (count_own_thread _ _ _ th Hown (write_events_own _ _) Hth).
    rewrite traffic_write_events, Nat.add_0_r.
    induction (seqZ 0 (Tiled.tile_count numAColumns)) as [|t l IH]; [done|].
    rewrite !bind_cons, !count_app, IH. f_equal.
    unfold tile_events. rewrite count_app.
    rewrite (count_own_thread _ _ _ th Hown (load_events_own _ _ _ t) Hth).
    rewrite (count_own_thread _ _ _ th Hown accumulate_events_own Hth).
    rewrite traffic_accumulate_events by done. lia.
  - intros b' _ Hne. unfold count.
    pose proof (block_events_own numAColumns numCRows numCColumns b') as Hall.
    induction Hall as [|e l He Hl IH]; [done|]. simpl.
    destruct (loads_from th s e) eqn:E; [|done].
    apply Hown in E. rewrite E in He. unfold Tiled.threads in He.
    apply list_elem_of_fmap in He as (t' & E' & _). exfalso. apply Hne.
    by rewrite E'.
Qed.

End TiledTraffic.

(** X5.  Tiling cuts the global-memory traffic of a thread by the tile
    width.  In a launch of the tiled kernel on valid operands a thread makes
    at most one load from [A] and one from [B] per tile: at most
    [ceil(numAColumns / TILE_WIDTH)] of each, and at least one less than
    that when its row (for [A]) or its column (for [B]) is within the
    output.  A thread of the naive kernel that is within the output makes
    [numAColumns] loads from [A] and as many from [B]. *)
Theorem tiling_cuts_global_loads {R : Type} `{Scalar R} (A B : list R)
    (numARows numAColumns numBRows numBColumns numCRows numCColumns : Z)
    (st : state R) :
  holds A numARows numAColumns = true ->
  holds B numBRows numBColumns = true ->
  holds (memC st) numCRows numCColumns = true ->
  numAColumns = numBRows -> numCRows = numARows -> numCColumns = numBColumns ->
  let tiles := Z.to_nat (ceil_div numAColumns TILE_WIDTH) in
  (exists st' evs,
     Tiled.kernel A B numARows numAColumns numBRows numBColumns numCRows numCColumns
       (Tiled.dimGrid numCRows numCColumns) Tiled.dimBlock st = (Ok tt, st')
     /\ trace st' = trace st ++ evs
     /\ forall th,
          th ∈ launch_threads (Tiled.dimGrid numCRows numCColumns) Tiled.dimBlock ->
          (count (loads_from th GlobalA) evs <= tiles)%nat
          /\ (count (loads_from th GlobalB) evs <= tiles)%nat
          /\ (Tiled.Row Tiled.dimBlock th < numCRows ->
              (tiles - 1 <= count (loads_from th GlobalA) evs)%nat)
          /\ (Tiled.Col Tiled.dimBlock th < numCColumns ->
              (tiles - 1 <= count (loads_from th GlobalB) evs)%nat))
  /\ (forall th,
        th ∈ launch_threads (Simple.dimGrid numCRows numCColumns) Simple.dimBlock ->
        (Simple.Row Simple.dimBlock th <? numCRows)
        && (Simple.Col Simple.dimBlock th <? numCColumns) = true ->
        exists st' evs,
          Simple.matrixMultiply A B numAColumns numBColumns numCRows numCColumns
            Simple.dimBlock th st = (Ok tt, st')
          /\ trace st' = trace st ++ evs
          /\ count (loads_from th GlobalA) evs = Z.to_nat numAColumns
          /\ count (loads_from th GlobalB) evs = Z.to_nat numAColumns).
Proof.
  intros HA HB HC Hshared HCrows HCcols tiles.
  pose proof (tiles_eq A B numARows numAColumns numBRows numBColumns
                numCRows numCColumns HA HB Hshared HCrows HCcols) as Htiles.
  destruct (dims_facts A B numARows numAColumns numBRows numBColumns
              numCRows numCColumns HA HB Hshared HCrows HCcols)
    as (HR & HCo & Hn & _).
  rewrite extent_ceil in Htiles by lia.
  destruct (ceil_div_least numAColumns ltac:(lia)) as [Hcover Hleast].
  split.
  - destruct (tiled_launch_fills A B numARows numAColumns numBRows numBColumns
                numCRows numCColumns HA HB Hshared HCrows HCcols st HC)
      as (st' & Hrun & _ & Htr).
    eexists st', _. split; [exact Hrun|]. split; [exact Htr|].
    intros th Hth.
    destruct (thread_facts A B numARows numAColumns numBRows numBColumns
                numCRows numCColumns HA HB Hshared HCrows HCcols th Hth)
      as (HRow & HCol & Htx & Hty & _).
    rewrite !traffic_launch by (done || auto). rewrite Htiles.
    assert (forall s, s = GlobalA \/ s = GlobalB ->
              (count (loads_from th s)
                 (seqZ 0 (ceil_div numAColumns 16)
                  ≫= fun t => load_events numAColumns numCRows numCColumns t th)
               <= tiles)%nat) as Hle.
    { intros s Hs. etrans.
      - apply (count_bind_le _ _ _ 1%nat). intros t _.
        destruct (traffic_load_events numAColumns numCRows numCColumns t th)
          as [Ea Eb].
        destruct Hs as [-> | ->]; [rewrite Ea|rewrite Eb]; clear Ea Eb;
          destruct (_ && _); lia.
      - rewrite length_seqZ. unfold tiles, TILE_WIDTH. lia. }
    split; [apply Hle; auto|]. split; [apply Hle; auto|].
    assert (seqZ 0 (ceil_div numAColumns 16)
            = seqZ 0 (ceil_div numAColumns 16 - 1)
              ++ seqZ (0 + (ceil_div numAColumns 16 - 1)) 1) as Esplit.
    { rewrite <- seqZ_app by lia. f_equal. lia. }
    assert (length (seqZ 0 (ceil_div numAColumns 16 - 1)) = (tiles - 1)%nat) as Elen.
    { rewrite length_seqZ. unfold tiles, TILE_WIDTH. lia. }
    split; intros Hin; rewrite Esplit, bind_app, count_app;
      rewrite (count_bind_const _ _ _ 1%nat); try lia.
    + intros t Ht. apply elem_of_seqZ in Ht.
      destruct (traffic_load_events numAColumns numCRows numCColumns t th) as [-> _].
      replace ((Tiled.Row Tiled.dimBlock th <? numCRows)
               && (t * 16 + Tiled.tx th <? numAColumns)) with true; [done|].
      symmetry. apply andb_true_iff. lia.
    + intros t Ht. apply elem_of_seqZ in Ht.
      destruct (traffic_load_events numAColumns numCRows numCColumns t th) as [_ ->].
      replace ((Tiled.Col Tiled.dimBlock th <? numCColumns)
               && (t * 16 + Tiled.ty th <? numAColumns)) with true; [done|].
      symmetry. apply andb_true_iff. lia.
  - intros th Hth Hin. apply andb_true_iff in Hin.
    pose proof HC as HC'. apply holds_spec in HC' as (HCr & HCc & HCint & HClen).
    destruct (simple_coords _ _ _ HR HCo Hth) as (_ & _ & ? & ?).
    eexists _, (thread_events numAColumns numBColumns numCColumns Simple.dimBlock th).
    split; [eapply naive_in_bounds; eauto; lia|].
    split; [reflexivity|].
    unfold thread_events. rewrite !count_app.
    rewrite !(count_bind_const _ _ _ 1%nat), length_seqZ.
    + unfold count. simpl. lia.
    + intros i _. unfold dot_events, count. simpl.
      by rewrite !bool_decide_eq_true_2.
    + intros i _. unfold dot_events, count. simpl.
      by rewrite !bool_decide_eq_true_2.
Qed.

Lemma tiling_cuts_global_loads_witness :
  let A := seqZ 1 17 in
  let B := seqZ 1 17 in
  let st := State [0] (fun _ _ => 0) (fun _ _ => 0) (fun _ _ => 0) [] in
  let th := Thread (Dim3 0 0) (Dim3 0 0) in
  (exists st' evs,
     Tiled.kernel A B 1 17 17 1 1 1 (Tiled.dimGrid 1 1) Tiled.dimBlock st
     = (Ok tt, st')
     /\ trace st' = evs
     /\ (count (loads_from th GlobalA) evs <= 2)%nat)
  /\ exists st' evs,
       Simple.matrixMultiply A B 17 1 1 1 Simple.dimBlock th st = (Ok tt, st')
       /\ trace st' = evs
       /\ count (loads_from th GlobalA) evs = 17%nat.
Proof.
  intros A B st th.
  destruct (tiling_cuts_global_loads A B 1 17 17 1 1 1 st)
    as [(st' & evs & Hrun & Htr & Hall) Hnaive]; [reflexivity..|].
  assert (forall grid, grid = Dim3 1 1 -> th ∈ launch_threads grid (Dim3 16 16))
    as Hlaunched.
  { intros grid ->. apply elem_of_launch_threads.
    split; apply elem_of_indices; simpl; lia. }
  split.
  - destruct (Hall th (Hlaunched _ eq_refl)) as (Hle & _).
    exists st', evs. split; [exact Hrun|]. split; [exact Htr|exact Hle].
  - destruct (Hnaive th (Hlaunched _ eq_refl) eq_refl)
      as (st_n & evs_n & Hrun_n & Htr_n & Hcount & _).
    exists st_n, evs_n. split; [exact Hrun_n|]. split; [exact Htr_n|exact Hcount].
Defined.

(** ** The accesses of the tiled kernel stay in bounds *)

(** An access to a scratch tile stays inside the tile. *)
Definition in_scratch (e : event) : Prop :=
  match e.2 with
  | Load SharedA i | Store SharedA i | Load SharedB i | Store SharedB i =>
      0 <= i < TILE_WIDTH * TILE_WIDTH
  | _ => True
  end.

Ltac events_in_bounds :=
  repeat (apply Forall_cons; split; [split; [|split]|]);
  try apply Forall_nil;
  unfold in_buffer, in_scratch, TILE_WIDTH; simpl; try lia.

(** X6.  In a launch of the tiled kernel on valid operands every access
    stays inside its buffer: the loads from [A] below
    [numARows * numAColumns], the loads from [B] below
    [numBRows * numBColumns], the stores to [C] below
    [numCRows * numCColumns], the accesses to the scratch tiles below
    [TILE_WIDTH * TILE_WIDTH]; and every access is made by a launched
    thread. *)
Theorem tiled_accesses_in_bounds {R : Type} `{Scalar R} (A B : list R)
    (numARows numAColumns numBRows numBColumns numCRows numCColumns : Z)
    (st : state R) :
  holds A numARows numAColumns = true ->
  holds B numBRows numBColumns = true ->
  holds (memC st) numCRows numCColumns = true ->
  numAColumns = numBRows -> numCRows = numARows -> numCColumns = numBColumns ->
  exists st' evs,
    Tiled.kernel A B numARows numAColumns numBRows numBColumns numCRows numCColumns
      (Tiled.dimGrid numCRows numCColumns) Tiled.dimBlock st = (Ok tt, st')
    /\ trace st' = trace st ++ evs
    /\ Forall (fun e =>
                 in_buffer (numARows * numAColumns) (numBRows * numBColumns)
                   (numCRows * numCColumns) e
                 /\ in_scratch e
                 /\ e.1 ∈ launch_threads (Tiled.dimGrid numCRows numCColumns)
                            Tiled.dimBlock) evs.
Proof.
  intros HA HB HC Hshared HCrows HCcols.
  destruct (tiled_launch_fills A B numARows numAColumns numBRows numBColumns
              numCRows numCColumns HA HB Hshared HCrows HCcols st HC)
    as (st' & Hrun & _ & Htr).
  pose proof (thread_facts A B numARows numAColumns numBRows numBColumns
                numCRows numCColumns HA HB Hshared HCrows HCcols) as Hfacts.
  pose proof (tiles_eq A B numARows numAColumns numBRows numBColumns
                numCRows numCColumns HA HB Hshared HCrows HCcols) as Htiles.
  destruct (dims_facts A B numARows numAColumns numBRows numBColumns
              numCRows numCColumns HA HB Hshared HCrows HCcols)
    as (HR & HCo & Hn & _).
  eexists st', _. split; [exact Hrun|]. split; [exact Htr|].
  apply Forall_bind_own. intros b Hb.
  assert (forall th, th ∈ Tiled.threads Tiled.dimBlock b ->
            th ∈ launch_threads (Tiled.dimGrid numCRows numCColumns) Tiled.dimBlock)
    as Hlaunched.
  { intros th Hth. unfold Tiled.threads in Hth.
    apply list_elem_of_fmap in Hth as (t' & -> & Ht').
    by apply elem_of_launch_threads. }
  unfold block_events. apply Forall_app. split.
  - apply Forall_bind_own. intros t Ht. apply elem_of_seqZ in Ht.
    unfold tile_events. apply Forall_app.
    split; apply Forall_bind_own; intros th Hth;
      pose proof (Hlaunched th Hth) as Hl;
      destruct (Hfacts th Hl) as (HRow & HCol & Htx & Hty & _).
    + assert (Tiled.Row Tiled.dimBlock th < numCRows ->
              t * 16 + Tiled.tx th < numAColumns ->
              0 <= Tiled.Row Tiled.dimBlock th * numAColumns
                   + (t * 16 + Tiled.tx th) < numARows * numAColumns) as HinA.
      { intros. subst numCRows. apply offset_bound; lia. }
      assert (Tiled.Col Tiled.dimBlock th < numCColumns ->
              t * 16 + Tiled.ty th < numAColumns ->
              0 <= (t * 16 + Tiled.ty th) * numCColumns
                   + Tiled.Col Tiled.dimBlock th < numBRows * numBColumns) as HinB.
      { intros. subst numCColumns numBRows. apply offset_bound; lia. }
      unfold load_events.
      destruct ((Tiled.Row Tiled.dimBlock th <? numCRows)
                && (t * 16 + Tiled.tx th <? numAColumns)) eqn:Ea;
        destruct ((Tiled.Col Tiled.dimBlock th <? numCColumns)
                  && (t * 16 + Tiled.ty th <? numAColumns)) eqn:Eb;
        try apply andb_true_iff in Ea; try apply andb_true_iff in Eb;
        simpl; events_in_bounds; first [exact Hl | apply HinA; lia | apply HinB; lia].
    + unfold accumulate_events. apply Forall_app. split.
      * apply Forall_bind_own. intros i Hi. apply elem_of_seqZ in Hi.
        unfold TILE_WIDTH in Hi. unfold accumulate_step_events.
        events_in_bounds; exact Hl.
      * events_in_bounds; exact Hl.
  - apply Forall_bind_own. intros th Hth.
    pose proof (Hlaunched th Hth) as Hl.
    destruct (Hfacts th Hl) as (HRow & HCol & Htx & Hty & _).
    unfold write_events.
    destruct ((Tiled.Row Tiled.dimBlock th <? numCRows)
              && (Tiled.Col Tiled.dimBlock th <? numCColumns)) eqn:E;
      [|constructor].
    apply andb_true_iff in E.
    events_in_bounds; first [exact Hl | apply offset_bound; lia].
Qed.

Lemma tiled_accesses_in_bounds_witness :
  exists st' evs,
    Tiled.kernel [1; 2; 3; 4] [5; 6; 7; 8] 2 2 2 2 2 2
      (Tiled.dimGrid 2 2) Tiled.dimBlock
      (State [0; 0; 0; 0] (fun _ _ => 0) (fun _ _ => 0) (fun _ _ => 0) [])
    = (Ok tt, st')
    /\ trace st' = evs
    /\ Forall (fun e => in_buffer 4 4 4 e /\ in_scratch e) evs.
Proof.
  destruct (tiled_accesses_in_bounds [1; 2; 3; 4] [5; 6; 7; 8] 2 2 2 2 2 2
              (State [0; 0; 0; 0] (fun _ _ => 0) (fun _ _ => 0) (fun _ _ => 0) []))
    as (st' & evs & Hrun & Htr & Hall); [reflexivity..|].
  exists st', evs. split; [exact Hrun|]. split; [exact Htr|].
  eapply Forall_impl; [exact Hall|]. simpl. intros e (? & ? & _). by split.
Defined.

(** ** The order of threads and blocks *)

Lemma bind_singleton {T} (l : list T) : l ≫= (fun x => [x]) = l.
Proof. induction l as [|x l IH]; [done|]. by rewrite bind_cons, IH. Qed.

Section Schedules.
Context {R : Type} `{Scalar R}.
Variables (inb : thread -> bool) (idx : thread -> Z) (val : thread -> R).
Variable launched : thread -> Prop.
Hypothesis agree :
  forall th th', launched th -> launched th' ->
    inb th = true -> inb th' = true -> idx th = idx th' -> val th = val th'.

(** What a list of threads fills depends on its members only. *)
Lemma fills_members (ths ths' : list thread) (C C' : list R) :
  (forall th, th ∈ ths <-> th ∈ ths') ->
  fills inb idx val ths C C' -> fills inb idx val ths' C C'.
Proof.
  intros Hsame (Hlen & Hw & Hf). split; [done|]. split.
  - intros th Hth. apply Hw. by apply Hsame.
  - intros i Hi. apply Hf. intros th Hth. apply Hi. by apply Hsame.
Qed.

(** The buffer a list of threads fills is determined. *)
Lemma fills_unique (ths : list thread) (C C1 C2 : list R) :
  fills inb idx val ths C C1 -> fills inb idx val ths C C2 -> C1 = C2.
Proof.
  intros (Hlen1 & Hw1 & Hf1) (Hlen2 & Hw2 & Hf2).
  apply list_eq_elem; [congruence|]. intros i _.
  destruct (decide (Exists (fun th => inb th = true /\ idx th = i) ths)) as [He|He].
  - apply Exists_exists in He as (th & Hth & Hin & <-).
    by rewrite Hw1, Hw2.
  - rewrite Hf1, Hf2; [done|..]; intros th Hth Hin Hidx; apply He, Exists_exists;
      by exists th.
Qed.

(** Units of work (threads, or blocks), each filling the cells of the
    threads it owns, fill between them the cells of all of these, whatever
    the order in which they run. *)
Lemma for_each_fills {T} (l : list T) (owned : T -> list thread)
    (body : T -> M R unit) (st : state R) :
  (forall i th, i ∈ l -> th ∈ owned i -> launched th) ->
  (forall i s, i ∈ l -> length (memC s) = length (memC st) ->
     exists s', body i s = (Ok tt, s')
                /\ fills inb idx val (owned i) (memC s) (memC s')) ->
  exists st',
    for_each l body st = (Ok tt, st')
    /\ fills inb idx val (l ≫= owned) (memC st) (memC st').
Proof.
  intros Hl Hbody.
  apply (for_each_invariant
           (fun done s => fills inb idx val (done ≫= owned) (memC st) (memC s))).
  - apply fills_nil.
  - intros done i s [rest Hrest] Hdone.
    assert (i ∈ l) as Hi by (rewrite Hrest; apply elem_of_app; right; left).
    destruct (Hbody i s Hi ltac:(apply Hdone)) as (s' & Hrun & Hfill).
    exists s'. split; [exact Hrun|]. rewrite bind_snoc.
    apply (fills_app inb idx val launched agree) with (C1 := memC s); [|done..].
    intros th Hth. apply elem_of_app in Hth as [Hth|Hth].
    + apply list_elem_of_bind in Hth as (j & Hth & Hj).
      apply (Hl j); [|done]. rewrite Hrest. apply elem_of_app. by left.
    + by apply (Hl i).
Qed.

End Schedules.

(** X7.  The threads of the naive kernel and the blocks of the tiled kernel
    do not interfere: on valid operands, running the launched threads of the
    naive kernel, or the blocks of the tiled kernel, in any order whatever
    succeeds and leaves in [C] what the launch leaves. *)
Theorem schedule_is_immaterial {R : Type} `{Scalar R} (A B : list R)
    (numARows numAColumns numBRows numBColumns numCRows numCColumns : Z)
    (st : state R) (ths : list thread) (blocks : list dim3) :
  holds A numARows numAColumns = true ->
  holds B numBRows numBColumns = true ->
  holds (memC st) numCRows numCColumns = true ->
  numAColumns = numBRows -> numCRows = numARows -> numCColumns = numBColumns ->
  ths ≡ₚ launch_threads (Simple.dimGrid numCRows numCColumns) Simple.dimBlock ->
  blocks ≡ₚ indices (Tiled.dimGrid numCRows numCColumns) ->
  (exists st1 st2,
     Simple.kernel A B numARows numAColumns numBRows numBColumns numCRows numCColumns
       (Simple.dimGrid numCRows numCColumns) Simple.dimBlock st = (Ok tt, st1)
     /\ for_each ths
          (Simple.matrixMultiply A B numAColumns numBColumns numCRows numCColumns
             Simple.dimBlock) st = (Ok tt, st2)
     /\ memC st2 = memC st1)
  /\ (exists st1 st2,
        Tiled.kernel A B numARows numAColumns numBRows numBColumns numCRows
          numCColumns (Tiled.dimGrid numCRows numCColumns) Tiled.dimBlock st
        = (Ok tt, st1)
        /\ for_each blocks
             (Tiled.matrixMultiply A B numAColumns numCRows numCColumns
                Tiled.dimBlock) st = (Ok tt, st2)
        /\ memC st2 = memC st1).
Proof.
  intros HA HB HC Hshared HCrows HCcols Hths Hblocks.
  pose proof HC as HC'. apply holds_spec in HC' as (HCr & HCc & HCint & HClen).
  assert (1 <= numCRows <= int_max /\ 1 <= numCColumns <= int_max) as [HR HCo]
    by (unfold int_max in *; nia).
  split.
  - set (all := launch_threads (Simple.dimGrid numCRows numCColumns) Simple.dimBlock).
    destruct (simple_launch_fills A B numARows numAColumns numBRows numBColumns
                numCRows numCColumns HA HB Hshared HCrows HCcols st HC)
      as (st1 & Hrun1 & Hfill1).
    assert (forall th th', th ∈ all -> th' ∈ all ->
              simple_inb numCRows numCColumns th = true ->
              simple_inb numCRows numCColumns th' = true ->
              simple_idx numCColumns th = simple_idx numCColumns th' ->
              simple_val A B numAColumns numBColumns th
              = simple_val A B numAColumns numBColumns th') as Hval.
    { intros th th' Hth Hth' Hin Hin' Hidx.
      destruct (simple_coords _ _ _ HR HCo Hth) as (_ & _ & ? & ?).
      destruct (simple_coords _ _ _ HR HCo Hth') as (_ & _ & ? & ?).
      unfold simple_inb in Hin, Hin'. apply andb_true_iff in Hin, Hin'.
      unfold simple_idx in Hidx. unfold simple_val.
      apply offset_inj in Hidx as [-> ->]; [done|lia..]. }
    destruct (for_each_fills _ _ _ (fun th => th ∈ all) Hval ths (fun th => [th])
                (Simple.matrixMultiply A B numAColumns numBColumns numCRows
                   numCColumns Simple.dimBlock) st)
      as (st2 & Hrun2 & Hfill2).
    + intros i th Hi Hth. apply list_elem_of_singleton in Hth as ->.
      unfold all. by rewrite <- Hths.
    + intros th s Hth Hlen.
      assert (th ∈ all) as Hall by (unfold all; by rewrite <- Hths).
      destruct (simple_coords _ _ _ HR HCo Hall) as (_ & _ & ? & ?).
      destruct (simple_inb numCRows numCColumns th) eqn:Hin.
      * pose proof Hin as Hin'. unfold simple_inb in Hin'.
        apply andb_true_iff in Hin'.
        eexists. split.
        -- eapply naive_in_bounds; eauto; lia.
        -- simpl.
           apply (fills_write (simple_inb numCRows numCColumns)
                    (simple_idx numCColumns)
                    (simple_val A B numAColumns numBColumns) th); [done|].
           unfold simple_idx.
           pose proof (offset_bound numCRows numCColumns
                         (Simple.Row Simple.dimBlock th)
                         (Simple.Col Simple.dimBlock th)). lia.
      * exists s. split; [by apply naive_out_of_bounds|]. by apply fills_skip.
    + exists st1, st2. split; [exact Hrun1|]. split; [exact Hrun2|].
      rewrite bind_singleton in Hfill2.
      eapply fills_unique; [|exact Hfill1].
      eapply fills_members; [|exact Hfill2].
      intros th. unfold all. by rewrite Hths.
  - set (all := launch_threads (Tiled.dimGrid numCRows numCColumns) Tiled.dimBlock).
    destruct (tiled_launch_fills A B numARows numAColumns numBRows numBColumns
                numCRows numCColumns HA HB Hshared HCrows HCcols st HC)
      as (st1 & Hrun1 & Hfill1 & _).
    assert (forall th th', th ∈ all -> th' ∈ all ->
              tiled_inb numCRows numCColumns th = true ->
              tiled_inb numCRows numCColumns th' = true ->
              tiled_idx numCColumns th = tiled_idx numCColumns th' ->
              tiled_val A B numAColumns numCRows numCColumns th
              = tiled_val A B numAColumns numCRows numCColumns th') as Hval.
    { intros th th' Hth Hth' Hin Hin' Hidx.
      by rewrite (tiled_idx_inj A B numARows numAColumns numBRows numBColumns
                    numCRows numCColumns HA HB Hshared HCrows HCcols
                    th th' Hth Hth' Hin Hin' Hidx). }
    destruct (for_each_fills _ _ _ (fun th => th ∈ all) Hval blocks
                (Tiled.threads Tiled.dimBlock)
                (Tiled.matrixMultiply A B numAColumns numCRows numCColumns
                   Tiled.dimBlock) st)
      as (st2 & Hrun2 & Hfill2).
    + intros b th Hb Hth. unfold all. rewrite launch_threads_blocks.
      apply list_elem_of_bind. exists b. split; [done|]. by rewrite <- Hblocks.
    + intros b s Hb Hlen.
      destruct (block_Ok A B numARows numAColumns numBRows numBColumns
                  numCRows numCColumns HA HB Hshared HCrows HCcols b s)
        as (s' & Hrun & Hfill & _); [by rewrite <- Hblocks|lia..|].
      exists s'. split; [exact Hrun|exact Hfill].
    + exists st1, st2. split; [exact Hrun1|]. split; [exact Hrun2|].
      eapply fills_unique; [|exact Hfill1].
      eapply fills_members; [|exact Hfill2].
      intros th. unfold all. rewrite launch_threads_blocks.
      by rewrite Hblocks.
Qed.

Lemma schedule_is_immaterial_witness :
  let A := [1; 2; 3; 4] in
  let B := [5; 6; 7; 8] in
  let st := State [0; 0; 0; 0] (fun _ _ => 0) (fun _ _ => 0) (fun _ _ => 0) [] in
  exists st1 st2,
    Simple.kernel A B 2 2 2 2 2 2 (Simple.dimGrid 2 2) Simple.dimBlock st
    = (Ok tt, st1)
    /\ for_each (reverse (launch_threads (Simple.dimGrid 2 2) Simple.dimBlock))
         (Simple.matrixMultiply A B 2 2 2 2 Simple.dimBlock) st = (Ok tt, st2)
    /\ memC st2 = memC st1.
Proof.
  intros A B st.
  destruct (schedule_is_immaterial A B 2 2 2 2 2 2 st
              (reverse (launch_threads (Simple.dimGrid 2 2) Simple.dimBlock))
              (indices (Tiled.dimGrid 2 2)))
    as [Hnaive _]; [reflexivity..| | |exact Hnaive].
  - apply reverse_Permutation.
  - reflexivity.
Defined.

(** ** An empty shared dimension *)

Lemma for_each_Ok {R T} (l : list T) (body : T -> M R unit) (st : state R) :
  (forall i s, i ∈ l -> exists s', body i s = (Ok tt, s')) ->
  exists st', for_each l body st = (Ok tt, st').
Proof.
  intros Hbody.
  destruct (for_each_invariant (fun _ _ => True) l body st) as (st' & Hrun & _);
    [done| |by exists st'].
  intros done i s [rest Hrest] _.
  destruct (Hbody i s) as (s' & Hs'); [|by exists s'].
  rewrite Hrest. apply elem_of_app. right. left.
Qed.

(** The first block of a grid, the first thread of a block. *)
Lemma indices_head d :
  1 <= dim_x d -> 1 <= dim_y d -> exists rest, indices d = Dim3 0 0 :: rest.
Proof.
  intros Hx Hy. unfold indices.
  rewrite (seqZ_cons 0 (dim_y d)) by lia. rewrite bind_cons.
  rewrite (seqZ_cons 0 (dim_x d)) by lia. rewrite bind_cons. simpl.
  by eexists.
Qed.

Lemma threads_in_tile b th :
  th ∈ Tiled.threads Tiled.dimBlock b ->
  0 <= Tiled.tx th < 16 /\ 0 <= Tiled.ty th < 16.
Proof.
  unfold Tiled.threads. intros Hth.
  apply list_elem_of_fmap in Hth as (t & -> & Ht).
  apply elem_of_indices in Ht. unfold Tiled.tx, Tiled.ty. simpl in *.
  unfold TILE_WIDTH in Ht. lia.
Qed.

Section EmptyShared.
Context {R : Type} `{Scalar R}.
Variables (A B : list R) (numBColumns numCRows numCColumns : Z).

(** A tile before the [int] of [t * TILE_WIDTH + tx] wraps: both guards
    fail, and the thread stores zeros. *)
Lemma load_tiles_empty t th (s : state R) :
  0 <= t < 134217728 ->
  0 <= Tiled.tx th < 16 -> 0 <= Tiled.ty th < 16 ->
  exists s', Tiled.load_tiles A B 0 numCRows numCColumns Tiled.dimBlock t th s
             = (Ok tt, s').
Proof.
  intros Ht Htx Hty. unfold Tiled.load_tiles, Tiled.n.
  rewrite !global_coord by (unfold int_max; lia).
  replace (t * 16 + Tiled.tx th <? 0) with false by (symmetry; apply Z.ltb_ge; lia).
  replace (t * 16 + Tiled.ty th <? 0) with false by (symmetry; apply Z.ltb_ge; lia).
  rewrite !andb_false_r.
  erewrite bind_Ok; [|apply sstoreA_Ok, in_tile_true; lia].
  erewrite bind_Ok; [|apply sstoreB_Ok, in_tile_true; lia].
  by eexists.
Qed.

(** The tiles [0 .. 2^27 - 1] of a block run without a fault. *)
Lemma tiles_before_wrap b (s : state R) :
  exists s',
    for_each (seqZ 0 134217728) (fun t =>
      for_each (Tiled.threads Tiled.dimBlock b)
        (Tiled.load_tiles A B 0 numCRows numCColumns Tiled.dimBlock t) ;;
      for_each (Tiled.threads Tiled.dimBlock b) Tiled.accumulate) s
    = (Ok tt, s').
Proof.
  apply for_each_Ok. intros t s1 Ht. apply elem_of_seqZ in Ht.
  destruct (for_each_Ok (Tiled.threads Tiled.dimBlock b)
              (Tiled.load_tiles A B 0 numCRows numCColumns Tiled.dimBlock t) s1)
    as (s2 & Hload).
  { intros th s0 Hth. apply threads_in_tile in Hth as [Htx Hty].
    apply load_tiles_empty; lia. }
  destruct (for_each_Ok (Tiled.threads Tiled.dimBlock b) Tiled.accumulate s2)
    as (s3 & Hacc).
  { intros th s0 Hth. apply threads_in_tile in Hth as [Htx Hty].
    destruct (accumulate_Ok th s0 Htx Hty) as (s' & Hs' & _). by exists s'. }
  exists s3. by rewrite (bind_Ok _ _ _ _ _ Hload).
Qed.

(** In tile [2^27] the first thread of the first block reads [A] at
    [INT_MIN]. *)
Lemma load_tiles_wrapped (s : state R) :
  1 <= numCRows ->
  Tiled.load_tiles A B 0 numCRows numCColumns Tiled.dimBlock 134217728
    (Thread (Dim3 0 0) (Dim3 0 0)) s
  = (Fault, log s [(Thread (Dim3 0 0) (Dim3 0 0), Load GlobalA (-2147483648))]).
Proof.
  intros HR. unfold Tiled.load_tiles, Tiled.n.
  change (Tiled.Row Tiled.dimBlock (Thread (Dim3 0 0) (Dim3 0 0))) with 0.
  change (to_int (uint_add (uint_mul 134217728 TILE_WIDTH)
                    (Tiled.tx (Thread (Dim3 0 0) (Dim3 0 0)))))
    with (-2147483648).
  replace (0 <? numCRows) with true by (symmetry; apply Z.ltb_lt; lia).
  change (int_add (int_mul 0 0) (-2147483648)) with (-2147483648).
  cbn [andb Z.ltb Z.compare].
  apply bind_Fault, bind_Fault, gload_Fault, elem_None. lia.
Qed.

Lemma tiled_block_wrapped (s : state R) :
  1 <= numCRows ->
  exists s',
    Tiled.matrixMultiply A B 0 numCRows numCColumns Tiled.dimBlock (Dim3 0 0) s
    = (Fault, s')
    /\ last (trace s')
       = Some (Thread (Dim3 0 0) (Dim3 0 0), Load GlobalA (-2147483648)).
Proof.
  intros HR. unfold Tiled.matrixMultiply.
  destruct (init_phase (Dim3 0 0) s) as (s1 & Hinit & _).
  rewrite (bind_Ok _ _ _ _ _ Hinit).
  destruct (tiles_before_wrap (Dim3 0 0) s1) as (s2 & Hbefore).
  destruct (indices_head Tiled.dimBlock) as (others & Hothers);
    [unfold Tiled.dimBlock, TILE_WIDTH; simpl; lia..|].
  eexists. split.
  - apply bind_Fault.
    change (Tiled.tile_count 0) with (134217728 + 134217728).
    rewrite seqZ_app by lia.
    rewrite (seqZ_cons (0 + 134217728)) by lia.
    eapply for_each_fault; [exact Hbefore|].
    apply bind_Fault. unfold Tiled.threads. rewrite Hothers, fmap_cons.
    apply (for_each_fault [] _ _ _ s2 s2); [reflexivity|].
    by apply load_tiles_wrapped.
  - simpl. by rewrite last_snoc.
Qed.

(** A thread of the naive kernel within the output writes zero, and reads
    nothing. *)
Lemma naive_empty th (s : state R) :
  0 <= Simple.Row Simple.dimBlock th < numCRows ->
  0 <= Simple.Col Simple.dimBlock th < numCColumns ->
  numCRows * numCColumns <= int_max ->
  numCRows * numCColumns <= Z.of_nat (length (memC s)) ->
  Simple.matrixMultiply A B 0 numBColumns numCRows numCColumns Simple.dimBlock th s
  = (Ok tt,
     set_memC (log s [(th, Store GlobalC (simple_idx numCColumns th))])
       (<[Z.to_nat (simple_idx numCColumns th) := rzero]> (memC s))).
Proof.
  intros Hr Hc HCint HClen. unfold Simple.matrixMultiply, simple_idx.
  replace ((Simple.Row Simple.dimBlock th <? numCRows)
           && (Simple.Col Simple.dimBlock th <? numCColumns)) with true
    by (symmetry; apply andb_true_iff; lia).
  pose proof (offset_bound numCRows numCColumns _ _ Hr Hc).
  rewrite int_mul_small by (unfold int_max in *; nia).
  rewrite int_add_small by (unfold int_max in *; lia).
  change (seqZ 0 0) with (@nil Z). simpl.
  unfold bind at 1. unfold ret at 1.
  by rewrite gstore_Ok by lia.
Qed.

End EmptyShared.

(** X8.  With an empty shared dimension ([numAColumns = 0]) the two kernels
    part.  The naive launch runs without a fault and writes zero to every
    cell of the output.  In the tiled kernel the loop bound
    [(n - 1) / TILE_WIDTH + 1] is computed in [unsigned] and is 2^28, not 0;
    at tile 2^27 the [int] coordinate [t * TILE_WIDTH + tx] wraps to a
    negative number, the guard [A_x_coord < n] holds, and the launch faults
    on a load from [A] at a negative index. *)
Theorem empty_shared_dimension {R : Type} `{Scalar R} (A B : list R)
    (numARows numBRows numBColumns numCRows numCColumns : Z) (st : state R) :
  holds (memC st) numCRows numCColumns = true ->
  (exists st',
     Simple.kernel A B numARows 0 numBRows numBColumns numCRows numCColumns
       (Simple.dimGrid numCRows numCColumns) Simple.dimBlock st = (Ok tt, st')
     /\ (forall row col, 0 <= row < numCRows -> 0 <= col < numCColumns ->
           elem (memC st') (row * numCColumns + col) = Some rzero)
     /\ (forall i, numCRows * numCColumns <= i ->
           elem (memC st') i = elem (memC st) i))
  /\ Tiled.tile_count 0 = 268435456
  /\ (exists st' th i,
        Tiled.kernel A B numARows 0 numBRows numBColumns numCRows numCColumns
          (Tiled.dimGrid numCRows numCColumns) Tiled.dimBlock st = (Fault, st')
        /\ last (trace st') = Some (th, Load GlobalA i)
        /\ i < 0).
Proof.
  intros HC. apply holds_spec in HC as (HCr & HCc & HCint & HClen).
  assert (1 <= numCRows <= int_max /\ 1 <= numCColumns <= int_max) as [HR HCo]
    by (unfold int_max in *; nia).
  split; [|split; [reflexivity|]].
  - set (all := launch_threads (Simple.dimGrid numCRows numCColumns) Simple.dimBlock).
    destruct (for_each_fills (simple_inb numCRows numCColumns)
                (simple_idx numCColumns) (fun _ => rzero) (fun th => th ∈ all)
                ltac:(done) all (fun th => [th])
                (Simple.matrixMultiply A B 0 numBColumns numCRows numCColumns
                   Simple.dimBlock) st)
      as (st' & Hrun & Hlen & Hw & Hf).
    + intros i th Hi Hth. by apply list_elem_of_singleton in Hth as ->.
    + intros th s Hth Hlen.
      destruct (simple_coords _ _ _ HR HCo Hth) as (_ & _ & ? & ?).
      destruct (simple_inb numCRows numCColumns th) eqn:Hin.
      * pose proof Hin as Hin'. unfold simple_inb in Hin'.
        apply andb_true_iff in Hin'.
        eexists. split; [apply naive_empty; lia|]. simpl.
        apply (fills_write (simple_inb numCRows numCColumns)
                 (simple_idx numCColumns) (fun _ => rzero) th); [done|].
        unfold simple_idx.
        pose proof (offset_bound numCRows numCColumns
                      (Simple.Row Simple.dimBlock th)
                      (Simple.Col Simple.dimBlock th)). lia.
      * exists s. split; [by apply naive_out_of_bounds|]. by apply fills_skip.
    + rewrite bind_singleton in Hw, Hf.
      exists st'. split; [|split].
      * unfold Simple.kernel. by rewrite simple_launch_flat.
      * intros row col Hrow Hcol.
        destruct (simple_cover _ _ row col HR HCo Hrow Hcol) as (th & Hth & Hr & Hc).
        specialize (Hw th Hth). unfold simple_inb, simple_idx in Hw.
        rewrite Hr, Hc in Hw. apply Hw, andb_true_iff. lia.
      * intros i Hi. apply Hf. intros th Hth Hin.
        destruct (simple_coords _ _ _ HR HCo Hth) as (_ & _ & ? & ?).
        unfold simple_inb in Hin. apply andb_true_iff in Hin. unfold simple_idx.
        pose proof (offset_bound numCRows numCColumns
                      (Simple.Row Simple.dimBlock th)
                      (Simple.Col Simple.dimBlock th)). lia.
  - destruct (tiled_block_wrapped A B numCRows numCColumns st ltac:(lia))
      as (st' & Hrun & Hlast).
    exists st', (Thread (Dim3 0 0) (Dim3 0 0)), (-2147483648).
    split; [|split; [exact Hlast|lia]].
    unfold Tiled.kernel, Tiled.launch.
    destruct (indices_head (Tiled.dimGrid numCRows numCColumns)) as (rest & ->).
    + rewrite tiled_dimGrid by done. simpl.
      pose proof (Z.div_pos (numCColumns - 1) 16 ltac:(lia) ltac:(lia)). lia.
    + rewrite tiled_dimGrid by done. simpl.
      pose proof (Z.div_pos (numCRows - 1) 16 ltac:(lia) ltac:(lia)). lia.
    + by apply (for_each_fault [] _ _ _ st st).
Qed.

Lemma empty_shared_dimension_witness :
  let st := State [7] (fun _ _ => 0) (fun _ _ => 0) (fun _ _ => 0) [] in
  (exists st',
     Simple.kernel [] [] 1 0 0 1 1 1 (Simple.dimGrid 1 1) Simple.dimBlock st
     = (Ok tt, st')
     /\ elem (memC st') 0 = Some 0)
  /\ exists st' th i,
       Tiled.kernel [] [] 1 0 0 1 1 1 (Tiled.dimGrid 1 1) Tiled.dimBlock st
       = (Fault, st')
       /\ last (trace st') = Some (th, Load GlobalA i)
       /\ i < 0.
Proof.
  intros st.
  destruct (empty_shared_dimension [] [] 1 0 1 1 1 st)
    as ((st' & Hrun & Hin & _) & _ & Hfault); [reflexivity|].
  split; [|exact Hfault].
  exists st'. split; [exact Hrun|]. apply (Hin 0 0); lia.
Defined.

(** ** The launch geometry of an empty matrix *)

(** [(n - 1) / TILE_WIDTH + 1] for an [int] that is not positive: [n - 1]
    is negative and wraps when it is converted to [unsigned]. *)
Lemma extent_nonpositive n :
  -2147483648 < n <= 0 ->
  uint_add (uint_div (int_add n (-1)) TILE_WIDTH) 1
  = 268435456 + ((n - 1) / 16 + 1)
  /\ 134217728 < 268435456 + ((n - 1) / 16 + 1) <= 268435456.
Proof.
  intros Hn. unfold uint_add, uint_div, TILE_WIDTH.
  rewrite int_add_small by (unfold int_max; lia).
  replace (n + -1) with (n - 1) by lia.
  assert (to_unsigned (n - 1) = n - 1 + 268435456 * 16) as ->.
  { unfold to_unsigned. symmetry.
    apply (Z.mod_unique_pos _ _ (-1)); lia. }
  rewrite !(to_unsigned_small 16), !(to_unsigned_small 1) by lia.
  rewrite Z.div_add by lia.
  assert (-134217728 <= (n - 1) / 16 < 0) as Hq.
  { split; [apply Z.div_le_lower_bound | apply Z.div_lt_upper_bound]; lia. }
  rewrite (to_unsigned_small ((n - 1) / 16 + 268435456)) by lia.
  rewrite to_unsigned_small by lia. lia.
Qed.

(** X9.  For an extent [n] that is zero or negative (an empty matrix), the
    expression [(n - 1) / TILE_WIDTH + 1] of the launch geometry and of the
    tile loop is not 0: computed in [unsigned] it is
    [2^28 + floor((n - 1) / 16) + 1], more than 2^27 and 2^28 at [n = 0].
    This is the number of blocks either driver requests along the axis of
    that extent, and the number of tiles of the tiled kernel. *)
Theorem empty_extent_is_huge (n m : Z) :
  -2147483648 < n <= 0 ->
  let extent := 268435456 + ((n - 1) / 16 + 1) in
  134217728 < extent <= 268435456
  /\ dim_x (Simple.dimGrid n m) = extent
  /\ dim_y (Simple.dimGrid m n) = extent
  /\ dim_y (Tiled.dimGrid n m) = extent
  /\ dim_x (Tiled.dimGrid m n) = extent
  /\ Tiled.tile_count n = extent.
Proof.
  intros Hn extent. destruct (extent_nonpositive n Hn) as [E Hb].
  split; [exact Hb|]. unfold Simple.dimGrid, Tiled.dimGrid, Tiled.tile_count, Tiled.n.
  simpl. by rewrite !E.
Qed.

Lemma empty_extent_is_huge_witness :
  dim_x (Simple.dimGrid 0 5) = 268435456
  /\ dim_x (Tiled.dimGrid 5 0) = 268435456
  /\ Tiled.tile_count 0 = 268435456.
Proof.
  destruct (empty_extent_is_huge 0 5) as (_ & Hs & _ & _ & Ht & Hn); [lia|].
  split; [exact Hs|]. split; [exact Ht|exact Hn].
Defined.

(** ** [printMatrix] (TiledMatrixMultiplication.cpp, lines 17-28)

    The function is defined in the tiled file and called nowhere.  The
    text that [str << x] appends for a [float] is a parameter; the log is
    the list of the lines handed to [wbLog].  A read outside of [m] is
    undefined behaviour: [None]. *)

(** The text [" "]. *)
Definition blank : String.string :=
  String.String (Ascii.ascii_of_nat 32) String.EmptyString.

Section PrintMatrix.
Context {R : Type} `{Scalar R}.
Variable show : R -> String.string.

(** [str << m[i * numColumns + j] << " ";] *)
Definition print_cell (m : list R) (numColumns i : Z) (str : String.string)
    (j : Z) : option String.string :=
  v ← elem m (int_add (int_mul i numColumns) j);
  Some (String.append str (String.append (show v) blank)).

(** The loop over [j], from an empty [std::stringstream]. *)
Definition print_row (m : list R) (numColumns i : Z) : option String.string :=
  fold_left (fun str j => s ← str; print_cell m numColumns i s j)
    (seqZ 0 numColumns) (Some String.EmptyString).

(** The loop over [i]: one [wbLog] per row. *)
Definition printMatrix (m : list R) (numRows numColumns : Z)
    : option (list String.string) :=
  fold_left
    (fun log i =>
       lines ← log; line ← print_row m numColumns i; Some (lines ++ [line]))
    (seqZ 0 numRows) (Some []).

(** The text of row [i]: its entries in column order, each followed by
    one space. *)
Definition row_text (m : list R) (numColumns i : Z) : String.string :=
  fold_left
    (fun str j => String.append str
                    (String.append (show (entry m numColumns i j)) blank))
    (seqZ 0 numColumns) String.EmptyString.

Lemma fold_left_Some {T X} (f : X -> T -> option X) (g : X -> T -> X)
    (l : list T) (x : X) :
  (forall y j, j ∈ l -> f y j = Some (g y j)) ->
  fold_left (fun acc j => y ← acc; f y j) l (Some x) = Some (fold_left g l x).
Proof.
  revert x. induction l as [|j l IH]; intros x Hf; [done|].
  simpl. rewrite Hf by left. apply IH. intros y k Hk. apply Hf. by right.
Qed.

Lemma fold_left_None {T X} (f : X -> T -> option X) (l : list T) :
  fold_left (fun acc j => y ← acc; f y j) l None = None.
Proof. induction l as [|j l IH]; [done|]. simpl. apply IH. Qed.

Lemma fold_left_log {T X} (f : T -> X) (l : list T) (acc : list X) :
  fold_left (fun lines i => lines ++ [f i]) l acc = acc ++ (f <$> l).
Proof.
  revert acc. induction l as [|i l IH]; intros acc; simpl.
  - by rewrite app_nil_r.
  - by rewrite IH, <- app_assoc.
Qed.

Lemma print_row_Some (m : list R) numRows numColumns i :
  0 <= i < numRows -> 0 <= numColumns ->
  numRows * numColumns <= int_max ->
  numRows * numColumns <= Z.of_nat (length m) ->
  print_row m numColumns i = Some (row_text m numColumns i).
Proof.
  intros Hi Hc Hint Hlen. unfold print_row, row_text.
  apply (fold_left_Some (print_cell m numColumns i)). intros str j Hj.
  apply elem_of_seqZ in Hj. unfold print_cell.
  pose proof (offset_bound numRows numColumns i j ltac:(lia) ltac:(lia)).
  rewrite int_mul_small by (unfold int_max in *; nia).
  rewrite int_add_small by (unfold int_max in *; lia).
  unfold entry. rewrite elem_Some by lia. reflexivity.
Qed.

Lemma printMatrix_rows (m : list R) numRows numColumns :
  0 <= numColumns ->
  numRows * numColumns <= int_max ->
  numRows * numColumns <= Z.of_nat (length m) ->
  printMatrix m numRows numColumns
  = Some (row_text m numColumns <$> seqZ 0 numRows).
Proof.
  intros Hc Hint Hlen. unfold printMatrix.
  rewrite (fold_left_Some
             (fun lines i => line ← print_row m numColumns i; Some (lines ++ [line]))
             (fun lines i => lines ++ [row_text m numColumns i])).
  - f_equal. apply (fold_left_log (row_text m numColumns) _ []).
  - intros lines i Hi. apply elem_of_seqZ in Hi.
    by rewrite (print_row_Some m numRows numColumns i) by lia.
Qed.

Lemma seqZ_split n k :
  0 <= k < n -> seqZ 0 n = seqZ 0 k ++ k :: seqZ (k + 1) (n - k - 1).
Proof.
  intros Hk. replace n with (k + (1 + (n - k - 1))) at 1 by lia.
  rewrite seqZ_app by lia. f_equal. rewrite seqZ_cons by lia.
  repeat f_equal; lia.
Qed.

(** A buffer that is too short is read past its end. *)
Lemma printMatrix_short (m : list R) numRows numColumns :
  1 <= numColumns ->
  numRows * numColumns <= int_max ->
  Z.of_nat (length m) < numRows * numColumns ->
  printMatrix m numRows numColumns = None.
Proof.
  intros Hc Hint Hlen.
  destruct (offset_coords numRows numColumns (Z.of_nat (length m)) Hc ltac:(lia))
    as (Hi & Hj & E).
  set (i := Z.of_nat (length m) / numColumns) in *.
  set (j := Z.of_nat (length m) mod numColumns) in *.
  assert (print_row m numColumns i = None) as Hrow.
  { unfold print_row.
    rewrite (seqZ_split numColumns j) by lia. rewrite fold_left_app.
    erewrite (fold_left_Some (print_cell m numColumns i)
                (fun str k => String.append str
                   (String.append (show (entry m numColumns i k)) blank))).
    - simpl. unfold print_cell at 2.
      pose proof (offset_bound numRows numColumns i j ltac:(lia) ltac:(lia)).
      rewrite int_mul_small by (unfold int_max in *; nia).
      rewrite int_add_small by (unfold int_max in *; lia).
      rewrite (elem_None m (i * numColumns + j)) by lia. simpl.
      apply (fold_left_None (print_cell m numColumns i)).
    - intros str k Hk. apply elem_of_seqZ in Hk. unfold print_cell.
      pose proof (offset_bound numRows numColumns i k ltac:(lia) ltac:(lia)).
      rewrite int_mul_small by (unfold int_max in *; nia).
      rewrite int_add_small by (unfold int_max in *; lia).
      unfold entry. rewrite elem_Some by nia. reflexivity. }
  unfold printMatrix.
  rewrite (seqZ_split numRows i) by lia. rewrite fold_left_app. simpl.
  match goal with
  | |- context [fold_left ?f (seqZ 0 i) (Some [])] =>
      destruct (fold_left f (seqZ 0 i) (Some [])) as [lines|]
  end; simpl; rewrite ?Hrow; simpl;
    apply (fold_left_None
             (fun lines i0 => line ← print_row m numColumns i0;
                              Some (lines ++ [line]))).
Qed.

End PrintMatrix.

(** X10.  [printMatrix] on a buffer that holds a [numRows x numColumns]
    matrix logs one line per row, in row order, and the line of a row is
    the text of its entries in column order, each followed by one space.
    With no rows it logs nothing.  On a buffer shorter than
    [numRows * numColumns] it reads past the end of the buffer. *)
Theorem printMatrix_logs_rows {R : Type} `{Scalar R} (show : R -> String.string)
    (m : list R) (numRows numColumns : Z) :
  0 <= numRows -> 1 <= numColumns -> numRows * numColumns <= int_max ->
  (numRows * numColumns <= Z.of_nat (length m) ->
   exists lines,
     printMatrix show m numRows numColumns = Some lines
     /\ Z.of_nat (length lines) = numRows
     /\ (forall i, 0 <= i < numRows ->
           lines !! Z.to_nat i = Some (row_text show m numColumns i)))
  /\ (numRows = 0 -> printMatrix show m numRows numColumns = Some [])
  /\ (Z.of_nat (length m) < numRows * numColumns ->
      printMatrix show m numRows numColumns = None).
Proof.
  intros Hr Hc Hint. split; [|split].
  - intros Hlen. eexists. split; [apply printMatrix_rows; lia|].
    split.
    + rewrite length_fmap, length_seqZ. lia.
    + intros i Hi. rewrite list_lookup_fmap, lookup_seqZ_lt by lia.
      simpl. f_equal. f_equal. lia.
  - intros ->. reflexivity.
  - intros Hlen. apply printMatrix_short; lia.
Qed.

Lemma printMatrix_logs_rows_witness :
  let show := fun z : Z => if z =? 1 then blank else String.EmptyString in
  (exists lines,
     printMatrix show [1; 2; 3; 4] 2 2 = Some lines
     /\ Z.of_nat (length lines) = 2
     /\ lines !! 1%nat = Some (row_text show [1; 2; 3; 4] 2 1))
  /\ printMatrix show [1; 2; 3] 2 2 = None.
Proof.
  intros show. split.
  - destruct (printMatrix_logs_rows show [1; 2; 3; 4] 2 2)
      as [Hrows _]; [lia | lia | unfold int_max; lia |].
    destruct Hrows as (lines & Hrun & Hlen & Hline); [simpl; lia|].
    exists lines. split; [exact Hrun|]. split; [exact Hlen|].
    apply (Hline 1). lia.
  - destruct (printMatrix_logs_rows show [1; 2; 3] 2 2)
      as (_ & _ & Hshort); [lia | lia | unfold int_max; lia |].
    apply Hshort. simpl. lia.
Defined.

(** ** More columns in [A] than rows in [B] *)

Lemma foldM_fault {R T X} (l1 l2 : list T) (i : T) (body : T -> X -> M R X)
    (acc acc1 : X) (st st1 st2 : state R) :
  foldM l1 acc body st = (Ok acc1, st1) ->
  body i acc1 st1 = (Fault, st2) ->
  foldM (l1 ++ i :: l2) acc body st = (Fault, st2).
Proof.
  revert acc st. induction l1 as [|j l1 IH]; intros acc st Hpre Hi; simpl in *.
  - injection Hpre as -> ->. by apply bind_Fault.
  - unfold bind in *. destruct (body j acc st) as [[a|] s]; [|done].
    by apply IH.
Qed.

Lemma foldM_Ok {R T X} (l : list T) (body : T -> X -> M R X) (acc : X)
    (st : state R) :
  (forall i a s, i ∈ l -> exists a' s', body i a s = (Ok a', s')) ->
  exists acc' st', foldM l acc body st = (Ok acc', st').
Proof.
  intros Hbody.
  destruct (foldM_invariant (fun _ _ _ => True) l body [] acc st)
    as (acc' & st' & Hrun & _); [done| |by exists acc', st'].
  intros done i a s [rest Hrest] _.
  destruct (Hbody i a s) as (a' & s' & Hs'); [|by exists a', s'].
  simpl in Hrest. rewrite Hrest. apply elem_of_app. right. left.
Qed.

(** The threads of a block that run before thread [(0, y)]. *)
Lemma indices_split d y :
  1 <= dim_x d -> 0 <= y < dim_y d ->
  exists before after,
    indices d = before ++ Dim3 0 y :: after
    /\ forall i, i ∈ before -> 0 <= dim_x i < dim_x d /\ 0 <= dim_y i < y.
Proof.
  intros Hx Hy. unfold indices.
  set (row := fun y0 : Z => seqZ 0 (dim_x d) ≫= fun x => [Dim3 x y0]).
  exists (seqZ 0 y ≫= row),
    ((seqZ (0 + 1) (dim_x d - 0 - 1) ≫= fun x => [Dim3 x y])
     ++ (seqZ (y + 1) (dim_y d - y - 1) ≫= row)).
  split.
  - rewrite (seqZ_split (dim_y d) y) by lia. rewrite bind_app, bind_cons.
    assert (row y = Dim3 0 y :: (seqZ (0 + 1) (dim_x d - 0 - 1)
                                 ≫= fun x => [Dim3 x y])) as ->; [|done].
    unfold row. rewrite (seqZ_split (dim_x d) 0) by lia.
    by rewrite bind_app, bind_cons.
  - intros i Hi. apply list_elem_of_bind in Hi as (y' & Hi & Hy').
    apply list_elem_of_bind in Hi as (x' & Hi & Hx').
    apply list_elem_of_singleton in Hi as ->.
    apply elem_of_seqZ in Hy', Hx'. simpl. lia.
Qed.

Section ExcessColumns.
Context {R : Type} `{Scalar R}.
Variables (A B : list R).
Variables (numARows numAColumns numBRows numBColumns numCRows numCColumns : Z).
Hypothesis HA : holds A numARows numAColumns = true.
Hypothesis HBrows : 1 <= numBRows.
Hypothesis HBcols : 1 <= numBColumns.
Hypothesis HBint : numBRows * numBColumns <= int_max.
Hypothesis HBlen : Z.of_nat (length B) = numBRows * numBColumns.
Hypothesis Hexcess : numBRows < numAColumns.
Hypothesis HCrows : numCRows = numARows.
Hypothesis HCcols : numCColumns = numBColumns.

Abbreviation first_thread := (Thread (Dim3 0 0) (Dim3 0 0)).

Lemma excess_facts :
  1 <= numCRows <= int_max /\ 1 <= numCColumns <= int_max
  /\ 1 <= numAColumns <= int_max
  /\ numCRows * numAColumns <= int_max
  /\ numCRows * numAColumns <= Z.of_nat (length A).
Proof.
  apply holds_spec in HA as (? & ? & ? & ?).
  subst numCRows numCColumns. unfold int_max in *.
  repeat split; try lia; nia.
Qed.

(** The naive kernel: the first thread reads row [numBRows] of [B]. *)
Lemma naive_excess (st : state R) :
  exists st',
    Simple.launch A B numAColumns numBColumns numCRows numCColumns
      Simple.dimBlock (Simple.dimGrid numCRows numCColumns) st = (Fault, st')
    /\ last (trace st') = Some (first_thread, Load GlobalB (numBRows * numBColumns)).
Proof.
  destruct excess_facts as (HR & HCo & Hn & HAint & HAlen).
  assert (forall i, 0 <= i <= numBRows ->
            int_add (int_mul (Simple.Row Simple.dimBlock first_thread) numAColumns) i
            = i
            /\ int_add (Simple.Col Simple.dimBlock first_thread)
                 (int_mul i numBColumns) = i * numBColumns
            /\ 0 <= i < Z.of_nat (length A)
            /\ 0 <= i * numBColumns <= numBRows * numBColumns) as Hidx.
  { intros i Hi.
    change (Simple.Row Simple.dimBlock first_thread) with 0.
    change (Simple.Col Simple.dimBlock first_thread) with 0.
    assert (0 <= i * numBColumns <= numBRows * numBColumns) by nia.
    rewrite !int_mul_small by (unfold int_max in *; lia).
    rewrite !int_add_small by (unfold int_max in *; lia).
    split; [lia|]. split; [lia|]. split; [nia|lia]. }
  destruct (foldM_Ok (seqZ 0 numBRows)
              (Simple.dot_step A B numAColumns numBColumns Simple.dimBlock
                 first_thread) rzero st) as (acc & st1 & Hbefore).
  { intros i a s Hi. apply elem_of_seqZ in Hi.
    destruct (Hidx i ltac:(lia)) as (Ea & Eb & HinA & HinB).
    unfold Simple.dot_step. rewrite Ea, Eb.
    erewrite bind_Ok; [|apply gload_Ok, elem_Some; lia].
    erewrite bind_Ok; [|apply gload_Ok, elem_Some; nia].
    by eexists _, _. }
  destruct (Hidx numBRows ltac:(lia)) as (Ea & Eb & HinA & HinB).
  eexists. split.
  - rewrite simple_launch_flat. unfold launch_threads.
    destruct (indices_head (Simple.dimGrid numCRows numCColumns)) as (blocks & ->).
    { rewrite simple_dimGrid by done. simpl.
      pose proof (Z.div_pos (numCRows - 1) 16 ltac:(lia) ltac:(lia)). lia. }
    { rewrite simple_dimGrid by done. simpl.
      pose proof (Z.div_pos (numCColumns - 1) 16 ltac:(lia) ltac:(lia)). lia. }
    destruct (indices_head Simple.dimBlock) as (others & ->);
      [unfold Simple.dimBlock, TILE_WIDTH; simpl; lia..|].
    rewrite bind_cons, fmap_cons. simpl.
    apply (for_each_fault [] _ _ _ st st); [reflexivity|].
    unfold Simple.matrixMultiply.
    change (Simple.Row Simple.dimBlock first_thread) with 0 at 1.
    change (Simple.Col Simple.dimBlock first_thread) with 0 at 1.
    replace ((0 <? numCRows) && (0 <? numCColumns)) with true
      by (symmetry; apply andb_true_iff; lia).
    apply bind_Fault.
    rewrite (seqZ_split numAColumns numBRows) by lia.
    eapply foldM_fault; [exact Hbefore|].
    unfold Simple.dot_step. rewrite Ea, Eb.
    erewrite bind_Ok; [|apply gload_Ok, elem_Some; lia].
    apply bind_Fault, gload_Fault, elem_None. lia.
  - simpl. by rewrite last_snoc.
Qed.

(** The tiled kernel, first block: the coordinates of a thread. *)
Lemma first_block_coords th :
  th ∈ Tiled.threads Tiled.dimBlock (Dim3 0 0) ->
  0 <= Tiled.tx th < 16 /\ 0 <= Tiled.ty th < 16
  /\ Tiled.Row Tiled.dimBlock th = Tiled.ty th
  /\ Tiled.Col Tiled.dimBlock th = Tiled.tx th.
Proof.
  intros Hth. destruct (threads_in_tile _ _ Hth) as [Htx Hty].
  unfold Tiled.threads in Hth. apply list_elem_of_fmap in Hth as (t & -> & _).
  unfold Tiled.Row, Tiled.Col, Tiled.bx, Tiled.by_, Tiled.tx, Tiled.ty,
    Tiled.dimBlock in *.
  cbn [dim_x dim_y blockIdx threadIdx] in *.
  rewrite !global_coord by (unfold int_max; lia). lia.
Qed.

(** A thread of the first block whose row of the tile is a row of [B]
    loads within bounds. *)
Lemma load_tiles_within t th (s : state R) :
  th ∈ Tiled.threads Tiled.dimBlock (Dim3 0 0) ->
  0 <= t -> t * 16 + Tiled.ty th < numBRows ->
  exists s',
    Tiled.load_tiles A B numAColumns numCRows numCColumns Tiled.dimBlock t th s
    = (Ok tt, s').
Proof.
  intros Hth Ht Hrow.
  destruct excess_facts as (HR & HCo & Hn & HAint & HAlen).
  destruct (first_block_coords th Hth) as (Htx & Hty & ERow & ECol).
  unfold Tiled.load_tiles, Tiled.n. rewrite ERow, ECol.
  assert (t * 16 <= numAColumns) by lia.
  rewrite !global_coord by (unfold int_max in *; lia).
  assert (exists s1,
            (if (Tiled.ty th <? numCRows) && (t * 16 + Tiled.tx th <? numAColumns)
             then
               v <- gload th GlobalA A
                      (int_add (int_mul (Tiled.ty th) numAColumns)
                         (t * 16 + Tiled.tx th)) ;;
               sstoreA th (Tiled.ty th) (Tiled.tx th) v
             else sstoreA th (Tiled.ty th) (Tiled.tx th) rzero) s = (Ok tt, s1))
    as (s1 & HloadA).
  { destruct ((Tiled.ty th <? numCRows) && (t * 16 + Tiled.tx th <? numAColumns))
      eqn:E.
    - apply andb_true_iff in E.
      pose proof (offset_bound numCRows numAColumns (Tiled.ty th)
                    (t * 16 + Tiled.tx th) ltac:(lia) ltac:(lia)).
      rewrite int_mul_small by (unfold int_max in *; nia).
      rewrite int_add_small by (unfold int_max in *; lia).
      erewrite bind_Ok; [|apply gload_Ok, elem_Some; lia].
      eexists. apply sstoreA_Ok, in_tile_true; lia.
    - eexists. apply sstoreA_Ok, in_tile_true; lia. }
  rewrite (bind_Ok _ _ _ _ _ HloadA).
  assert (exists s2,
            (if (Tiled.tx th <? numCColumns) && (t * 16 + Tiled.ty th <? numAColumns)
             then
               v <- gload th GlobalB B
                      (int_add (int_mul (t * 16 + Tiled.ty th) numCColumns)
                         (Tiled.tx th)) ;;
               sstoreB th (Tiled.ty th) (Tiled.tx th) v
             else sstoreB th (Tiled.ty th) (Tiled.tx th) rzero) s1 = (Ok tt, s2))
    as (s2 & HloadB).
  { destruct ((Tiled.tx th <? numCColumns) && (t * 16 + Tiled.ty th <? numAColumns))
      eqn:E.
    - apply andb_true_iff in E.
      pose proof (offset_bound numBRows numCColumns (t * 16 + Tiled.ty th)
                    (Tiled.tx th) ltac:(lia) ltac:(lia)).
      rewrite int_mul_small by (unfold int_max in *; nia).
      rewrite int_add_small by (unfold int_max in *; lia).
      erewrite bind_Ok; [|apply gload_Ok, elem_Some; lia].
      eexists. apply sstoreB_Ok, in_tile_true; lia.
    - eexists. apply sstoreB_Ok, in_tile_true; lia. }
  rewrite (bind_Ok _ _ _ _ _ HloadB). by eexists.
Qed.

(** The thread of the first block that loads row [numBRows] of [B],
    column 0: there is no such row. *)
Lemma load_tiles_past (s : state R) :
  let th := Thread (Dim3 0 0) (Dim3 0 (numBRows mod 16)) in
  exists s',
    Tiled.load_tiles A B numAColumns numCRows numCColumns Tiled.dimBlock
      (numBRows / 16) th s = (Fault, s')
    /\ last (trace s') = Some (th, Load GlobalB (numBRows * numBColumns)).
Proof.
  intros th.
  destruct excess_facts as (HR & HCo & Hn & HAint & HAlen).
  pose proof (Z.div_mod numBRows 16 ltac:(lia)) as Hdm.
  pose proof (Z.mod_pos_bound numBRows 16 ltac:(lia)) as Hmod.
  assert (0 <= numBRows / 16) as Hdiv by (apply Z.div_pos; lia).
  assert (th ∈ Tiled.threads Tiled.dimBlock (Dim3 0 0)) as Hth
    by (apply coords_in_block; lia).
  destruct (first_block_coords th Hth) as (Htx & Hty & ERow & ECol).
  change (Tiled.tx th) with 0 in *. change (Tiled.ty th) with (numBRows mod 16) in *.
  unfold Tiled.load_tiles, Tiled.n. rewrite ERow, ECol.
  change (Tiled.tx th) with 0. change (Tiled.ty th) with (numBRows mod 16).
  rewrite !global_coord by (unfold int_max in *; lia).
  assert (exists s1,
            (if (numBRows mod 16 <? numCRows) && (numBRows / 16 * 16 + 0 <? numAColumns)
             then
               v <- gload th GlobalA A
                      (int_add (int_mul (numBRows mod 16) numAColumns)
                         (numBRows / 16 * 16 + 0)) ;;
               sstoreA th (numBRows mod 16) 0 v
             else sstoreA th (numBRows mod 16) 0 rzero) s = (Ok tt, s1))
    as (s1 & HloadA).
  { destruct ((numBRows mod 16 <? numCRows)
              && (numBRows / 16 * 16 + 0 <? numAColumns)) eqn:E.
    - apply andb_true_iff in E.
      pose proof (offset_bound numCRows numAColumns (numBRows mod 16)
                    (numBRows / 16 * 16 + 0) ltac:(lia) ltac:(lia)).
      rewrite int_mul_small by (unfold int_max in *; nia).
      rewrite int_add_small by (unfold int_max in *; lia).
      erewrite bind_Ok; [|apply gload_Ok, elem_Some; lia].
      eexists. apply sstoreA_Ok, in_tile_true; lia.
    - eexists. apply sstoreA_Ok, in_tile_true; lia. }
  rewrite (bind_Ok _ _ _ _ _ HloadA).
  replace (numBRows / 16 * 16 + numBRows mod 16) with numBRows by lia.
  replace ((0 <? numCColumns) && (numBRows <? numAColumns)) with true
    by (symmetry; apply andb_true_iff; lia).
  rewrite int_mul_small by (unfold int_max in *; subst numCColumns; lia).
  rewrite int_add_small by (unfold int_max in *; subst numCColumns; lia).
  rewrite HCcols, Z.add_0_r.
  eexists. split.
  - apply bind_Fault, bind_Fault, gload_Fault, elem_None. lia.
  - simpl. by rewrite last_snoc.
Qed.

Lemma tiled_excess (st : state R) :
  exists st' th,
    Tiled.launch A B numAColumns numCRows numCColumns Tiled.dimBlock
      (Tiled.dimGrid numCRows numCColumns) st = (Fault, st')
    /\ last (trace st') = Some (th, Load GlobalB (numBRows * numBColumns)).
Proof.
  destruct excess_facts as (HR & HCo & Hn & HAint & HAlen).
  pose proof (Z.div_mod numBRows 16 ltac:(lia)) as Hdm.
  pose proof (Z.mod_pos_bound numBRows 16 ltac:(lia)) as Hmod.
  assert (0 <= numBRows / 16) as Hdiv by (apply Z.div_pos; lia).
  assert (numBRows / 16 < Tiled.tile_count numAColumns) as Htile.
  { unfold Tiled.tile_count, Tiled.n. rewrite extent_small by done.
    pose proof (Z.div_le_mono numBRows (numAColumns - 1) 16 ltac:(lia) ltac:(lia)).
    lia. }
  set (b := Dim3 0 0).
  destruct (init_phase b st) as (s1 & Hinit & _).
  destruct (for_each_Ok (seqZ 0 (numBRows / 16)) (fun t =>
              for_each (Tiled.threads Tiled.dimBlock b)
                (Tiled.load_tiles A B numAColumns numCRows numCColumns
                   Tiled.dimBlock t) ;;
              for_each (Tiled.threads Tiled.dimBlock b) Tiled.accumulate) s1)
    as (s2 & Hbefore).
  { intros t s Ht. apply elem_of_seqZ in Ht.
    destruct (for_each_Ok (Tiled.threads Tiled.dimBlock b)
                (Tiled.load_tiles A B numAColumns numCRows numCColumns
                   Tiled.dimBlock t) s) as (s' & Hload).
    { intros th s0 Hth. destruct (threads_in_tile _ _ Hth) as [_ Hty].
      apply load_tiles_within; [done|lia..]. }
    destruct (for_each_Ok (Tiled.threads Tiled.dimBlock b) Tiled.accumulate s')
      as (s'' & Hacc).
    { intros th s0 Hth. destruct (threads_in_tile _ _ Hth) as [Htx Hty].
      destruct (accumulate_Ok th s0 Htx Hty) as (s3 & Hs3 & _). by exists s3. }
    exists s''. by rewrite (bind_Ok _ _ _ _ _ Hload). }
  destruct (indices_split Tiled.dimBlock (numBRows mod 16))
    as (before & after & Hsplit & Hfirst);
    [unfold Tiled.dimBlock, TILE_WIDTH; simpl; lia..|].
  destruct (for_each_Ok (Thread b <$> before)
              (Tiled.load_tiles A B numAColumns numCRows numCColumns
                 Tiled.dimBlock (numBRows / 16)) s2) as (s3 & Hrows).
  { intros th s0 Hth.
    assert (th ∈ Tiled.threads Tiled.dimBlock b) as Hin.
    { unfold Tiled.threads. rewrite Hsplit, fmap_app. apply elem_of_app. by left. }
    apply load_tiles_within; [done|lia|].
    apply list_elem_of_fmap in Hth as (i & -> & Hi). apply Hfirst in Hi.
    unfold Tiled.ty. simpl. lia. }
  destruct (load_tiles_past s3) as (s4 & Hpast & Hlast).
  exists s4, (Thread b (Dim3 0 (numBRows mod 16))). split; [|exact Hlast].
  unfold Tiled.launch.
  destruct (indices_head (Tiled.dimGrid numCRows numCColumns)) as (blocks & ->).
  { rewrite tiled_dimGrid by done. simpl.
    pose proof (Z.div_pos (numCColumns - 1) 16 ltac:(lia) ltac:(lia)). lia. }
  { rewrite tiled_dimGrid by done. simpl.
    pose proof (Z.div_pos (numCRows - 1) 16 ltac:(lia) ltac:(lia)). lia. }
  apply (for_each_fault [] _ _ _ st st); [reflexivity|].
  unfold Tiled.matrixMultiply. fold b.
  rewrite (bind_Ok _ _ _ _ _ Hinit). apply bind_Fault.
  rewrite (seqZ_split (Tiled.tile_count numAColumns) (numBRows / 16)) by lia.
  eapply for_each_fault; [exact Hbefore|].
  apply bind_Fault. unfold Tiled.threads at 1. rewrite Hsplit, fmap_app, fmap_cons.
  eapply for_each_fault; [exact Hrows|exact Hpast].
Qed.

End ExcessColumns.

Section HostFault.
Context {R : Type} `{Scalar R}.
Variable uninit : Z -> list R.
Variable dimGrid : Z -> Z -> dim3.
Variable dimBlock : dim3.
Variable kernel : list R -> list R -> Z -> Z -> Z -> Z -> Z -> Z ->
                  dim3 -> dim3 -> M R unit.
Variable junk : Z -> Z -> R.
Variables (hostA hostB : list R) (numARows numAColumns numBRows numBColumns : Z).
Variable script : list cudaError_t.

Hypothesis uninit_length : forall size, length (uninit size) = floats size.
Hypothesis HA : length hostA = floats (byte_size numARows numAColumns).
Hypothesis HB : length hostB = floats (byte_size numBRows numBColumns).

Lemma hbind_Undefined {X Y} (m : H_ R X) (k : X -> H_ R Y) (w w' : world R) :
  m w = (Undefined, w') -> hbind m k w = (Undefined, w').
Proof. unfold hbind. by intros ->. Qed.

Lemma run_launch_fault grid block dA dB dC (a b c : list R) n1 n2 n3 n4 n5 n6 st'
    (w : world R) :
  nth_outcome (outcomes w) 0 = cudaSuccess ->
  heap w !! dA = Some a -> heap w !! dB = Some b -> heap w !! dC = Some c ->
  kernel a b n1 n2 n3 n4 n5 n6 grid block (State c junk junk junk []) = (Fault, st') ->
  launch_kernel kernel junk grid block dA dB dC n1 n2 n3 n4 n5 n6 w
  = (Undefined, answered (Call_launch grid block) w).
Proof.
  intros E Ha Hb Hc Hrun. unfold launch_kernel.
  rewrite device_call_spec, E. simpl. by rewrite Ha, Hb, Hc, Hrun.
Qed.

(** A kernel that faults leaves [main] without a defined behaviour: the
    three buffers are allocated, nothing has been handed over. *)
Lemma main_body_kernel_fault st' :
  (forall i, (i < 6)%nat -> nth_outcome script i = cudaSuccess) ->
  kernel hostA hostB numARows numAColumns numBRows numBColumns numARows numBColumns
    (dimGrid numARows numBColumns) dimBlock
    (State (uninit (byte_size numARows numBColumns)) junk junk junk [])
  = (Fault, st') ->
  let run := main_body uninit dimGrid dimBlock kernel junk
               hostA numARows numAColumns hostB numBRows numBColumns
               (boot script) in
  fst run = Undefined
  /\ solution (snd run) = None
  /\ dom (heap (snd run)) = ({[1; 2; 3]} : gset Z)
  /\ calls (snd run)
     = take 6 (call_sequence (byte_size numARows numAColumns)
                 (byte_size numBRows numBColumns)
                 (byte_size numARows numBColumns)
                 (dimGrid numARows numBColumns) dimBlock).
Proof.
  intros Hok Hfault run. unfold run.
  rewrite (main_body_reaches_launch uninit dimGrid dimBlock kernel junk
             hostA hostB numARows numAColumns numBRows numBColumns script
             uninit_length HA HB) by (intros i Hi; apply Hok; lia).
  erewrite hbind_Undefined.
  2:{ eapply run_launch_fault; simpl.
      - rewrite nth_outcome_drop. apply Hok. lia.
      - rewrite lookup_insert_ne by lia. apply lookup_insert_eq.
      - apply lookup_insert_eq.
      - rewrite !lookup_insert_ne by lia. apply lookup_insert_eq.
      - exact Hfault. }
  unfold answered. simpl. split; [done|]. split; [done|]. split; [|done].
  rewrite !dom_insert_L, dom_empty_L. set_solver.
Qed.

End HostFault.

(** X11.  When [A] has more columns than [B] has rows, the kernels read
    [B] past its end: launched by [main] on well-formed host matrices, with
    the six calls up to the launch succeeding, either kernel faults on a
    load from [B] at index [numBRows * numBColumns], the length of the
    buffer.  [main] has no defined behaviour from there on: nothing is
    handed to [wbSolution] and the three device buffers stay allocated. *)
Theorem excess_columns_read_past_B {R : Type} `{Scalar R}
    (uninit : Z -> list R) (junk : Z -> Z -> R)
    (hostA : list R) (numARows numAColumns : Z)
    (hostB : list R) (numBRows numBColumns : Z)
    (script : list cudaError_t) :
  (forall size, length (uninit size) = floats size) ->
  host_matrix hostA numARows numAColumns = true ->
  host_matrix hostB numBRows numBColumns = true ->
  numBRows < numAColumns ->
  (forall i, (i < 6)%nat -> nth_outcome script i = cudaSuccess) ->
  let faults (kernel : list R -> list R -> Z -> Z -> Z -> Z -> Z -> Z ->
                       dim3 -> dim3 -> M R unit)
             (run : step unit * world R) (grid block : dim3) :=
    (exists st' th,
       kernel hostA hostB numARows numAColumns numBRows numBColumns
         numARows numBColumns grid block
         (State (uninit (byte_size numARows numBColumns)) junk junk junk [])
       = (Fault, st')
       /\ last (trace st') = Some (th, Load GlobalB (numBRows * numBColumns))
       /\ Z.of_nat (length hostB) = numBRows * numBColumns)
    /\ fst run = Undefined
    /\ solution (snd run) = None
    /\ dom (heap (snd run)) = ({[1; 2; 3]} : gset Z)
    /\ calls (snd run)
       = take 6 (call_sequence (byte_size numARows numAColumns)
                   (byte_size numBRows numBColumns)
                   (byte_size numARows numBColumns) grid block) in
  faults Simple.kernel
    (Simple.main uninit junk hostA numARows numAColumns hostB numBRows
       numBColumns (boot script))
    (Simple.dimGrid numARows numBColumns) Simple.dimBlock
  /\ faults Tiled.kernel
       (Tiled.main uninit junk hostA numARows numAColumns hostB numBRows
          numBColumns (boot script))
       (Tiled.dimGrid numARows numBColumns) Tiled.dimBlock.
Proof.
  intros Hun HA HB Hexcess Hok faults.
  pose proof (host_matrix_holds _ _ _ HA) as HA'.
  pose proof HA as HA2. apply host_matrix_spec in HA2 as (? & ? & ? & HlenA).
  pose proof HB as HB2. apply host_matrix_spec in HB2 as (? & ? & ? & HlenB).
  assert (length hostA = floats (byte_size numARows numAColumns)) as HlA.
  { destruct (byte_size_small numARows numAColumns) as [_ ->]; lia. }
  assert (length hostB = floats (byte_size numBRows numBColumns)) as HlB.
  { destruct (byte_size_small numBRows numBColumns) as [_ ->]; lia. }
  set (st := State (uninit (byte_size numARows numBColumns)) junk junk junk []).
  destruct (naive_excess hostA hostB numARows numAColumns numBRows numBColumns
              numARows numBColumns HA' ltac:(lia) ltac:(lia)
              ltac:(unfold int_max in *; lia) HlenB Hexcess eq_refl eq_refl st)
    as (st_n & Hrun_n & Hlast_n).
  destruct (tiled_excess hostA hostB numARows numAColumns numBRows numBColumns
              numARows numBColumns HA' ltac:(lia) ltac:(lia)
              ltac:(unfold int_max in *; lia) HlenB Hexcess eq_refl eq_refl st)
    as (st_t & th_t & Hrun_t & Hlast_t).
  split.
  - split; [by exists st_n, (Thread (Dim3 0 0) (Dim3 0 0))|].
    apply (main_body_kernel_fault uninit Simple.dimGrid Simple.dimBlock
             (@Simple.kernel R _) junk hostA hostB numARows numAColumns
             numBRows numBColumns script Hun HlA HlB st_n Hok Hrun_n).
  - split; [by exists st_t, th_t|].
    apply (main_body_kernel_fault uninit Tiled.dimGrid Tiled.dimBlock
             (@Tiled.kernel R _) junk hostA hostB numARows numAColumns
             numBRows numBColumns script Hun HlA HlB st_t Hok Hrun_t).
Qed.

Lemma excess_columns_read_past_B_witness :
  let run := Tiled.main (fun size => replicate (floats size) 0) (fun _ _ => 0)
               [1; 2; 3; 4; 5; 6] 2 3 [5; 6; 7; 8] 2 2 (boot []) in
  fst run = Undefined /\ solution (snd run) = None.
Proof.
  intros run.
  destruct (excess_columns_read_past_B
              (fun size => replicate (floats size) 0) (fun _ _ => 0)
              [1; 2; 3; 4; 5; 6] 2 3 [5; 6; 7; 8] 2 2 [])
    as [_ (_ & Hexit & Hsol & _)].
  - intros size. apply length_replicate.
  - reflexivity.
  - reflexivity.
  - lia.
  - intros i Hi. reflexivity.
  - split; [exact Hexit|exact Hsol].
Defined.

(** ** What the scratch tiles and the accumulators hold at launch *)

(** X12.  On valid operands, what a launch of the tiled kernel leaves in
    [C] does not depend on what the scratch tiles [ds_A] and [ds_B] and the
    accumulators held when the kernel started: two launches from states that
    agree on [C] leave the same [C]. *)
Theorem scratch_contents_are_immaterial {R : Type} `{Scalar R} (A B : list R)
    (numARows numAColumns numBRows numBColumns numCRows numCColumns : Z)
    (st1 st2 : state R) :
  holds A numARows numAColumns = true ->
  holds B numBRows numBColumns = true ->
  holds (memC st1) numCRows numCColumns = true ->
  numAColumns = numBRows -> numCRows = numARows -> numCColumns = numBColumns ->
  memC st2 = memC st1 ->
  exists st1' st2',
    Tiled.kernel A B numARows numAColumns numBRows numBColumns numCRows numCColumns
      (Tiled.dimGrid numCRows numCColumns) Tiled.dimBlock st1 = (Ok tt, st1')
    /\ Tiled.kernel A B numARows numAColumns numBRows numBColumns numCRows
         numCColumns (Tiled.dimGrid numCRows numCColumns) Tiled.dimBlock st2
       = (Ok tt, st2')
    /\ memC st2' = memC st1'.
Proof.
  intros HA HB HC Hshared HCrows HCcols Hsame.
  destruct (tiled_launch_fills A B numARows numAColumns numBRows numBColumns
              numCRows numCColumns HA HB Hshared HCrows HCcols st1 HC)
    as (st1' & Hrun1 & Hfill1 & _).
  destruct (tiled_launch_fills A B numARows numAColumns numBRows numBColumns
              numCRows numCColumns HA HB Hshared HCrows HCcols st2)
    as (st2' & Hrun2 & Hfill2 & _); [by rewrite Hsame|].
  exists st1', st2'. split; [exact Hrun1|]. split; [exact Hrun2|].
  rewrite Hsame in Hfill2. eapply fills_unique; [exact Hfill2|exact Hfill1].
Qed.

Lemma scratch_contents_are_immaterial_witness :
  exists st1' st2',
    Tiled.kernel [1; 2; 3; 4] [5; 6; 7; 8] 2 2 2 2 2 2
      (Tiled.dimGrid 2 2) Tiled.dimBlock
      (State [0; 0; 0; 0] (fun _ _ => 0) (fun _ _ => 0) (fun _ _ => 0) [])
    = (Ok tt, st1')
    /\ Tiled.kernel [1; 2; 3; 4] [5; 6; 7; 8] 2 2 2 2 2 2
         (Tiled.dimGrid 2 2) Tiled.dimBlock
         (State [0; 0; 0; 0] (fun y x => y + x) (fun _ _ => 9) (fun y _ => y) [])
       = (Ok tt, st2')
    /\ memC st2' = memC st1'.
Proof.
  apply (scratch_contents_are_immaterial [1; 2; 3; 4] [5; 6; 7; 8] 2 2 2 2 2 2
           (State [0; 0; 0; 0] (fun _ _ => 0) (fun _ _ => 0) (fun _ _ => 0) [])
           (State [0; 0; 0; 0] (fun y x => y + x) (fun _ _ => 9) (fun y _ => y) []));
    reflexivity.
Defined.
